(** * Resilient orchestration layer: cache, provider rotator, rate-limited
      queue, batch sentiment engine, aggregator, workflows, summary and
      dashboard.

    A shallow embedding of the TypeScript services and tools, followed by the
    properties of the design document, each stated and settled against the
    embedding.  The first part holds the models, one module per source file;
    the second part holds the lemmas and theorems.

    Conventions.
    - Wall-clock instants ([Date.now()]) are integers of milliseconds.
    - JavaScript numbers that the code only uses as integers are [Z] and
      counters that move in halves are rationals [Q], both exact as long as
      they stay below 2^53; sums and averages of scores and the durations
      of the workflows are rationals rounded to the nearest double after
      each operation; where a division by zero or an overflow can occur,
      numbers carry [Infinity] and [NaN].
    - A JavaScript [Map] that is only read and written by key is a [gmap];
      one whose iteration order is observable is an association list in
      insertion order.
    - A function that may throw returns a sum, [inl] carrying the error;
      every thrown value is an error object.
    - What lies outside the repository (the inference providers, the
      activities' remote calls, [JSON.parse], the MD5 digest) is a variable
      of the section that uses it. *)

From Stdlib Require Import ZArith QArith Qround Qminmax Lia Lqa.
From Stdlib Require Import String Ascii List DecimalString DecimalPos DecimalN.
From stdpp Require Import gmap strings list.
Import ListNotations.

Open Scope Z_scope.

(* ===================================================================== *)
(** ** services/cache.ts : SimpleCache *)
(* ===================================================================== *)

Module SimpleCache.
Section WithValue.
Context {T : Type}.

(** [interface CacheItem<T> { value: T; expiry: number }] *)
Record CacheItem := { value : T; expiry : Z }.

(** The instance: the backing map and [defaultTTL] in milliseconds. *)
Record t := { cache : gmap string CacheItem; defaultTTL : Z }.

(** [constructor(defaultTTLSeconds = 300)] *)
Definition new (defaultTTLSeconds : Z) : t :=
  {| cache := ∅; defaultTTL := defaultTTLSeconds * 1000 |}.

(** [ttlSeconds || this.defaultTTL / 1000]: the left operand is taken
    unless it is falsy, that is [undefined] or [0]. *)
Definition ttl_or_default (ttlSeconds : option Z) (dflt : Z) : Z :=
  match ttlSeconds with
  | None => dflt
  | Some s => if s =? 0 then dflt else s
  end.

(** [set(key, value, ttlSeconds?)], called at instant [now]. *)
Definition set (c : t) (now : Z) (key : string) (v : T)
    (ttlSeconds : option Z) : t :=
  let ttl := ttl_or_default ttlSeconds (defaultTTL c / 1000) * 1000 in
  {| cache := <[key := {| value := v; expiry := now + ttl |}]> (cache c);
     defaultTTL := defaultTTL c |}.

(** [get(key)], called at instant [now]: the value read (if any) and the
    instance afterwards (an expired entry is deleted). *)
Definition get (c : t) (now : Z) (key : string) : option T * t :=
  match cache c !! key with
  | None => (None, c)
  | Some item =>
      if now >? expiry item
      then (None, {| cache := delete key (cache c); defaultTTL := defaultTTL c |})
      else (Some (value item), c)
  end.

(** [has(key)]: [this.get(key) !== null]. *)
Definition has (c : t) (now : Z) (key : string) : bool * t :=
  let '(r, c') := get c now key in
  (match r with Some _ => true | None => false end, c').

(** [delete(key)] *)
Definition delete (c : t) (key : string) : t :=
  {| cache := base.delete key (cache c); defaultTTL := defaultTTL c |}.

(** [clear()] *)
Definition clear (c : t) : t :=
  {| cache := ∅; defaultTTL := defaultTTL c |}.

(** [cleanup()], the sweep run every minute. *)
Definition cleanup (c : t) (now : Z) : t :=
  {| cache := filter (fun kv => ¬ (now > expiry (snd kv))) (cache c);
     defaultTTL := defaultTTL c |}.

(** [size()] *)
Definition size (c : t) : nat := base.size (cache c).

(** The value [get] reads, without the resulting instance. *)
Definition read (c : t) (now : Z) (key : string) : option T :=
  fst (get c now key).

(** The claim of the design document, word for word: an immediate read
    returns the value, and a read at any elapsed time of at least the TTL
    returns absent.  [ttl] is in seconds, [elapsed] in milliseconds. *)
Definition expires_at_ttl (c : t) (now : Z) (k : string) (v : T)
    (ttl elapsed : Z) : Prop :=
  read (set c now k v (Some ttl)) now k = Some v ∧
  (elapsed >= ttl * 1000 → read (set c now k v (Some ttl)) (now + elapsed) k = None).

End WithValue.
Arguments CacheItem : clear implicits.
Arguments t : clear implicits.

(** [sentimentCache], [socialDataCache], [analysisCache] *)
Definition sentimentCache {T} : t T := new 600.
Definition socialDataCache {T} : t T := new 300.
Definition analysisCache {T} : t T := new 900.

End SimpleCache.

(* ===================================================================== *)
(** ** A JavaScript [Map] with observable iteration order *)
(* ===================================================================== *)

(** Entries are kept in insertion order; [set] on a present key replaces the
    value in place, on an absent key appends. *)
Module JsMap.
Section WithValue.
Context {V : Type}.

Fixpoint get (m : list (string * V)) (k : string) : option V :=
  match m with
  | [] => None
  | (k', v) :: m' => if String.eqb k' k then Some v else get m' k
  end.

Fixpoint set (m : list (string * V)) (k : string) (v : V) : list (string * V) :=
  match m with
  | [] => [(k, v)]
  | (k', v') :: m' =>
      if String.eqb k' k then (k', v) :: m' else (k', v') :: set m' k v
  end.

Definition keys (m : list (string * V)) : list string := map fst m.
End WithValue.
End JsMap.

(* ===================================================================== *)
(** ** services/model-rotator.ts : ModelRotator *)
(* ===================================================================== *)

Module ModelRotator.

(** [interface ModelStats] *)
Record ModelStats := {
  requestCount : Z;
  lastRequestTime : Z;
  recentErrors : Q;
  isAvailable : bool
}.

Record t := {
  models : list (string * ModelStats);
  currentIndex : nat;
  modelList : list string
}.

Definition fresh : ModelStats :=
  {| requestCount := 0; lastRequestTime := 0; recentErrors := 0%Q;
     isAvailable := true |}.

(** [constructor(models)]: every listed model gets fresh statistics. *)
Definition new (names : list string) : t :=
  {| models := fold_left (fun m name => JsMap.set m name fresh) names [];
     currentIndex := 0;
     modelList := names |}.

(** The body of the [setInterval] callback, run every 60000 ms. *)
Definition decay (st : ModelStats) : ModelStats :=
  let e := Qmax 0 (recentErrors st - 1)%Q in
  {| requestCount := requestCount st;
     lastRequestTime := lastRequestTime st;
     recentErrors := e;
     isAvailable := if Qeq_bool e 0 then true else isAvailable st |}.

Definition decayTick (r : t) : t :=
  {| models := map (fun kv => (fst kv, decay (snd kv))) (models r);
     currentIndex := currentIndex r;
     modelList := modelList r |}.

(** The test of the scanning loop: available and past the 1 s cooldown. *)
Definition qualifies (st : ModelStats) (now : Z) : bool :=
  isAvailable st && (now - lastRequestTime st >? 1000).

(** The [for] loop of [getNextModel] over the offsets [offs]: the first
    offset whose model qualifies gives the model and the next index.  A
    listed model always has statistics ([ready] below), so the two [None]
    branches of the lookups are never taken. *)
Fixpoint scan (r : t) (now : Z) (offs : list nat) : option (string * nat) :=
  match offs with
  | [] => None
  | i :: offs' =>
      let index := ((currentIndex r + i) mod length (modelList r))%nat in
      match modelList r !! index with
      | None => None
      | Some model =>
          match JsMap.get (models r) model with
          | None => None
          | Some stats =>
              if qualifies stats now
              then Some (model, ((index + 1) mod length (modelList r))%nat)
              else scan r now offs'
          end
      end
  end.

(** The [forEach] of the fallback: [minErrors] starts at [Infinity]
    ([None]) and an entry wins only when strictly smaller. *)
Definition pick (acc : option string * option Q) (kv : string * ModelStats)
    : option string * option Q :=
  match snd acc with
  | None => (Some (fst kv), Some (recentErrors (snd kv)))
  | Some m =>
      if negb (Qle_bool m (recentErrors (snd kv)))
      then (Some (fst kv), Some (recentErrors (snd kv)))
      else acc
  end.

Definition leastErrors (r : t) : option string :=
  fst (fold_left pick (models r) (modelList r !! 0%nat, None)).

(** [getNextModel()], called at instant [now]; [None] is [undefined],
    returned only by an instance built from an empty list. *)
Definition getNextModel (r : t) (now : Z) : option string * t :=
  match scan r now (seq 0 (length (modelList r))) with
  | Some (model, next) =>
      (Some model,
       {| models := models r; currentIndex := next; modelList := modelList r |})
  | None => (leastErrors r, r)
  end.

(** [recordRequest(model, success)], called at instant [now]. *)
Definition record (st : ModelStats) (success : bool) (now : Z) : ModelStats :=
  if success then
    {| requestCount := requestCount st + 1;
       lastRequestTime := now;
       recentErrors := Qmax 0 (recentErrors st - (1 # 2))%Q;
       isAvailable := isAvailable st |}
  else
    let e := (recentErrors st + 1)%Q in
    {| requestCount := requestCount st + 1;
       lastRequestTime := now;
       recentErrors := e;
       isAvailable := if Qle_bool 3 e then false else isAvailable st |}.

Definition recordRequest (r : t) (model : string) (success : bool) (now : Z) : t :=
  match JsMap.get (models r) model with
  | None => r
  | Some stats =>
      {| models := JsMap.set (models r) model (record stats success now);
         currentIndex := currentIndex r;
         modelList := modelList r |}
  end.

(** What can happen to a rotator between two selections. *)
Inductive event :=
| Recorded (model : string) (success : bool) (now : Z)
| DecayTick.

Definition step (r : t) (e : event) : t :=
  match e with
  | Recorded model success now => recordRequest r model success now
  | DecayTick => decayTick r
  end.

Definition run (r : t) (es : list event) : t := fold_left step es r.

Definition is_tick (e : event) : bool :=
  match e with DecayTick => true | _ => false end.

Definition is_failure_of (id : string) (e : event) : bool :=
  match e with
  | Recorded model false _ => String.eqb model id
  | _ => false
  end.

(** The number of decay ticks among the events. *)
Fixpoint ticks (es : list event) : nat :=
  match es with
  | [] => 0
  | e :: es' => ((if is_tick e then 1 else 0) + ticks es')%nat
  end.

(** A success recorded for [id]. *)
Definition is_success_of (id : string) (e : event) : bool :=
  match e with
  | Recorded model true _ => String.eqb model id
  | _ => false
  end.

(** By how much the events up to and including the last decay tick lower
    the error count of [id]: 1 per tick, 1/2 per success; [None] when no
    tick occurs. *)
Fixpoint relief (id : string) (es : list event) : option Q :=
  match es with
  | [] => None
  | e :: es' =>
      match relief id es' with
      | Some q =>
          Some (q + (if is_tick e then 1
                     else if is_success_of id e then 1 # 2 else 0))%Q
      | None => if is_tick e then Some 1%Q else None
      end
  end.

Definition stats_of (r : t) (id : string) : option ModelStats :=
  JsMap.get (models r) id.

Definition available (r : t) (id : string) : bool :=
  match stats_of r id with Some st => isAvailable st | None => false end.

(** Every key appears once and no counter is negative; holds of every
    instance the constructor builds and is kept by every operation. *)
Definition wf (r : t) : Prop :=
  NoDup (JsMap.keys (models r)) ∧
  Forall (fun kv => (0 <= recentErrors (snd kv))%Q) (models r).

(** [sentimentModelRotator] *)
Definition sentimentModelRotator : t :=
  new ["anthropic.claude-3-5-sonnet-20240620-v1:0";
       "mistral.mistral-large-2402-v1:0"].

(** An event that cannot lower the error count of [id]: neither a decay
    tick nor a success of [id]. *)
Definition keepsCount (id : string) (e : event) : bool :=
  negb (is_tick e) && negb (is_success_of id e).

(** The invariant of the fallback loop: [acc] is the first entry of
    [seen] with the least count. *)
Definition leastOf (acc : option string * option Q)
    (seen : list (string * ModelStats)) : Prop :=
  match snd acc with
  | None => seen = []
  | Some q =>
      ∃ k st, fst acc = Some k ∧ (k, st) ∈ seen ∧ recentErrors st = q ∧
              ∀ kv, kv ∈ seen → (q <= recentErrors (snd kv))%Q
  end.

(** The design document on successes: a recorded success restores
    availability once the count reaches 0. *)
Definition restoredBySuccess (r : t) (id : string) (now : Z) : Prop :=
  ∀ st', stats_of (recordRequest r id true now) id = Some st' →
         (recentErrors st' == 0)%Q → isAvailable st' = true.

(** The design document's invariant: unavailable only while the count is
    at the quarantine threshold of 3 or above. *)
Definition quarantinedOnlyAtThreshold (r : t) : Prop :=
  ∀ id st, stats_of r id = Some st → isAvailable st = false →
           (3 <= recentErrors st)%Q.

(** The design document on selection: [id] is never returned so long as
    some other provider has fewer than 3 recent errors. *)
Definition neverSelectedWhileAlternate (r : t) (id : string) : Prop :=
  ∀ now alt a, alt ≠ id → stats_of r alt = Some a → (recentErrors a < 3)%Q →
               fst (getNextModel r now) ≠ Some id.

(** Every listed model has statistics and there is at least one. *)
Definition ready (r : t) : Prop :=
  modelList r ≠ [] ∧ ∀ m, m ∈ modelList r → is_Some (stats_of r m).

(** Three consecutive failures of [id]. *)
Definition failThrice (r : t) (id : string) (t1 t2 t3 : Z) : t :=
  recordRequest (recordRequest (recordRequest r id false t1) id false t2) id false t3.

(** The model the scanning loop looks at in its [j]-th turn. *)
Definition modelAt (r : t) (j : nat) : option string :=
  modelList r !! ((currentIndex r + j) mod length (modelList r))%nat.

(** The model passes the test of the scanning loop at instant [now]. *)
Definition qualifiesNow (r : t) (now : Z) (model : string) : bool :=
  match stats_of r model with
  | Some st => qualifies st now
  | None => false
  end.

(** The number of requests recorded for [id] among the events, and the
    instant of the last of them ([dflt] when there is none). *)
Fixpoint requestsOf (id : string) (es : list event) : Z :=
  match es with
  | [] => 0
  | Recorded model _ _ :: es' =>
      (if String.eqb model id then 1 else 0) + requestsOf id es'
  | DecayTick :: es' => requestsOf id es'
  end.

Fixpoint lastRequestOf (id : string) (dflt : Z) (es : list event) : Z :=
  match es with
  | [] => dflt
  | Recorded model _ now :: es' =>
      lastRequestOf id (if String.eqb model id then now else dflt) es'
  | DecayTick :: es' => lastRequestOf id dflt es'
  end.

(** Sample histories of a rotator over two providers. *)
Definition twoProviders : t := new ["A"; "B"].
Definition quarantined : t := failThrice twoProviders "A" 1 2 3.
Definition tickedOnce : t := decayTick quarantined.
Definition fiveSuccesses : t := run quarantined (repeat (Recorded "A" true 4) 5).
(** ["A"] quarantined, then two successes of ["A"] and two failures of
    ["B"] at instant 5000: both counts are 2. *)
Definition tied : t :=
  run quarantined
    [Recorded "A" true 4; Recorded "A" true 4;
     Recorded "B" false 5000; Recorded "B" false 5000].

End ModelRotator.

(* ===================================================================== *)
(** ** JavaScript strings and errors *)
(* ===================================================================== *)

(** Strings are sequences of 8-bit characters; case mapping and white space
    are the ASCII ones. *)
Module JsString.

Definition lower (c : ascii) : ascii :=
  let n := nat_of_ascii c in
  if ((65 <=? n) && (n <=? 90))%nat then ascii_of_nat (n + 32) else c.

(** [s.toLowerCase()] *)
Fixpoint toLowerCase (s : string) : string :=
  match s with
  | EmptyString => EmptyString
  | String c s' => String (lower c) (toLowerCase s')
  end.

(** [s.startsWith(p)] *)
Fixpoint startsWith (s p : string) : bool :=
  match p, s with
  | EmptyString, _ => true
  | String _ _, EmptyString => false
  | String a p', String b s' => Ascii.eqb a b && startsWith s' p'
  end.

(** [s.includes(needle)] *)
Fixpoint includes (s needle : string) : bool :=
  startsWith s needle ||
  match s with
  | EmptyString => false
  | String _ s' => includes s' needle
  end.

(** [\s] *)
Definition isSpace (c : ascii) : bool :=
  let n := nat_of_ascii c in
  ((9 <=? n) && (n <=? 13) || (n =? 32))%nat.

(** [parts.join(sep)] *)
Fixpoint join (sep : string) (parts : list string) : string :=
  match parts with
  | [] => EmptyString
  | [p] => p
  | p :: ps => (p ++ sep ++ join sep ps)%string
  end.

(** The double quote character, for JSON text. *)
Definition dquote : string := String (ascii_of_nat 34) EmptyString.

End JsString.

(** A thrown [Error]-like object, as far as the code inspects it. *)
Record JsError := {
  message : option string;
  statusCode : option Z
}.

(** [new Error(msg)] *)
Definition Error_ (msg : string) : JsError :=
  {| message := Some msg; statusCode := None |}.

(* ===================================================================== *)
(** ** services/rate-limiter.ts : RateLimiter *)
(* ===================================================================== *)

Module RateLimiter.

(** [RateLimiterOptions], every field optional. *)
Record PartialOptions := {
  maxRequestsPerMinute_opt : option Z;
  maxRequestsPerSecond_opt : option Z;
  maxRetries_opt : option Z;
  retryDelay_opt : option Z;
  backoffMultiplier_opt : option Z
}.

(** [Required<RateLimiterOptions>] *)
Record Options := {
  maxRequestsPerMinute : Z;
  maxRequestsPerSecond : Z;
  maxRetries : Z;
  retryDelay : Z;
  backoffMultiplier : Z
}.

Definition defaults : Options :=
  {| maxRequestsPerMinute := 60; maxRequestsPerSecond := 2; maxRetries := 3;
     retryDelay := 1000; backoffMultiplier := 2 |}.

(** [{ ...this.options, ...options }] *)
Definition merge (o : PartialOptions) : Options :=
  {| maxRequestsPerMinute := default (maxRequestsPerMinute defaults) (maxRequestsPerMinute_opt o);
     maxRequestsPerSecond := default (maxRequestsPerSecond defaults) (maxRequestsPerSecond_opt o);
     maxRetries := default (maxRetries defaults) (maxRetries_opt o);
     retryDelay := default (retryDelay defaults) (retryDelay_opt o);
     backoffMultiplier := default (backoffMultiplier defaults) (backoffMultiplier_opt o) |}.

(** [isRateLimitError(error)] *)
Definition isRateLimitError (error : JsError) : bool :=
  let errorMessage := JsString.toLowerCase (default EmptyString (message error)) in
  JsString.includes errorMessage "rate limit" ||
  JsString.includes errorMessage "too many requests" ||
  match statusCode error with Some c => c =? 429 | None => false end.

Section WithValue.
Context {V : Type}.

(** How a promise settles. *)
Inductive Outcome :=
| Resolves (v : V)
| Rejects (e : JsError).

(** [interface QueueItem].  [fn n] is what the [n]-th call of the operation
    does (counting from 0): the time it takes and how its promise settles.
    [resolve] and [reject] settle the promise [execute] returned, recorded
    in [settled] under the item's [id]. *)
Record QueueItem := {
  id : string;
  fn : nat -> Z * Outcome;
  retries : nat
}.

Record t := {
  queue : list QueueItem;
  processing : bool;
  perSecond : Z;
  perMinute : Z;
  options : Options;
  (** pending [setTimeout] callbacks: due instant and the item to put back *)
  timers : list (Z * QueueItem);
  (** promises settled so far, oldest first *)
  settled : list (string * Outcome);
  (** the [console.error] lines of the retry branch: delay and attempt *)
  console : list (Z * Z);
  (** the instant of construction (the two [setInterval]s start here) and
      the current instant *)
  born : Z;
  now : Z
}.

(** [constructor(options?)], at instant [t0]. *)
Definition new (o : option PartialOptions) (t0 : Z) : t :=
  {| queue := []; processing := false; perSecond := 0; perMinute := 0;
     options := match o with Some o => merge o | None => defaults end;
     timers := []; settled := []; console := []; born := t0; now := t0 |}.

(** The callback of the retry branch: [this.queue.unshift(item)]. *)
Definition unshift (q : list QueueItem) (item : QueueItem) : list QueueItem :=
  item :: q.

(** Timers in firing order: by due instant, earlier-set first among equals. *)
Fixpoint insertTimer (x : Z * QueueItem) (l : list (Z * QueueItem)) :=
  match l with
  | [] => [x]
  | y :: l' => if fst x <? fst y then x :: y :: l' else y :: insertTimer x l'
  end.

Definition firingOrder (l : list (Z * QueueItem)) : list (Z * QueueItem) :=
  fold_left (fun acc x => insertTimer x acc) l [].

(** The clock moves forward by [dt]: every timer due by then fires and
    every interval boundary crossed resets its counter. *)
Definition advance (st : t) (dt : Z) : t :=
  let now' := now st + dt in
  let due := filter (fun x => fst x <= now') (timers st) in
  let later := filter (fun x => ¬ (fst x <= now')) (timers st) in
  {| queue := fold_left unshift (map snd (firingOrder due)) (queue st);
     processing := processing st;
     perSecond :=
       if (now st - born st) / 1000 <? (now' - born st) / 1000 then 0 else perSecond st;
     perMinute :=
       if (now st - born st) / 60000 <? (now' - born st) / 60000 then 0 else perMinute st;
     options := options st;
     timers := later;
     settled := settled st;
     console := console st;
     born := born st;
     now := now' |}.

(** What the [catch] clause decides for [item] and the error it caught. *)
Inductive Decision :=
| Retry (item' : QueueItem) (delay : Z)
| GiveUp (e : JsError).

Definition onError (o : Options) (item : QueueItem) (error : JsError) : Decision :=
  if isRateLimitError error && (Z.of_nat (retries item) <? maxRetries o)
  then
    let retries' := S (retries item) in
    let delay := retryDelay o * backoffMultiplier o ^ (Z.of_nat retries' - 1) in
    Retry {| id := id item; fn := fn item; retries := retries' |} delay
  else GiveUp error.

Definition settle (st : t) (i : string) (o : Outcome) : t :=
  {| queue := queue st; processing := processing st;
     perSecond := perSecond st; perMinute := perMinute st;
     options := options st; timers := timers st;
     settled := settled st ++ [(i, o)];
     console := console st; born := born st; now := now st |}.

(** [this.queue.shift()] and the two counter increments. *)
Definition dequeue (st : t) (rest : list QueueItem) : t :=
  {| queue := rest; processing := processing st;
     perSecond := perSecond st + 1; perMinute := perMinute st + 1;
     options := options st; timers := timers st; settled := settled st;
     console := console st; born := born st; now := now st |}.

(** The retry branch: log the delay and set the timer that puts [item']
    back. *)
Definition schedule (st : t) (item' : QueueItem) (delay : Z) : t :=
  {| queue := queue st; processing := processing st;
     perSecond := perSecond st; perMinute := perMinute st;
     options := options st;
     timers := timers st ++ [(now st + delay, item')];
     settled := settled st;
     console := console st ++ [(delay, Z.of_nat (retries item'))];
     born := born st; now := now st |}.

(** The part of the loop body after the two budget checks: take the head
    item, count it, await its operation, then resolve and pause, or handle
    the error. *)
Definition runHead (st : t) : t :=
  match queue st with
  | [] => st
  | item :: rest =>
      let '(latency, outcome) := fn item (retries item) in
      let st2 := advance (dequeue st rest) latency in
      match outcome with
      | Resolves v =>
          advance (settle st2 (id item) (Resolves v))
                  (1000 / maxRequestsPerSecond (options st))
      | Rejects error =>
          match onError (options st) item error with
          | Retry item' delay => schedule st2 item' delay
          | GiveUp e => settle st2 (id item) (Rejects e)
          end
      end
  end.

(** One iteration of the [while] loop of [process]. *)
Definition loopIter (st : t) : t :=
  if perSecond st >=? maxRequestsPerSecond (options st) then advance st 1000
  else if perMinute st >=? maxRequestsPerMinute (options st) then advance st 5000
  else runHead st.

Definition withProcessing (st : t) (b : bool) : t :=
  {| queue := queue st; processing := b;
     perSecond := perSecond st; perMinute := perMinute st;
     options := options st; timers := timers st; settled := settled st;
     console := console st; born := born st; now := now st |}.

(** [execute(fn)], with the random [id] it draws. *)
Definition execute (st : t) (i : string) (f : nat -> Z * Outcome) : t :=
  {| queue := queue st ++ [{| id := i; fn := f; retries := 0 |}];
     processing := processing st;
     perSecond := perSecond st; perMinute := perMinute st;
     options := options st; timers := timers st; settled := settled st;
     console := console st; born := born st; now := now st |}.

(** The event loop, for [fuel] turns: while the queue is not empty the
    [while] loop of [process] runs; when it is empty the loop exits and the
    clock moves to the next pending timer, whose callback restarts it. *)
Fixpoint drain (fuel : nat) (st : t) : t :=
  match fuel with
  | O => st
  | S fuel' =>
      match queue st with
      | _ :: _ => drain fuel' (loopIter (withProcessing st true))
      | [] =>
          match firingOrder (timers st) with
          | [] => withProcessing st false
          | (due, _) :: _ =>
              drain fuel' (advance (withProcessing st false) (Z.max 0 (due - now st)))
          end
      end
  end.

(** The life of one item seen from its promise: the delays of its
    successive retries and how the promise settles, following [onError]
    from one call of the operation to the next. *)
Fixpoint retrySchedule (o : Options) (fuel : nat) (item : QueueItem)
    : list Z * option Outcome :=
  match fuel with
  | O => ([], None)
  | S fuel' =>
      match snd (fn item (retries item)) with
      | Resolves v => ([], Some (Resolves v))
      | Rejects error =>
          match onError o item error with
          | Retry item' delay =>
              let '(ds, r) := retrySchedule o fuel' item' in (delay :: ds, r)
          | GiveUp e => ([], Some (Rejects e))
          end
      end
  end.

(** [getQueueSize()] *)
Definition getQueueSize (st : t) : nat := length (queue st).

(** [clearQueue()] *)
Definition clearQueue (st : t) : t :=
  {| queue := []; processing := processing st;
     perSecond := perSecond st; perMinute := perMinute st;
     options := options st; timers := timers st; settled := settled st;
     console := console st; born := born st; now := now st |}.

(** The promises still open, by the [id] of their item: those of the queued
    items and of the items a retry timer will put back; and the promises
    settled so far. *)
Definition waiting (st : t) : list string :=
  map id (queue st) ++ map (fun x => id (snd x)) (timers st).

Definition settledIds (st : t) : list string := map fst (settled st).

(** No item, queued or waiting for its timer, has been retried more often
    than [maxRetries], and every line the retry branch logged names an
    attempt between 1 and [maxRetries] and the delay
    [retryDelay * backoffMultiplier ^ (attempt - 1)]. *)
Definition withinRetries (st : t) : Prop :=
  Forall (fun item => Z.of_nat (retries item) <= maxRetries (options st))
         (queue st ++ map snd (timers st)) ∧
  Forall (fun line =>
            1 <= snd line <= maxRetries (options st) ∧
            fst line = retryDelay (options st) *
                       backoffMultiplier (options st) ^ (snd line - 1))
         (console st).

(** The counters are within the budgets. *)
Definition withinBudget (st : t) : Prop :=
  0 <= perSecond st <= maxRequestsPerSecond (options st) ∧
  0 <= perMinute st <= maxRequestsPerMinute (options st).

(** One turn of the event loop, as [drain] takes it. *)
Definition turn (st : t) : t :=
  match queue st with
  | _ :: _ => loopIter (withProcessing st true)
  | [] =>
      match firingOrder (timers st) with
      | [] => withProcessing st false
      | (due, _) :: _ => advance (withProcessing st false) (Z.max 0 (due - now st))
      end
  end.

(** The calls an item may still cost: one, and one more for each retry it
    has left; and their sum over the queued items and those in backoff. *)
Definition callsLeft (o : Options) (item : QueueItem) : nat :=
  S (Z.to_nat (maxRetries o - Z.of_nat (retries item))).

Definition load (st : t) : nat :=
  list_sum (map (callsLeft (options st)) (queue st ++ map snd (timers st))).

(** The lines the retry branch logs for the first [n] retries of one item:
    the delay and the attempt. *)
Definition retryLines (o : Options) (n : nat) : list (Z * Z) :=
  map (fun k => (retryDelay o * backoffMultiplier o ^ Z.of_nat k, Z.of_nat (S k)))
      (seq 0 n).

(** One item alone in the limiter.  [retrying]: it is queued or in backoff,
    nothing more has been settled, and one line has been logged for each of
    its retries so far.  [givenUp]: its promise has been rejected with [e]
    after [n] retries and the limiter is at rest. *)
Definition retrying (o : Options) (item : QueueItem)
    (settled0 : list (string * Outcome)) (console0 : list (Z * Z)) (st : t) : Prop :=
  options st = o ∧ queue st ++ map snd (timers st) = [item] ∧
  settled st = settled0 ∧ console st = console0 ++ retryLines o (retries item).

Definition givenUp (o : Options) (i : string) (e : JsError) (n : nat)
    (settled0 : list (string * Outcome)) (console0 : list (Z * Z)) (st : t) : Prop :=
  queue st = [] ∧ timers st = [] ∧
  settled st = settled0 ++ [(i, Rejects e)] ∧
  console st = console0 ++ retryLines o n.

End WithValue.
Arguments Outcome : clear implicits.
Arguments QueueItem : clear implicits.
Arguments Decision : clear implicits.
Arguments t : clear implicits.

(** [bedrockRateLimiter], [socialMediaRateLimiter] *)
Definition bedrockOptions : Options :=
  merge {| maxRequestsPerMinute_opt := Some 30; maxRequestsPerSecond_opt := Some 1;
           maxRetries_opt := Some 3; retryDelay_opt := Some 2000;
           backoffMultiplier_opt := Some 2 |}.

Definition socialMediaOptions : Options :=
  merge {| maxRequestsPerMinute_opt := Some 60; maxRequestsPerSecond_opt := Some 2;
           maxRetries_opt := Some 2; retryDelay_opt := Some 1000;
           backoffMultiplier_opt := None |}.

(** Sample operations and errors. *)
Definition throttled : JsError :=
  {| message := Some "Rate limit exceeded"; statusCode := None |}.
Definition status429 : JsError :=
  {| message := None; statusCode := Some 429 |}.
Definition denied : JsError :=
  {| message := Some "Access denied"; statusCode := Some 403 |}.

Definition alwaysThrottled : nat -> Z * Outcome Z := fun _ => (0, Rejects throttled).
Definition alwaysDenied : nat -> Z * Outcome Z := fun _ => (0, Rejects denied).

(** A queue holding one operation that the provider keeps throttling. *)
Definition throttledItem : QueueItem Z :=
  {| id := "a"; fn := alwaysThrottled; retries := 0 |}.
Definition oneThrottled : t Z :=
  execute (new (Some {| maxRequestsPerMinute_opt := Some 30;
                        maxRequestsPerSecond_opt := Some 1;
                        maxRetries_opt := Some 3; retryDelay_opt := Some 2000;
                        backoffMultiplier_opt := Some 2 |}) 0)
          "a" alwaysThrottled.

(** The same queue with a second operation behind the first, one that
    succeeds; and a queue whose per-second budget is 0. *)
Definition answers : nat -> Z * Outcome Z := fun _ => (120, Resolves 7).
Definition twoQueued : t Z := execute oneThrottled "b" answers.
Definition noBudget : t Z :=
  execute (new (Some {| maxRequestsPerMinute_opt := None;
                        maxRequestsPerSecond_opt := Some 0;
                        maxRetries_opt := None; retryDelay_opt := None;
                        backoffMultiplier_opt := None |}) 0)
          "a" answers.

End RateLimiter.

(* ===================================================================== *)
(** ** JavaScript numbers and JSON values *)
(* ===================================================================== *)

(** A number as far as the batch sizing needs it: an exact rational, an
  infinity or [NaN].  Divisions by zero follow IEEE 754 with a positive
  zero, the only zero the code can produce from lengths. *)
Module JsNum.

Inductive t := Fin (q : Q) | PosInf | NegInf | NaN.

Definition ofZ (z : Z) : t := Fin (inject_Z z).

(** [x / y] *)
Definition div (x y : t) : t :=
  match x, y with
  | NaN, _ | _, NaN => NaN
  | Fin a, Fin b =>
      if Qeq_bool b 0 then
        if Qeq_bool a 0 then NaN
        else if Qle_bool 0 a then PosInf else NegInf
      else Fin (a / b)
  | Fin _, _ => Fin 0
  | PosInf, Fin b => if Qle_bool 0 b then PosInf else NegInf
  | NegInf, Fin b => if Qle_bool 0 b then NegInf else PosInf
  | _, _ => NaN
  end.

(** [Math.ceil], [Math.floor] *)
Definition ceil (x : t) : t :=
  match x with Fin q => ofZ (Qceiling q) | _ => x end.
Definition floor (x : t) : t :=
  match x with Fin q => ofZ (Qfloor q) | _ => x end.

(** [Math.min], [Math.max] of two arguments *)
Definition min (x y : t) : t :=
  match x, y with
  | NaN, _ | _, NaN => NaN
  | NegInf, _ | _, NegInf => NegInf
  | PosInf, z | z, PosInf => z
  | Fin a, Fin b => Fin (Qmin a b)
  end.
Definition max (x y : t) : t :=
  match x, y with
  | NaN, _ | _, NaN => NaN
  | PosInf, _ | _, PosInf => PosInf
  | NegInf, z | z, NegInf => z
  | Fin a, Fin b => Fin (Qmax a b)
  end.

(** The number lies between the integers [lo] and [hi], inclusive. *)
Definition between (lo hi : Z) (x : t) : Prop :=
  match x with
  | Fin q => (inject_Z lo <= q)%Q ∧ (q <= inject_Z hi)%Q
  | _ => False
  end.

(** Rounding, for the sums and averages of scores and for the durations of
    the workflows.  The numbers of JavaScript are the doubles of IEEE 754:
    53 significant bits, exponents from -1022 to 1023, subnormal numbers
    below, and every result rounded to the nearest double, to the one with
    the even significand on a tie, and to an infinity from 2^1024 - 2^970
    on.  The zero is the positive one.  A finite result is kept as a
    fraction in lowest terms. *)

(** The integer part of the binary logarithm of [n / d]. *)
Definition ilog2 (n d : positive) : Z :=
  let e := Z.log2 (Zpos n) - Z.log2 (Zpos d) in
  if 0 <=? e
  then if Zpos d * 2 ^ e <=? Zpos n then e else e - 1
  else if Zpos d <=? Zpos n * 2 ^ (- e) then e else e - 1.

(** The integer nearest to [n / d], the even one when two are as near. *)
Definition roundHalfEven (n d : Z) : Z :=
  let q := n / d in
  match 2 * (n mod d) ?= d with
  | Lt => q
  | Eq => if Z.even q then q else q + 1
  | Gt => q + 1
  end.

(** The double nearest to [n / d]: [m] units of 2^[p], where [p] is 52
    below the exponent of [n / d], and not below -1074. *)
Definition nearest (n d : positive) : t :=
  let p := Z.max (ilog2 n d) (-1022) - 52 in
  let up := 2 ^ Z.max 0 p in
  let down := 2 ^ Z.max 0 (- p) in
  let m := roundHalfEven (Zpos n * down) (Zpos d * up) in
  let v := (m * up # Z.to_pos down)%Q in
  if Qle_bool (inject_Z (2 ^ 1024)) v then PosInf else Fin (Qred v).

Definition opp (x : t) : t :=
  match x with
  | Fin q => Fin (- q)
  | PosInf => NegInf
  | NegInf => PosInf
  | NaN => NaN
  end.

(** The double nearest to the rational [x]. *)
Definition double (x : Q) : t :=
  match Qnum (Qred x) with
  | Z0 => Fin 0
  | Zpos n => nearest n (Qden (Qred x))
  | Zneg n => opp (nearest n (Qden (Qred x)))
  end.

(** [x + y], [x * y] and [x / y] of two doubles. *)
Definition plus (x y : t) : t :=
  match x, y with
  | NaN, _ | _, NaN => NaN
  | Fin a, Fin b => double (a + b)
  | PosInf, NegInf | NegInf, PosInf => NaN
  | PosInf, _ | _, PosInf => PosInf
  | NegInf, _ | _, NegInf => NegInf
  end.

Definition times (x y : t) : t :=
  match x, y with
  | NaN, _ | _, NaN => NaN
  | Fin a, Fin b => double (a * b)
  | PosInf, Fin b | Fin b, PosInf =>
      if Qeq_bool b 0 then NaN else if Qle_bool 0 b then PosInf else NegInf
  | NegInf, Fin b | Fin b, NegInf =>
      if Qeq_bool b 0 then NaN else if Qle_bool 0 b then NegInf else PosInf
  | PosInf, PosInf | NegInf, NegInf => PosInf
  | PosInf, NegInf | NegInf, PosInf => NegInf
  end.

Definition quot (x y : t) : t :=
  match div x y with
  | Fin q => double q
  | z => z
  end.

(** [x < y] *)
Definition lt (x y : t) : bool :=
  match x, y with
  | NaN, _ | _, NaN => false
  | Fin a, Fin b => negb (Qle_bool b a)
  | _, NegInf | PosInf, _ => false
  | NegInf, _ | _, PosInf => true
  end.

(** [parseInt(digits)] of a string of decimal digits that denotes [n]. *)
Definition parseInt (n : N) : t := double (inject_Z (Z.of_N n)).

(** The number is not negative. *)
Definition nonNegative (x : t) : Prop :=
  match x with
  | Fin q => (0 <= q)%Q
  | PosInf => True
  | _ => False
  end.

End JsNum.

(** The values [JSON.parse] produces.  An object lists each key once. *)
#[warnings="-register-all"] Inductive Json :=
| JNull
| JBool (b : bool)
| JNum (n : Q)
| JStr (s : string)
| JArr (items : list Json)
| JObj (fields : list (string * Json)).

Module JsValue.

(** The value is truthy. *)
Definition truthy (v : Json) : bool :=
  match v with
  | JNull => false
  | JBool b => b
  | JNum n => negb (Qeq_bool n 0)
  | JStr s => negb (String.eqb s EmptyString)
  | JArr _ | JObj _ => true
  end.

(** A possibly [undefined] value ([None]) is truthy. *)
Definition truthy_opt (v : option Json) : bool :=
  match v with Some v => truthy v | None => false end.

(** [v.name] for a name that only plain objects carry; [None] is
    [undefined]. *)
Definition prop (v : Json) (name : string) : option Json :=
  match v with
  | JObj fields => JsMap.get fields name
  | _ => None
  end.

(** [Array.isArray(v)], [v] possibly [undefined] *)
Definition isArray (v : option Json) : bool :=
  match v with Some (JArr _) => true | _ => false end.

(** [if (v) return v]: the value when it is there and truthy. *)
Definition whenTruthy (v : option Json) : option Json :=
  match v with
  | Some x => if truthy x then Some x else None
  | None => None
  end.

(** The decimal numeral of an index, as a property key. *)
Definition indexKey (i : nat) : string :=
  NilEmpty.string_of_uint (Nat.to_uint i).

(** The own enumerable properties [{ ...v }] copies. *)
Definition spread (v : option Json) : list (string * Json) :=
  match v with
  | Some (JObj fields) => fields
  | Some (JArr items) => imap (fun i x => (indexKey i, x)) items
  | Some (JStr s) =>
      imap (fun i c => (indexKey i, JStr (String c EmptyString))) (list_ascii_of_string s)
  | _ => []
  end.

(** [v.name = x] on a plain object. *)
Definition setProp (v : Json) (name : string) (x : Json) : Json :=
  match v with
  | JObj fields => JObj (JsMap.set fields name x)
  | _ => v
  end.

End JsValue.

(* ===================================================================== *)
(** ** tools/sentiment-batch.ts : the batch sentiment engine *)
(* ===================================================================== *)

Module SentimentBatch.

(** *** Extraction of JSON text from a model reply *)

(** The suffix of [s] that starts at the first [c]. *)
Fixpoint fromFirst (c : ascii) (s : string) : option string :=
  match s with
  | EmptyString => None
  | String a s' => if Ascii.eqb a c then Some s else fromFirst c s'
  end.

(** The prefix of [s] that ends at the last [c]. *)
Fixpoint throughLast (c : ascii) (s : string) : option string :=
  match s with
  | EmptyString => None
  | String a s' =>
      match throughLast c s' with
      | Some u => Some (String a u)
      | None => if Ascii.eqb a c then Some (String a EmptyString) else None
      end
  end.

(** [content.match(/\{[\s\S]*\}/)], the matched text: from the first opening
    brace to the last closing brace after it. *)
Definition matchBraces (content : string) : option string :=
  match fromFirst "{" content with
  | Some (String a rest) => option_map (String a) (throughLast "}" rest)
  | _ => None
  end.

(** The suffix of [s] after the first occurrence of [needle]. *)
Fixpoint afterFirst (needle s : string) : option string :=
  if JsString.startsWith s needle
  then Some (String.substring (String.length needle)
                              (String.length s - String.length needle) s)
  else match s with
       | EmptyString => None
       | String _ s' => afterFirst needle s'
       end.

Fixpoint skipSpaces (s : string) : string :=
  match s with
  | String c s' => if JsString.isSpace c then skipSpaces s' else s
  | EmptyString => EmptyString
  end.

(** The shortest prefix of [s] after which optional white space and the
    closing fence follow. *)
Fixpoint lazyToFence (s : string) : option string :=
  if JsString.startsWith (skipSpaces s) "```" then Some EmptyString
  else match s with
       | EmptyString => None
       | String c s' => option_map (String c) (lazyToFence s')
       end.

(** [content.match(/```json\s*([\s\S]*?)\s*```/)], the captured group. *)
Definition matchCodeBlock (content : string) : option string :=
  match afterFirst "```json" content with
  | Some rest => lazyToFence (skipSpaces rest)
  | None => None
  end.

(** *** The prompt *)

(** [`[Text ${index + 1}]: "${text.substring(0, 500)}${text.length > 500 ? '...' : ''}"`] *)
Definition formatText (index : nat) (text : string) : string :=
  ("[Text " ++ NilEmpty.string_of_uint (Nat.to_uint (index + 1)) ++ "]: "
   ++ JsString.dquote ++ String.substring 0 500 text
   ++ (if (500 <? String.length text)%nat then "..." else EmptyString)
   ++ JsString.dquote)%string.

(** [texts.map(...).join('\n\n')] *)
Definition formatTexts (texts : list string) : string :=
  JsString.join (String (ascii_of_nat 10) (String (ascii_of_nat 10) EmptyString))
                (imap formatText texts).

(** *** Results *)

(** One entry of the error result built by [texts.map((text, index) => ...)]. *)
Definition placeholder (error : string) (index : nat) : Json :=
  JObj [("index", JNum (inject_Z (Z.of_nat index)));
        ("sentiment", JStr "neutral");
        ("score", JNum (1 # 2));
        ("confidence", JNum (1 # 2));
        ("_error", JStr error)]%string.

Definition errorResult (error implications : string) (texts : list string) : Json :=
  JObj [("results", JArr (imap (fun index _ => placeholder error index) texts));
        ("summary",
         JObj [("overall_sentiment", JStr "unknown");
               ("key_themes", JArr []);
               ("business_implications", JStr implications)])]%string.

(** The per-item list of a batch result, when [results] is an array. *)
Definition perItem (result : Json) : option (list Json) :=
  match JsValue.prop result "results" with
  | Some (JArr items) => Some items
  | _ => None
  end.

(** An entry is a degraded placeholder: category neutral, score 0.5,
    confidence 0.5, and an [_error] flag. *)
Definition degraded (item : Json) : Prop :=
  JsValue.prop item "sentiment" = Some (JStr "neutral") ∧
  JsValue.prop item "score" = Some (JNum (1 # 2)) ∧
  JsValue.prop item "confidence" = Some (JNum (1 # 2)) ∧
  is_Some (JsValue.prop item "_error").

(** *** The engine *)

(** What the engine reads and writes: the shared cache and rotator
    instances and the clock. *)
Record Env := {
  sentimentCache : SimpleCache.t Json;
  sentimentModelRotator : ModelRotator.t;
  clock : Z
}.

(** What awaiting the provider yields: the text of the reply, or the error
    object thrown by the rate-limited call or while decoding the response
    body. *)
Inductive Reply :=
| Throws (e : JsError)
| Content (text : string).

Definition claudeId : string := "anthropic.claude-3-5-sonnet-20240620-v1:0".
Definition mistralId : string := "mistral.mistral-large-2402-v1:0".

Section Engine.

(** The hexadecimal MD5 digest, [JSON.parse] ([None] when it throws), and
    the provider behind the rate limiter: for a model and a prompt, given
    by the number of texts and their formatted listing that the fixed
    template is filled with, the time the call takes and what it yields. *)
Variable md5hex : string -> string.
Variable JSON_parse : string -> option Json.
Variable invoke : string -> nat -> string -> Z * Reply.

(** The rate-limited call of either branch, with the prompt for [texts]. *)
Definition ask (modelId : string) (texts : list string) : Z * Reply :=
  invoke modelId (length texts) (formatTexts texts).

Definition withCache (env : Env) (c : SimpleCache.t Json) : Env :=
  {| sentimentCache := c;
     sentimentModelRotator := sentimentModelRotator env;
     clock := clock env |}.

Definition withClock (env : Env) (t : Z) : Env :=
  {| sentimentCache := sentimentCache env;
     sentimentModelRotator := sentimentModelRotator env;
     clock := t |}.

Definition withRotator (env : Env) (r : ModelRotator.t) : Env :=
  {| sentimentCache := sentimentCache env;
     sentimentModelRotator := r;
     clock := clock env |}.

(** The three strategies of [analyzeBatchWithClaude]; [None] is a [result]
    left [null]. *)
Definition extractClaude (content : string) : option Json :=
  match JSON_parse content with
  | Some result => Some result
  | None =>
      match matchBraces content with
      | Some jsonMatch =>
          match JSON_parse jsonMatch with
          | Some result => Some result
          | None =>
              match matchCodeBlock content with
              | Some codeBlock => JSON_parse codeBlock
              | None => None
              end
          end
      | None => None
      end
  end.

(** The two strategies of [analyzeBatchWithMistral]. *)
Definition extractMistral (modelOutput : string) : option Json :=
  match JSON_parse modelOutput with
  | Some result => Some result
  | None =>
      match matchBraces modelOutput with
      | Some jsonMatch => JSON_parse jsonMatch
      | None => None
      end
  end.

(** [result && result.results] *)
Definition hasResults (result : option Json) : bool :=
  match result with
  | Some r => JsValue.truthy r && JsValue.truthy_opt (JsValue.prop r "results")
  | None => false
  end.

Definition cacheKey (prefix : string) (texts : list string) : string :=
  (prefix ++ md5hex (JsString.join "|||" texts))%string.

(** The [try] block of [analyzeBatchWithMistral], after the cache missed. *)
Definition tryMistral (env : Env) (texts : list string) : Env * (JsError + Json) :=
  let '(latency, reply) := ask mistralId texts in
  let env := withClock env (clock env + latency) in
  match reply with
  | Throws e => (env, inl e)
  | Content modelOutput =>
      let result := extractMistral modelOutput in
      match result with
      | Some r =>
          if hasResults result then
            let r' :=
              JsValue.setProp r "summary"
                (JObj (JsMap.set (JsValue.spread (JsValue.prop r "summary"))
                                 "_model" (JStr "mistral-large"))) in
            (withCache env
               (SimpleCache.set (sentimentCache env) (clock env)
                  (cacheKey "mistral_batch_" texts) r' (Some 600)),
             inr r')
          else (env, inl (Error_ "Failed to parse JSON from Mistral batch output"))
      | None => (env, inl (Error_ "Failed to parse JSON from Mistral batch output"))
      end
  end.

(** [analyzeBatchWithMistral(texts)] *)
Definition analyzeBatchWithMistral (env : Env) (texts : list string)
    : Env * (JsError + Json) :=
  let '(cached, c) :=
    SimpleCache.get (sentimentCache env) (clock env) (cacheKey "mistral_batch_" texts) in
  let env := withCache env c in
  match JsValue.whenTruthy cached with
  | Some hit => (env, inr hit)
  | None =>
      match tryMistral env texts with
      | (env', inr result) => (env', inr result)
      | (env', inl error) =>
          (env', inr (errorResult "All models failed"
                        "Analysis unavailable - all models failed" texts))
      end
  end.

(** The [try] block of [analyzeBatchWithClaude], after the cache missed. *)
Definition tryClaude (env : Env) (texts : list string) : Env * (JsError + Json) :=
  let '(latency, reply) := ask claudeId texts in
  let env := withClock env (clock env + latency) in
  match reply with
  | Throws e => (env, inl e)
  | Content content =>
      let result := extractClaude content in
      match result with
      | Some r =>
          if hasResults result then
            if negb (JsValue.isArray (JsValue.prop r "results"))
            then (env, inl (Error_ "Invalid result structure: results is not an array"))
            else
              (withCache env
                 (SimpleCache.set (sentimentCache env) (clock env)
                    (cacheKey "claude_batch_" texts) r (Some 600)),
               inr r)
          else (env, inl (Error_ "Failed to parse JSON from Claude batch output"))
      | None => (env, inl (Error_ "Failed to parse JSON from Claude batch output"))
      end
  end.

(** [analyzeBatchWithClaude(texts, useMistralFallback)] *)
Definition analyzeBatchWithClaude (env : Env) (texts : list string)
    (useMistralFallback : bool) : Env * (JsError + Json) :=
  let '(cached, c) :=
    SimpleCache.get (sentimentCache env) (clock env) (cacheKey "claude_batch_" texts) in
  let env := withCache env c in
  match JsValue.whenTruthy cached with
  | Some hit => (env, inr hit)
  | None =>
      match tryClaude env texts with
      | (env', inr result) => (env', inr result)
      | (env', inl error) =>
          if useMistralFallback then
            match message error with
            | None =>
                (env', inl (Error_ "Cannot read properties of undefined (reading 'includes')"))
            | Some m =>
                if JsString.includes m "rate limit" || JsString.includes m "Too many requests"
                then analyzeBatchWithMistral env' texts
                else (env', inr (errorResult "Batch analysis failed"
                                   "Analysis unavailable due to API error" texts))
            end
          else (env', inr (errorResult "Batch analysis failed"
                             "Analysis unavailable due to API error" texts))
      end
  end.

(** The two branches on a model name, shared by both [try] blocks of
    [analyzeBatchSmart]. *)
Definition analyzeWith (model : string) (env : Env) (texts : list string)
    : Env * (JsError + Json) :=
  if JsString.includes model "claude"
  then analyzeBatchWithClaude env texts false
  else analyzeBatchWithMistral env texts.

(** [analyzeBatchSmart(texts)] *)
Definition analyzeBatchSmart (env : Env) (texts : list string)
    : Env * (JsError + Json) :=
  let '(next, rot) := ModelRotator.getNextModel (sentimentModelRotator env) (clock env) in
  let env := withRotator env rot in
  match next with
  | None => (env, inl (Error_ "Cannot read properties of undefined (reading 'includes')"))
  | Some nextModel =>
      let '(env, result, success) :=
        match analyzeWith nextModel env texts with
        | (env1, inr result) => (env1, result, true)
        | (env1, inl error) =>
            let fallbackModel :=
              if JsString.includes nextModel "claude" then mistralId else claudeId in
            match analyzeWith fallbackModel env1 texts with
            | (env2, inr result) => (env2, result, true)
            | (env2, inl fallbackError) =>
                (env2,
                 errorResult "All models failed"
                   "Analysis unavailable - all models failed" texts,
                 false)
            end
        end in
      (withRotator env
         (ModelRotator.recordRequest (sentimentModelRotator env) nextModel success (clock env)),
       inr result)
  end.

(** The provider a model name leads to: the branch on
    [nextModel.includes('claude')]. *)
Definition providerOf (model : string) : string :=
  if JsString.includes model "claude" then claudeId else mistralId.

(** The model [analyzeBatchSmart] falls back to. *)
Definition otherModel (model : string) : string :=
  if JsString.includes model "claude" then mistralId else claudeId.

Definition keyPrefix (model : string) : string :=
  if JsString.includes model "claude" then "claude_batch_" else "mistral_batch_".

(** What the extraction strategies of [model]'s branch make of a reply. *)
Definition parsed (model : string) (text : string) : option Json :=
  if JsString.includes model "claude" then extractClaude text else extractMistral text.

(** The reply passes the checks of the [try] block of [model]'s branch. *)
Definition usable (model : string) (text : string) : bool :=
  hasResults (parsed model text) &&
  (negb (JsString.includes model "claude") ||
   match parsed model text with
   | Some r => JsValue.isArray (JsValue.prop r "results")
   | None => false
   end).

(** The provider fails on [texts]: the call throws (throttling exhausted or
    any other error), or the reply does not parse into usable results. *)
Definition providerFails (model : string) (texts : list string) : Prop :=
  match snd (ask (providerOf model) texts) with
  | Throws _ => True
  | Content text => usable model text = false
  end.

(** The cache holds nothing usable for [model] and [texts], so that the
    provider is called. *)
Definition cacheMisses (env : Env) (model : string) (texts : list string) : Prop :=
  JsValue.whenTruthy
    (SimpleCache.read (sentimentCache env) (clock env)
       (cacheKey (keyPrefix model) texts)) = None.

(** The model the rotator hands out for this call. *)
Definition selected (env : Env) : option string :=
  fst (ModelRotator.getNextModel (sentimentModelRotator env) (clock env)).

(** The design document on the result list: whatever the providers do, the
    call returns a list with one entry per input text. *)
Definition oneEntryPerText (env : Env) (texts : list string) : Prop :=
  ∃ env' result items,
    analyzeBatchSmart env texts = (env', inr result) ∧
    perItem result = Some items ∧
    length items = length texts.

End Engine.

(** [getOptimalBatchSize(texts)] *)
Definition getOptimalBatchSize (texts : list string) : JsNum.t :=
  let avgTextLength :=
    JsNum.div
      (JsNum.ofZ (fold_left (fun sum t => sum + Z.of_nat (String.length t)) texts 0))
      (JsNum.ofZ (Z.of_nat (length texts))) in
  let targetTokens := JsNum.ofZ 10000 in
  let tokensPerText := JsNum.ceil (JsNum.div avgTextLength (JsNum.ofZ 4)) in
  let optimalSize := JsNum.floor (JsNum.div targetTokens tokensPerText) in
  JsNum.max (JsNum.ofZ 5) (JsNum.min (JsNum.ofZ 10) optimalSize).

(** A first call on a clean process: empty cache, fresh rotator. *)
Definition cleanEnv : Env :=
  {| sentimentCache := SimpleCache.sentimentCache;
     sentimentModelRotator := ModelRotator.sentimentModelRotator;
     clock := 1700000000000 |}.

(** A well-formed reply that carries no results: [{"results":[]}]. *)
Definition emptyResultsText : string :=
  ("{" ++ JsString.dquote ++ "results" ++ JsString.dquote ++ ":[]}")%string.

(** Stand-ins for the two library functions on the sample inputs: the
    sample cache is empty, so no key is ever found whatever the digest is;
    [JSON.parse] is given on the one text the sample provider replies. *)
Definition sampleDigest (s : string) : string := "0cc175b9c0f1b6a831c399e269772661".
Definition sampleParse (s : string) : option Json :=
  if String.eqb s emptyResultsText then Some (JObj [("results", JArr [])]%string)
  else None.

(** A provider that replies with no results, and one that is throttled
    until the queue gives up. *)
Definition repliesEmpty (model : string) (count : nat) (listing : string) : Z * Reply :=
  (120, Content emptyResultsText).
Definition alwaysThrottled (model : string) (count : nat) (listing : string) : Z * Reply :=
  (14000, Throws {| message := Some "Rate limit exceeded"; statusCode := Some 429 |}).

(** Providers of which only Mistral is throttled; and one that fails with
    an error object that carries a status code and no message. *)
Definition mistralThrottled (model : string) (count : nat) (listing : string) : Z * Reply :=
  if String.eqb model mistralId then alwaysThrottled model count listing
  else repliesEmpty model count listing.
Definition bareStatus (model : string) (count : nat) (listing : string) : Z * Reply :=
  (14000, Throws {| message := None; statusCode := Some 429 |}).

End SentimentBatch.

(** The earlier copy of the engine (unnamed source file): the same
    [getOptimalBatchSize] with the wider clamp. *)
Module SentimentBatchWide.

Definition getOptimalBatchSize (texts : list string) : JsNum.t :=
  let avgTextLength :=
    JsNum.div
      (JsNum.ofZ (fold_left (fun sum t => sum + Z.of_nat (String.length t)) texts 0))
      (JsNum.ofZ (Z.of_nat (length texts))) in
  let targetTokens := JsNum.ofZ 10000 in
  let tokensPerText := JsNum.ceil (JsNum.div avgTextLength (JsNum.ofZ 4)) in
  let optimalSize := JsNum.floor (JsNum.div targetTokens tokensPerText) in
  JsNum.max (JsNum.ofZ 5) (JsNum.min (JsNum.ofZ 25) optimalSize).

End SentimentBatchWide.

(* ===================================================================== *)
(** ** tools/sentiment.ts : aggregation of the per-item results *)
(* ===================================================================== *)

Module Sentiment.

(** [SentimentResult['sentiment']] *)
Inductive Category := positive | negative | neutral | mixed.

#[global] Instance Category_eq_dec : EqDecision Category := ltac:(solve_decision).

(** [SentimentResult], the fields the aggregation reads apart from the
    aspects.  [score] and [confidence] are the numerals as written; the
    numbers the fields hold are the doubles nearest to them. *)
Record SentimentResult := {
  sentiment : Category;
  score : Q;
  confidence : Q
}.

(** [Array.prototype.sort(compare)]: a stable sort, here by insertion.
    [x] is placed before the first element it does not compare greater
    than. *)
Section Sort.
Context {A : Type} (compare : A -> A -> Z).

Fixpoint insertSorted (x : A) (l : list A) : list A :=
  match l with
  | [] => [x]
  | y :: l' => if compare x y <=? 0 then x :: y :: l' else y :: insertSorted x l'
  end.

Fixpoint sort (l : list A) : list A :=
  match l with
  | [] => []
  | x :: l' => insertSorted x (sort l')
  end.
End Sort.

(** The object literal [sentimentCounts], keys in insertion order. *)
Definition noCounts : list (Category * Z) :=
  [(positive, 0); (negative, 0); (neutral, 0); (mixed, 0)].

(** [sentimentCounts[c]++] *)
Fixpoint bump (counts : list (Category * Z)) (c : Category) : list (Category * Z) :=
  match counts with
  | [] => []
  | (k, n) :: counts' =>
      if decide (k = c) then (k, n + 1) :: counts' else (k, n) :: bump counts' c
  end.

(** The state of the aggregation loop. *)
Record Totals := {
  sentimentCounts : list (Category * Z);
  totalScore : JsNum.t;
  totalConfidence : JsNum.t
}.

(** One turn of the loop; the two sums are sums of doubles. *)
Definition addResult (acc : Totals) (result : SentimentResult) : Totals :=
  {| sentimentCounts := bump (sentimentCounts acc) (sentiment result);
     totalScore := JsNum.plus (totalScore acc) (JsNum.double (score result));
     totalConfidence :=
       JsNum.plus (totalConfidence acc) (JsNum.double (confidence result)) |}.

Definition totals (results : list SentimentResult) : Totals :=
  fold_left addResult results
    {| sentimentCounts := noCounts; totalScore := JsNum.ofZ 0;
       totalConfidence := JsNum.ofZ 0 |}.

(** [Object.entries(sentimentCounts).sort((a, b) => b[1] - a[1])[0][0]] *)
Definition dominant (counts : list (Category * Z)) : option Category :=
  match sort (fun a b => snd b - snd a) counts with
  | (c, _) :: _ => Some c
  | [] => None
  end.

(** What the aggregation computes, apart from the aspect table. *)
Record Aggregate := {
  overall_sentiment : Category;
  average_score : JsNum.t;
  average_confidence : JsNum.t;
  sentiment_distribution : list (Category * Z)
}.

(** The aggregation step of [analyzeSentiment]; [None] is the early return
    on an empty result list. *)
Definition aggregate (results : list SentimentResult) : option Aggregate :=
  match results with
  | [] => None
  | _ :: _ =>
      let t := totals results in
      match dominant (sentimentCounts t) with
      | Some dominantSentiment =>
          Some {| overall_sentiment := dominantSentiment;
                  average_score :=
                    JsNum.quot (totalScore t) (JsNum.ofZ (Z.of_nat (length results)));
                  average_confidence :=
                    JsNum.quot (totalConfidence t)
                               (JsNum.ofZ (Z.of_nat (length results)));
                  sentiment_distribution := sentimentCounts t |}
      | None => None
      end
  end.

(** A neutral, a negative and a positive result, in that order. *)
Definition threeWay : list SentimentResult :=
  [ {| sentiment := neutral; score := 1 # 2; confidence := 1 # 2 |};
    {| sentiment := negative; score := 1 # 5; confidence := 9 # 10 |};
    {| sentiment := positive; score := 9 # 10; confidence := 9 # 10 |} ].

(** The number of results of category [c]. *)
Definition countOf (results : list SentimentResult) (c : Category) : Z :=
  Z.of_nat (length (filter (fun r => sentiment r = c) results)).

(** The fixed order of the categories, first wins a tie. *)
Definition rank (c : Category) : nat :=
  match c with positive => 0 | negative => 1 | neutral => 2 | mixed => 3 end.

(** *** The keyword fallback of [analyzeWithBedrock] *)

(** [s.split(/\s+/)], reading [s] with the [piece] collected so far:
    the pieces between the runs of white space, the first or the last one
    empty when [s] starts or ends with white space. *)
Fixpoint splitSpaces (s piece : string) (afterSpace : bool) : list string :=
  match s with
  | EmptyString => [piece]
  | String c s' =>
      if JsString.isSpace c then
        if afterSpace then splitSpaces s' piece true
        else piece :: splitSpaces s' EmptyString true
      else splitSpaces s' (piece ++ String c EmptyString) false
  end.

Definition positiveWords : list string :=
  ["great"; "excellent"; "amazing"; "love"; "fantastic"; "wonderful"; "best";
   "innovative"].
Definition negativeWords : list string :=
  ["bad"; "terrible"; "hate"; "awful"; "worst"; "disappointing"; "poor"; "failed"].

(** [words.filter(w => vocabulary.includes(w)).length] *)
Definition countIn (vocabulary words : list string) : Z :=
  Z.of_nat (length (filter (fun w => w ∈ vocabulary) words)).

(** The [catch] clause of [analyzeWithBedrock]: what it returns for [text]
    when the model call or the parsing of its reply fails. *)
Definition keywordFallback (text : string) : SentimentResult :=
  let words := splitSpaces (JsString.toLowerCase text) EmptyString false in
  let positiveCount := countIn positiveWords words in
  let negativeCount := countIn negativeWords words in
  let total :=
    if positiveCount + negativeCount =? 0 then 1 else positiveCount + negativeCount in
  let score := (inject_Z (positiveCount - negativeCount + total) / inject_Z (2 * total))%Q in
  {| sentiment :=
       if negb (Qle_bool score (6 # 10)) then positive
       else if negb (Qle_bool (4 # 10) score) then negative
       else if (0 <? positiveCount) && (0 <? negativeCount) then mixed
       else neutral;
     score := score;
     confidence := 7 # 10 |}.

End Sentiment.

(* ===================================================================== *)
(** ** temporal/workflows.ts : the analysis and monitoring workflows *)
(* ===================================================================== *)

Module Workflow.

(** One execution of an activity, as the workflow's proxy sees it: the
    value returned or the message of the error. *)
Inductive Attempt :=
| Returns (r : string)
| Raises (msg : string).

(** The [retry] options of [proxyActivities], intervals in milliseconds. *)
Record RetryPolicy := {
  initialInterval : Z;
  backoffCoefficient : Z;
  maximumInterval : Z;
  maximumAttempts : nat
}.

Definition retryPolicy : RetryPolicy :=
  {| initialInterval := 2000; backoffCoefficient := 2;
     maximumInterval := 60000; maximumAttempts := 5 |}.

(** The pause before retry number [k] (counting from 0). *)
Definition retryInterval (p : RetryPolicy) (k : nat) : Z :=
  Z.min (initialInterval p * backoffCoefficient p ^ Z.of_nat k) (maximumInterval p).

(** An activity call under the policy: attempt [k] and, while it raises and
    retries remain, the next one. *)
Fixpoint retry (attempts : nat -> Attempt) (k remaining : nat) : Attempt :=
  match attempts k, remaining with
  | Returns r, _ => Returns r
  | Raises msg, O => Raises msg
  | Raises _, S n => retry attempts (S k) n
  end.

Definition callActivity (attempts : nat -> Attempt) : Attempt :=
  retry attempts 0 (maximumAttempts retryPolicy - 1).

(** The data-source connectors of phases 1 and 2, by the key of their
    slot. *)
Inductive Connector :=
| twitter | reddit | bluesky | youtube | tiktok | instagram
| webGeneral | linkedin | news | techCommunity.

#[global] Instance Connector_eq_dec : EqDecision Connector := ltac:(solve_decision).

Definition slot (c : Connector) : string :=
  match c with
  | twitter => "twitter" | reddit => "reddit" | bluesky => "bluesky"
  | youtube => "youtube" | tiktok => "tiktok" | instagram => "instagram"
  | webGeneral => "webGeneral" | linkedin => "linkedin" | news => "news"
  | techCommunity => "techCommunity"
  end.

Definition socialMedia : list Connector :=
  [twitter; reddit; bluesky; youtube; tiktok; instagram].
Definition webSearch : list Connector :=
  [webGeneral; linkedin; news; techCommunity].

(** Every activity call the workflow makes. *)
Inductive Task :=
| Fetch (c : Connector)
| FounderLookup (i : nat)
| CompetitiveAnalysis
| AnalyzeSentiment
| SaveToDatabase
| GenerateSummary.

Record Founder := { name : string }.

(** [StartupAnalysisInput] *)
Record StartupAnalysisInput := {
  startupName : string;
  website : option string;
  socialAccounts : option (list (string * string));
  founders : option (list Founder);
  keywords : option (list string);
  competitors : option (list string)
}.

(** A value of [results.dataSources]: a string, or the object keyed by
    founder name. *)
Inductive SlotValue :=
| Text (s : string)
| ByFounder (m : gmap string string).

Record Results := {
  analysisId : Z;
  input : StartupAnalysisInput;
  dataSources : gmap string SlotValue;
  sentimentAnalysis : option string
}.

(** [StartupAnalysisResult]: [{ ...results, summary }] *)
Record StartupAnalysisResult := {
  results : Results;
  summary : string
}.

(** The order in which the promises of each fan-out settle. *)
Record Schedule := {
  socialOrder : list Connector;
  webOrder : list Connector;
  founderOrder : list nat
}.

Section Run.

(** What each attempt of each activity does. *)
Variable world : Task -> nat -> Attempt.

(** [`Error: ${e.message}`] *)
Definition errorString (msg : string) : string := ("Error: " ++ msg)%string.

(** The string a guarded call leaves: [.then(r => ...)] or [.catch(e => ...)]. *)
Definition outcomeText (a : Attempt) : string :=
  match a with
  | Returns r => r
  | Raises msg => errorString msg
  end.

(** One connector's promise settles and writes its slot. *)
Definition settleFetch (ds : gmap string SlotValue) (c : Connector)
    : gmap string SlotValue :=
  <[slot c := Text (outcomeText (callActivity (world (Fetch c))))]> ds.

(** [await Promise.all(promises)], the promises settling in [order]. *)
Definition fanOut (order : list Connector) (ds : gmap string SlotValue)
    : gmap string SlotValue :=
  fold_left settleFetch order ds.

(** One founder lookup settles. *)
Definition settleFounder (fs : list Founder) (ds : gmap string SlotValue) (i : nat)
    : gmap string SlotValue :=
  match fs !! i with
  | None => ds
  | Some founder =>
      let known :=
        match ds !! "founders" with
        | Some (ByFounder m) => m
        | _ => ∅
        end in
      <["founders" :=
          ByFounder (<[name founder :=
                         outcomeText (callActivity (world (FounderLookup i)))]> known)]> ds
  end.

(** Phases 3 and 4. *)
Definition founderPhase (inp : StartupAnalysisInput) (order : list nat)
    (ds : gmap string SlotValue) : gmap string SlotValue :=
  match founders inp with
  | Some (f :: fs) => fold_left (settleFounder (f :: fs)) order ds
  | _ => ds
  end.

Definition competitivePhase (inp : StartupAnalysisInput)
    (ds : gmap string SlotValue) : gmap string SlotValue :=
  match competitors inp with
  | Some (_ :: _) =>
      <["competitiveAnalysis" :=
          Text (outcomeText (callActivity (world CompetitiveAnalysis)))]> ds
  | _ => ds
  end.

(** [startupAnalysisWorkflow(input)], started at instant [now]; [inl] is the
    message of the error the workflow fails with.  The [sleep]s between
    phases do not show in the result. *)
Definition startupAnalysisWorkflow (sched : Schedule) (now : Z)
    (inp : StartupAnalysisInput) : string + StartupAnalysisResult :=
  let ds := fanOut (socialOrder sched) ∅ in
  let ds := fanOut (webOrder sched) ds in
  let ds := founderPhase inp (founderOrder sched) ds in
  let ds := competitivePhase inp ds in
  let res :=
    {| analysisId := now; input := inp; dataSources := ds;
       sentimentAnalysis :=
         Some (outcomeText (callActivity (world AnalyzeSentiment))) |} in
  match callActivity (world SaveToDatabase) with
  | Raises msg => inl msg
  | Returns _ =>
      match callActivity (world GenerateSummary) with
      | Raises msg => inl msg
      | Returns s => inr {| results := res; summary := s |}
      end
  end.

(** Every promise of every fan-out settles exactly once. *)
Definition fair (sched : Schedule) (inp : StartupAnalysisInput) : Prop :=
  socialOrder sched ≡ₚ socialMedia ∧
  webOrder sched ≡ₚ webSearch ∧
  founderOrder sched ≡ₚ seq 0 (length (default [] (founders inp))).

End Run.

(** A sample run: Reddit is down, everything else answers. *)
Definition redditDown (t : Task) (k : nat) : Attempt :=
  match t with
  | Fetch reddit => Raises "503 Service Unavailable"
  | Fetch c => Returns (slot c ++ " posts")
  | _ => Returns "ok"
  end.

Definition sampleInput : StartupAnalysisInput :=
  {| startupName := "Acme"; website := None; socialAccounts := None;
     founders := None; keywords := None; competitors := None |}.

Definition inOrder : Schedule :=
  {| socialOrder := socialMedia; webOrder := webSearch; founderOrder := [] |}.

(** A run with two founders and a competitor, the founder lookups settling
    in reverse. *)
Definition teamInput : StartupAnalysisInput :=
  {| startupName := "Acme"; website := None; socialAccounts := None;
     founders := Some [ {| name := "Ada" |}; {| name := "Grace" |} ];
     keywords := None; competitors := Some ["Initech"] |}.

Definition reversed : Schedule :=
  {| socialOrder := socialMedia; webOrder := webSearch; founderOrder := [1; 0]%nat |}.

(** *** Intervals and the monitoring workflow *)

(** The table [units] of [parseInterval]. *)
Definition units (unit : ascii) : option Z :=
  if Ascii.eqb unit "s" then Some 1000
  else if Ascii.eqb unit "m" then Some (60 * 1000)
  else if Ascii.eqb unit "h" then Some (60 * 60 * 1000)
  else if Ascii.eqb unit "d" then Some (24 * 60 * 60 * 1000)
  else None.

(** The string without its last character, and that character. *)
Fixpoint splitLast (s : string) : option (string * ascii) :=
  match s with
  | EmptyString => None
  | String c s' =>
      match splitLast s' with
      | Some (v, u) => Some (String c v, u)
      | None => Some (EmptyString, c)
      end
  end.

(** [interval.match(/^(\d+)([smhd])$/)]: the number the first group
    denotes and the factor of the second. *)
Definition matchInterval (interval : string) : option (Decimal.uint * Z) :=
  match splitLast interval with
  | Some (String d ds, unit) =>
      match NilEmpty.uint_of_string (String d ds), units unit with
      | Some value, Some factor => Some (value, factor)
      | _, _ => None
      end
  | _ => None
  end.

(** [parseInterval(interval)]; [inl] is the message of the error thrown.
    The number is the product of two doubles: the nearest to what the
    digits denote, and the unit's factor. *)
Definition parseInterval (interval : string) : string + JsNum.t :=
  match matchInterval interval with
  | Some (value, factor) =>
      inr (JsNum.times (JsNum.parseInt (N.of_uint value)) (JsNum.ofZ factor))
  | None => inl ("Invalid interval format: " ++ interval)%string
  end.

Section Monitoring.

(** What the activities do during the [i]-th analysis, the order in which
    its promises settle, and the workflow time it takes; and what [sleep]
    does with a delay that is not finite: the message of the error it
    throws, or [None] when it never returns. *)
Variable worlds : nat -> Task -> nat -> Attempt.
Variable scheds : nat -> Schedule.
Variable elapsed : nat -> Z.
Variable sleepInfinity : option string.

(** The input of every analysis the monitor runs. *)
Definition monitored (startupName : string) : StartupAnalysisInput :=
  {| startupName := startupName; website := None; socialAccounts := None;
     founders := None; keywords := None; competitors := None |}.

(** The [while] loop of [startupMonitoringWorkflow], before its [i]-th
    analysis at instant [now]: [None] when [fuel] turns do not end it,
    else the error it fails with or the number of analyses run. *)
Fixpoint monitorLoop (fuel i : nat) (now : Z) (endTime intervalMs : JsNum.t)
    (startupName : string) : option (string + nat) :=
  if JsNum.lt (JsNum.ofZ now) endTime then
    match fuel with
    | O => None
    | S fuel' =>
        match startupAnalysisWorkflow (worlds i) (scheds i) now (monitored startupName) with
        | inl msg => Some (inl msg)
        | inr _ =>
            match intervalMs with
            | JsNum.Fin ms =>
                monitorLoop fuel' (S i) (now + elapsed i + Qfloor ms) endTime intervalMs
                  startupName
            | _ =>
                match sleepInfinity with
                | Some msg => Some (inl msg)
                | None => None
                end
            end
        end
    end
  else Some (inr i).

(** The instant at which the [j]-th analysis starts, when the loop gets
    that far: each turn takes the analysis and the [sleep] after it. *)
Fixpoint startOf (j : nat) (now intervalMs : Z) : Z :=
  match j with
  | O => now
  | S j' => startOf j' now intervalMs + elapsed j' + intervalMs
  end.

(** [startupMonitoringWorkflow({ startupName, interval, duration })],
    started at instant [now]. *)
Definition startupMonitoringWorkflow (fuel : nat) (now : Z)
    (startupName interval duration : string) : option (string + nat) :=
  match parseInterval interval with
  | inl msg => Some (inl msg)
  | inr intervalMs =>
      match parseInterval duration with
      | inl msg => Some (inl msg)
      | inr durationMs =>
          monitorLoop fuel 0 now (JsNum.plus (JsNum.ofZ now) durationMs) intervalMs
            startupName
      end
  end.

End Monitoring.

(** A world in which every activity answers at once. *)
Definition allUp (i : nat) (t : Task) (k : nat) : Attempt := Returns "ok".

(** A world in which the database is down during the second analysis. *)
Definition saveBreaks (i : nat) (t : Task) (k : nat) : Attempt :=
  match t with
  | SaveToDatabase => if (i =? 1)%nat then Raises "db down" else Returns "ok"
  | _ => Returns "ok"
  end.

End Workflow.

(** ** The dashboard tool: engagement totals and insights *)

Module Dashboard.

(** [post.engagement]: each count a number or missing. *)
Record Engagement := {
  likes : option Z;
  shares : option Z;
  comments : option Z
}.

(** The fields of a stored post that the dashboard reads. *)
Record Post := {
  platform : option string;
  engagement : option Engagement
}.

(** [count || 0] *)
Definition orZero (count : option Z) : Z := default 0 count.

(** The accumulator of [calculateTotalEngagement]. *)
Record Totals := {
  totalLikes : Z;
  totalShares : Z;
  totalComments : Z;
  total : Z
}.

Definition addEngagement (acc : Totals) (post : Post) : Totals :=
  match engagement post with
  | Some e =>
      {| totalLikes := totalLikes acc + orZero (likes e);
         totalShares := totalShares acc + orZero (shares e);
         totalComments := totalComments acc + orZero (comments e);
         total := total acc +
                  (orZero (likes e) + orZero (shares e) + orZero (comments e)) |}
  | None => acc
  end.

(** [calculateTotalEngagement(posts)] *)
Definition calculateTotalEngagement (posts : list Post) : Totals :=
  fold_left addEngagement posts
    {| totalLikes := 0; totalShares := 0; totalComments := 0; total := 0 |}.

(** The bullet that starts every insight, U+2022. *)
Definition bullet : string :=
  String (ascii_of_nat 226) (String (ascii_of_nat 128) (String (ascii_of_nat 162) EmptyString)).

Definition highEngagement : string :=
  (bullet ++ " High social media engagement indicates strong market interest")%string.
Definition lowEngagement : string :=
  (bullet ++ " Low engagement suggests need for improved social media strategy")%string.
Definition positivePerception : string :=
  (bullet ++ " Positive sentiment indicates favorable market perception")%string.
Definition negativePerception : string :=
  (bullet ++ " Negative sentiment requires immediate attention and response strategy")%string.
Definition highVolume : string :=
  (bullet ++ " High volume of mentions suggests growing brand awareness")%string.
Definition goodPresence : string :=
  (bullet ++ " Good multi-platform presence enhances reach")%string.
Definition morePlatforms : string :=
  (bullet ++ " Consider expanding to more social media platforms")%string.
Definition keepMonitoring : string :=
  (bullet ++ " Continue monitoring for trend analysis")%string.

(** [new Set(socialPosts.map(p => p.platform)).size] *)
Definition platformCount (socialPosts : list Post) : nat :=
  length (remove_dups (map platform socialPosts)).

(** The lines [generateInsights] collects, given the [overall_sentiment]
    of each stored analysis. *)
Definition insights (socialPosts : list Post) (sentimentAnalyses : list string)
    : list string :=
  let count := Z.of_nat (length socialPosts) in
  let avgEngagement :=
    if 0 <? count
    then (inject_Z (total (calculateTotalEngagement socialPosts)) / inject_Z count)%Q
    else 0%Q in
  (if negb (Qle_bool avgEngagement 100) then [highEngagement]
   else if negb (Qle_bool 10 avgEngagement) && (10 <? count) then [lowEngagement]
   else []) ++
  match last sentimentAnalyses with
  | Some latest =>
      if String.eqb latest "positive" then [positivePerception]
      else if String.eqb latest "negative" then [negativePerception]
      else []
  | None => []
  end ++
  (if 50 <? count then [highVolume] else []) ++
  (if (3 <=? platformCount socialPosts)%nat then [goodPresence] else [morePlatforms]).

(** [generateInsights(socialPosts, sentimentAnalyses, webSearchResults)];
    the third argument is not read. *)
Definition generateInsights (socialPosts : list Post) (sentimentAnalyses : list string)
    : string :=
  let joined :=
    JsString.join (String (ascii_of_nat 10) EmptyString)
                  (insights socialPosts sentimentAnalyses) in
  if String.eqb joined EmptyString then keepMonitoring else joined.

End Dashboard.

(** ** temporal/activities.ts : the executive summary of [generateSummary]

    The lines of the summary that are computed from the data sources and
    from the sentiment text. *)

Module Summary.
Import Workflow.

(** [typeof value === 'string' && !value.startsWith('Error:')] *)
Definition collected (value : SlotValue) : bool :=
  match value with
  | Text s => negb (JsString.startsWith s "Error:")
  | ByFounder _ => false
  end.

(** [successfulSources] *)
Definition successfulSources (dataSources : gmap string SlotValue) : nat :=
  length (filter (fun kv => collected (snd kv) = true) (map_to_list dataSources)).

(** [Object.keys(dataSources).filter(k => ['twitter', 'bluesky',
    'youtube'].includes(k)).length] *)
Definition activePlatforms (dataSources : gmap string SlotValue) : nat :=
  length (filter (fun kv => fst kv ∈ ["twitter"; "bluesky"; "youtube"]%string)
                 (map_to_list dataSources)).

(** The truthiness of [dataSources.news] and [dataSources.techCommunity]. *)
Definition present (value : option SlotValue) : bool :=
  match value with
  | Some (Text s) => negb (String.eqb s EmptyString)
  | Some (ByFounder _) => true
  | None => false
  end.

Definition newsCoverage (dataSources : gmap string SlotValue) : string :=
  if present (dataSources !! "news") then "Found recent news articles"
  else "Limited news coverage".

Definition techCommunityPresence (dataSources : gmap string SlotValue) : string :=
  if present (dataSources !! "techCommunity") then "Discussed in tech forums"
  else "Limited tech community presence".

(** The section on sentiment: the text itself, unless it is missing, empty
    or an error string. *)
Definition sentimentSection (sentimentAnalysis : option string) : string :=
  match sentimentAnalysis with
  | Some s =>
      if negb (String.eqb s EmptyString) && negb (JsString.startsWith s "Error:")
      then s
      else ("Sentiment analysis pending or failed." ++ String (ascii_of_nat 10) EmptyString)%string
  | None =>
      ("Sentiment analysis pending or failed." ++ String (ascii_of_nat 10) EmptyString)%string
  end.

(** A world in which every connector and the competitive search are down
    for good, and everything else answers. *)
Definition connectorsDown (t : Task) (k : nat) : Attempt :=
  match t with
  | Fetch _ | CompetitiveAnalysis => Raises "ECONNREFUSED"
  | _ => Returns "ok"
  end.

End Summary.

(* ===================================================================== *)
(** * Properties *)
(* ===================================================================== *)

(** ** The cache *)

Section CacheFacts.
Context {T : Type}.
Implicit Types (c : SimpleCache.t T) (k : string) (v : T).

Lemma cache_lookup_set c now k v ttl :
  SimpleCache.cache (SimpleCache.set c now k v ttl) !! k =
  Some {| SimpleCache.value := v;
          SimpleCache.expiry :=
            now + SimpleCache.ttl_or_default ttl (SimpleCache.defaultTTL c / 1000) * 1000 |}.
Proof. unfold SimpleCache.set; simpl. apply lookup_insert_eq. Qed.

(** No operation changes the default TTL of an instance. *)
Lemma cache_defaultTTL_set c now k v ttl :
  SimpleCache.defaultTTL (SimpleCache.set c now k v ttl) = SimpleCache.defaultTTL c.
Proof. reflexivity. Qed.

Lemma cache_defaultTTL_get c now k :
  SimpleCache.defaultTTL (snd (SimpleCache.get c now k)) = SimpleCache.defaultTTL c.
Proof.
  unfold SimpleCache.get.
  destruct (SimpleCache.cache c !! k); [destruct (_ >? _)|]; reflexivity.
Qed.

(** A read inside the window returns the stored value and changes nothing. *)
Lemma cache_get_set_live c now k v ttl e :
  e <= SimpleCache.ttl_or_default ttl (SimpleCache.defaultTTL c / 1000) * 1000 →
  SimpleCache.get (SimpleCache.set c now k v ttl) (now + e) k =
    (Some v, SimpleCache.set c now k v ttl).
Proof.
  intros He. unfold SimpleCache.get. rewrite cache_lookup_set.
  cbn [SimpleCache.expiry SimpleCache.value].
  destruct (Z.gtb_spec (now + e)
     (now + SimpleCache.ttl_or_default ttl (SimpleCache.defaultTTL c / 1000) * 1000));
    [lia | done].
Qed.

(** A read after the window returns absent and deletes the entry. *)
Lemma cache_get_set_expired c now k v ttl e :
  SimpleCache.ttl_or_default ttl (SimpleCache.defaultTTL c / 1000) * 1000 < e →
  SimpleCache.get (SimpleCache.set c now k v ttl) (now + e) k =
    (None, SimpleCache.delete c k).
Proof.
  intros He. unfold SimpleCache.get. rewrite cache_lookup_set.
  cbn [SimpleCache.expiry SimpleCache.value].
  destruct (Z.gtb_spec (now + e)
     (now + SimpleCache.ttl_or_default ttl (SimpleCache.defaultTTL c / 1000) * 1000));
    [| lia].
  f_equal. unfold SimpleCache.set, SimpleCache.delete; simpl. f_equal.
  apply delete_insert_eq.
Qed.

(** C4, as the code has it.  For a positive TTL, a [get] at any instant up
    to and including the expiry instant [now + ttl] returns the value, in
    particular immediately after the [set]; a [get] strictly later returns
    absent and evicts the entry. *)
Theorem cache_set_then_get c now k v ttl (Hpos : 0 < ttl) :
  SimpleCache.read (SimpleCache.set c now k v (Some ttl)) now k = Some v ∧
  (∀ e, 0 <= e <= ttl * 1000 →
        SimpleCache.get (SimpleCache.set c now k v (Some ttl)) (now + e) k =
          (Some v, SimpleCache.set c now k v (Some ttl))) ∧
  (∀ e, ttl * 1000 < e →
        SimpleCache.get (SimpleCache.set c now k v (Some ttl)) (now + e) k =
          (None, SimpleCache.delete c k)).
Proof.
  assert (Httl : SimpleCache.ttl_or_default (Some ttl) (SimpleCache.defaultTTL c / 1000) = ttl).
  { unfold SimpleCache.ttl_or_default. destruct (Z.eqb_spec ttl 0); [lia | done]. }
  split; [| split].
  - unfold SimpleCache.read. replace now with (now + 0) at 2 by lia.
    rewrite cache_get_set_live; [done | rewrite Httl; lia].
  - intros e He. apply cache_get_set_live. rewrite Httl. lia.
  - intros e He. apply cache_get_set_expired. rewrite Httl. lia.
Qed.

(** C10.  An explicit TTL of zero is treated as no TTL at all: the entry
    gets the default TTL of the instance, and [get] returns the value during
    the whole default window after the [set]. *)
Theorem cache_zero_ttl_is_default c d now k v
    (Hdefault : SimpleCache.defaultTTL c = d * 1000) :
  SimpleCache.set c now k v (Some 0) = SimpleCache.set c now k v None ∧
  SimpleCache.cache (SimpleCache.set c now k v (Some 0)) !! k =
    Some {| SimpleCache.value := v; SimpleCache.expiry := now + d * 1000 |} ∧
  (∀ e, 0 <= e <= d * 1000 →
        SimpleCache.read (SimpleCache.set c now k v (Some 0)) (now + e) k = Some v).
Proof.
  assert (Hd : SimpleCache.ttl_or_default (Some 0) (SimpleCache.defaultTTL c / 1000) = d).
  { unfold SimpleCache.ttl_or_default; simpl. rewrite Hdefault. apply Z.div_mul. lia. }
  split; [| split].
  - reflexivity.
  - rewrite cache_lookup_set, Hd. reflexivity.
  - intros e He. unfold SimpleCache.read.
    rewrite cache_get_set_live; [done | rewrite Hd; lia].
Qed.

End CacheFacts.

(** C4 as the design document words it fails at the boundary: one second
    after a [set] with a TTL of one second the entry is still served.  It
    also fails off the positive TTLs: with a TTL of zero the entry outlives
    any elapsed time within the default window, and with a negative TTL the
    immediate [get] already returns absent. *)
Lemma cache_boundary_still_served :
  ¬ SimpleCache.expires_at_ttl (SimpleCache.new 300) 0 "k" 7 1 1000 ∧
  ¬ SimpleCache.expires_at_ttl (SimpleCache.new 300) 0 "k" 7 0 1 ∧
  ¬ SimpleCache.expires_at_ttl (SimpleCache.new 300) 0 "k" 7 (-1) 0.
Proof.
  split; [| split].
  - intros [_ H]. specialize (H ltac:(lia)). vm_compute in H. discriminate.
  - intros [_ H]. specialize (H ltac:(lia)). vm_compute in H. discriminate.
  - intros [H _]. vm_compute in H. discriminate.
Qed.

Lemma cache_set_then_get_witness :
  0 < 600 ∧
  SimpleCache.read
    (SimpleCache.set (@SimpleCache.sentimentCache Z) 5 "k" 7 (Some 600)) 5 "k" = Some 7.
Proof.
  split; [lia |].
  apply (cache_set_then_get (@SimpleCache.sentimentCache Z) 5 "k" 7 600). lia.
Defined.

Lemma cache_zero_ttl_is_default_witness :
  SimpleCache.defaultTTL (@SimpleCache.sentimentCache Z) = 600 * 1000 ∧
  ∀ e, 0 <= e <= 600 * 1000 →
       SimpleCache.read
         (SimpleCache.set (@SimpleCache.sentimentCache Z) 5 "k" 7 (Some 0)) (5 + e) "k"
       = Some 7.
Proof.
  split; [reflexivity |].
  apply (cache_zero_ttl_is_default (@SimpleCache.sentimentCache Z) 600 5 "k" 7).
  reflexivity.
Defined.

(** ** Ordered maps *)

Section JsMapFacts.
Context {V : Type}.
Implicit Types (m : list (string * V)) (k : string) (v : V).

Lemma jsmap_get_set_eq m k v : JsMap.get (JsMap.set m k v) k = Some v.
Proof.
  induction m as [| [k' v'] m IH]; simpl.
  - rewrite String.eqb_refl. reflexivity.
  - destruct (String.eqb_spec k' k) as [-> | Hne]; simpl.
    + rewrite String.eqb_refl. reflexivity.
    + destruct (String.eqb_spec k' k); [contradiction | exact IH].
Qed.

Lemma jsmap_get_set_ne m k k' v :
  k ≠ k' → JsMap.get (JsMap.set m k v) k' = JsMap.get m k'.
Proof.
  intros Hne. induction m as [| [k0 v0] m IH]; simpl.
  - destruct (String.eqb_spec k k'); [contradiction | reflexivity].
  - destruct (String.eqb_spec k0 k) as [-> | Hk]; simpl.
    + destruct (String.eqb_spec k k'); [contradiction | reflexivity].
    + rewrite IH. reflexivity.
Qed.

Lemma jsmap_keys_set_present m k v :
  is_Some (JsMap.get m k) → JsMap.keys (JsMap.set m k v) = JsMap.keys m.
Proof.
  unfold JsMap.keys. induction m as [| [k' v'] m IH]; simpl.
  - intros [? [=]].
  - destruct (String.eqb_spec k' k); simpl; [reflexivity |].
    intros H. rewrite IH; done.
Qed.

Lemma jsmap_get_In m k v : JsMap.get m k = Some v → (k, v) ∈ m.
Proof.
  induction m as [| [k' v'] m IH]; simpl; [discriminate |].
  destruct (String.eqb_spec k' k) as [-> | _].
  - intros [= ->]. left.
  - intros H. right. auto.
Qed.

Lemma jsmap_In_get m k v :
  NoDup (JsMap.keys m) → (k, v) ∈ m → JsMap.get m k = Some v.
Proof.
  unfold JsMap.keys. induction m as [| [k' v'] m IH]; simpl.
  - intros _ H. inversion H.
  - intros Hnd Hin. apply NoDup_cons in Hnd as [Hk' Hnd].
    destruct (String.eqb_spec k' k) as [-> | Hne].
    + apply elem_of_cons in Hin as [[= ->] | Hin]; [reflexivity |].
      exfalso. apply Hk'. apply list_elem_of_fmap. exists (k, v). done.
    + apply elem_of_cons in Hin as [[= -> ->] | Hin]; [contradiction | auto].
Qed.

Lemma jsmap_keys_set_NoDup m k v :
  NoDup (JsMap.keys m) → NoDup (JsMap.keys (JsMap.set m k v)).
Proof.
  unfold JsMap.keys. induction m as [| [k' v'] m IH]; simpl.
  - intros _. apply NoDup_singleton.
  - intros Hnd. apply NoDup_cons in Hnd as [Hk' Hnd].
    destruct (String.eqb_spec k' k) as [-> | Hne]; simpl.
    + apply NoDup_cons. done.
    + apply NoDup_cons. split; [| auto].
      intros Hin. apply list_elem_of_fmap in Hin as [[k0 v0] [Heq Hin]].
      simpl in Heq. subst k0.
      destruct (decide (k' = k)); [contradiction |].
      apply Hk'. apply list_elem_of_fmap. exists (k', v0). split; [done |].
      apply jsmap_get_In.
      apply (jsmap_In_get _ _ _ (IH Hnd)) in Hin.
      rewrite jsmap_get_set_ne in Hin by done.
      (* the entry found in the updated map is an entry of [m] *)
      clear -Hin. induction m as [| [a b] m IHm]; simpl in *; [discriminate |].
      destruct (String.eqb a k'); [done | auto].
Qed.

Lemma jsmap_Forall_set (P : string * V → Prop) m k v :
  (∀ k', P (k', v)) → Forall P m → Forall P (JsMap.set m k v).
Proof.
  intros Hv. induction m as [| [k' v'] m IH]; simpl; intros H.
  - constructor; [apply Hv | constructor].
  - apply Forall_cons in H as [H1 H2].
    destruct (String.eqb k' k); constructor; auto.
Qed.

Lemma jsmap_get_map (f : V → V) m k :
  JsMap.get (map (fun kv => (fst kv, f (snd kv))) m) k = option_map f (JsMap.get m k).
Proof.
  induction m as [| [k' v'] m IH]; simpl; [reflexivity |].
  destruct (String.eqb k' k); [reflexivity | exact IH].
Qed.

Lemma jsmap_keys_map (f : V → V) m :
  JsMap.keys (map (fun kv => (fst kv, f (snd kv))) m) = JsMap.keys m.
Proof.
  unfold JsMap.keys. induction m as [| [k' v'] m IH]; simpl; [reflexivity |].
  f_equal. exact IH.
Qed.

End JsMapFacts.

(** ** The provider rotator *)

Section RotatorFacts.
Import ModelRotator.
Implicit Types (r : ModelRotator.t) (id : string) (st : ModelStats).

Lemma rot_stats_record_same r id st success now :
  stats_of r id = Some st →
  stats_of (recordRequest r id success now) id = Some (record st success now).
Proof.
  unfold stats_of, recordRequest. intros ->. simpl. apply jsmap_get_set_eq.
Qed.

Lemma rot_stats_record_other r m id success now :
  m ≠ id → stats_of (recordRequest r m success now) id = stats_of r id.
Proof.
  unfold stats_of, recordRequest. intros Hne.
  destruct (JsMap.get (models r) m); simpl; [| reflexivity].
  apply jsmap_get_set_ne. exact Hne.
Qed.

Lemma rot_stats_decay r id :
  stats_of (decayTick r) id = option_map decay (stats_of r id).
Proof. unfold stats_of, decayTick; simpl. apply jsmap_get_map. Qed.

Lemma rot_decay_clears st :
  (recentErrors st <= 1)%Q → isAvailable (decay st) = true.
Proof.
  intros H. unfold decay; simpl.
  destruct (Qeq_bool (Qmax 0 (recentErrors st - 1)) 0) eqn:E; [reflexivity |].
  apply Qeq_bool_neq in E. exfalso. apply E. apply Q.max_l. lra.
Qed.

Lemma rot_decay_keeps st : isAvailable st = true → isAvailable (decay st) = true.
Proof. intros H. unfold decay; simpl. rewrite H. destruct (Qeq_bool _ _); reflexivity. Qed.

Lemma rot_relief_pos id es q : relief id es = Some q → (1 <= q)%Q.
Proof.
  revert q. induction es as [| e es IH]; simpl; [discriminate |].
  intros q. destruct (relief id es) as [q' |].
  - intros [= <-]. specialize (IH q' eq_refl).
    destruct (is_tick e); [lra |]. destruct (is_success_of id e); lra.
  - destruct (is_tick e); [| discriminate]. intros [= <-]. lra.
Qed.

(** What one event that is not a failure of [id] does to its statistics. *)
Lemma rot_step_stats r id st e :
  stats_of r id = Some st → is_failure_of id e = false →
  ∃ st', stats_of (step r e) id = Some st' ∧
         (isAvailable st = true → isAvailable st' = true) ∧
         recentErrors st' =
           (if is_tick e then Qmax 0 (recentErrors st - 1)
            else if is_success_of id e then Qmax 0 (recentErrors st - (1 # 2))
            else recentErrors st)%Q ∧
         (is_tick e = true → st' = decay st).
Proof.
  intros Hst Hnf. destruct e as [m success now |]; simpl in *.
  - destruct (String.eqb_spec m id) as [-> | Hne].
    + destruct success; [| discriminate].
      exists (record st true now). rewrite (rot_stats_record_same _ _ _ _ _ Hst).
      simpl. repeat split; auto; discriminate.
    + exists st. rewrite rot_stats_record_other by done.
      destruct success; repeat split; auto; discriminate.
  - exists (decay st). rewrite rot_stats_decay, Hst. simpl.
    repeat split; auto. apply rot_decay_keeps.
Qed.

(** Recovery.  Without further failures of [id], a provider that is
    available stays so, and one that is not becomes available at the last
    decay tick provided ticks and successes up to it cover its count. *)
Lemma rot_recover es : ∀ r id st,
  stats_of r id = Some st →
  Forall (fun e => is_failure_of id e = false) es →
  isAvailable st = true ∨ (∃ q, relief id es = Some q ∧ (recentErrors st <= q)%Q) →
  available (run r es) id = true.
Proof.
  induction es as [| e es IH]; intros r id st Hst Hnf Hor.
  - simpl. unfold available. rewrite Hst.
    destruct Hor as [H | [q [[=] _]]]. exact H.
  - apply Forall_cons in Hnf as [He Hnf].
    destruct (rot_step_stats r id st e Hst He) as (st' & Hst' & Hav & Hre & Hdecay).
    simpl. apply (IH (step r e) id st' Hst' Hnf).
    destruct Hor as [H | [q [Hq Hle]]]; [left; auto |].
    simpl in Hq. destruct (relief id es) as [q' |] eqn:Hrel.
    + right. exists q'. split; [reflexivity |].
      injection Hq as <-. pose proof (rot_relief_pos _ _ _ Hrel) as Hpos.
      rewrite Hre. destruct (is_tick e); [apply Q.max_lub; lra |].
      destruct (is_success_of id e); [apply Q.max_lub; lra | lra].
    + left. destruct (is_tick e) eqn:Htick; [| discriminate].
      injection Hq as <-. rewrite (Hdecay eq_refl). apply rot_decay_clears. exact Hle.
Qed.

Lemma rot_relief_ticks_aux id es :
  match relief id es with
  | Some q => (inject_Z (Z.of_nat (ticks es)) <= q)%Q
  | None => ticks es = 0%nat
  end.
Proof.
  induction es as [| e es IH]; simpl; [reflexivity |].
  destruct (relief id es) as [q |]; destruct (is_tick e).
  - rewrite Nat2Z.inj_add, inject_Z_plus.
    change (inject_Z (Z.of_nat 1)) with 1%Q. lra.
  - simpl. destruct (is_success_of id e); lra.
  - rewrite IH. apply Qle_refl.
  - exact IH.
Qed.

Lemma rot_relief_ticks id es :
  (1 ≤ ticks es)%nat →
  ∃ q, relief id es = Some q ∧ (inject_Z (Z.of_nat (ticks es)) <= q)%Q.
Proof.
  intros H. pose proof (rot_relief_ticks_aux id es) as Haux.
  destruct (relief id es) as [q |]; [eauto | lia].
Qed.

(** The statistics of [id] after three consecutive failures. *)
Lemma rot_failThrice_stats r id st t1 t2 t3 :
  stats_of r id = Some st →
  ∃ st3, stats_of (failThrice r id t1 t2 t3) id = Some st3 ∧
         (recentErrors st3 == recentErrors st + 3)%Q ∧
         ((0 <= recentErrors st)%Q → isAvailable st3 = false).
Proof.
  intros Hst. unfold failThrice.
  pose proof (rot_stats_record_same _ _ _ false t1 Hst) as H1.
  pose proof (rot_stats_record_same _ _ _ false t2 H1) as H2.
  pose proof (rot_stats_record_same _ _ _ false t3 H2) as H3.
  eexists. split; [exact H3 |]. split.
  - simpl. ring.
  - intros Hnn. simpl.
    destruct (Qle_bool 3 (recentErrors st + 1 + 1 + 1)) eqn:E; [reflexivity |].
    exfalso. assert (Qle_bool 3 (recentErrors st + 1 + 1 + 1) = true) as E'.
    { apply Qle_bool_iff. lra. }
    congruence.
Qed.

Lemma rot_stats_failThrice_other r id alt t1 t2 t3 :
  id ≠ alt → stats_of (failThrice r id t1 t2 t3) alt = stats_of r alt.
Proof.
  intros Hne. unfold failThrice. rewrite !rot_stats_record_other; done.
Qed.

(** The scanning loop only hands out a provider that qualifies. *)
Lemma rot_scan_qualifies r now offs model next :
  scan r now offs = Some (model, next) →
  ∃ st, stats_of r model = Some st ∧ qualifies st now = true.
Proof.
  induction offs as [| i offs IH]; simpl; [discriminate |].
  destruct (modelList r !! _) as [m |]; [| discriminate].
  destruct (JsMap.get (models r) m) as [st |] eqn:Hget; [| discriminate].
  destruct (qualifies st now) eqn:Hq.
  - intros [= <- _]. exists st. split; assumption.
  - exact IH.
Qed.

(** The fallback loop keeps the entry seen so far with the least count. *)
Lemma rot_pick_leastOf acc seen kv :
  leastOf acc seen → leastOf (pick acc kv) (seen ++ [kv]).
Proof.
  unfold leastOf, pick. destruct acc as [k0 [m |]]; simpl.
  - intros (k & st & -> & Hin & <- & Hmin).
    destruct (Qle_bool (recentErrors st) (recentErrors (snd kv))) eqn:E; simpl.
    + apply Qle_bool_iff in E. exists k, st. repeat split; auto.
      * apply elem_of_app. left. exact Hin.
      * intros kv' [H | H%list_elem_of_singleton]%elem_of_app; [auto | subst; exact E].
    + assert (recentErrors (snd kv) < recentErrors st)%Q as Hlt.
      { apply Qnot_le_lt. intros H. apply Qle_bool_iff in H. congruence. }
      exists (fst kv), (snd kv). repeat split.
      * apply elem_of_app. right. apply list_elem_of_singleton. destruct kv; reflexivity.
      * intros kv' [H | H%list_elem_of_singleton]%elem_of_app.
        -- specialize (Hmin _ H). lra.
        -- subst. apply Qle_refl.
  - intros ->. exists (fst kv), (snd kv). simpl. repeat split.
    + apply list_elem_of_singleton. destruct kv; reflexivity.
    + intros kv' H%list_elem_of_singleton. subst. apply Qle_refl.
Qed.

Lemma rot_fold_pick_leastOf ms : ∀ acc seen,
  leastOf acc seen → leastOf (fold_left pick ms acc) (seen ++ ms).
Proof.
  induction ms as [| kv ms IH]; intros acc seen H; simpl.
  - rewrite app_nil_r. exact H.
  - replace (seen ++ kv :: ms) with ((seen ++ [kv]) ++ ms)
      by (rewrite <- app_assoc; reflexivity).
    apply IH. apply rot_pick_leastOf. exact H.
Qed.

(** The fallback of [getNextModel]: a key of the map with the least count. *)
Lemma rot_leastErrors_spec r :
  models r ≠ [] →
  ∃ k st, leastErrors r = Some k ∧ (k, st) ∈ models r ∧
          ∀ kv, kv ∈ models r → (recentErrors st <= recentErrors (snd kv))%Q.
Proof.
  intros Hne. unfold leastErrors.
  pose proof (rot_fold_pick_leastOf (models r) (modelList r !! 0%nat, None) [] eq_refl) as H.
  simpl in H. unfold leastOf in H.
  destruct (fold_left pick (models r) (modelList r !! 0%nat, None)) as [k [q |]]; simpl in *.
  - destruct H as (k' & st & -> & Hin & <- & Hmin). eauto.
  - contradiction.
Qed.

Lemma rot_fold_pick_is_Some ms : ∀ acc,
  is_Some (fst acc) → is_Some (fst (fold_left pick ms acc)).
Proof.
  induction ms as [| kv ms IH]; intros acc H; simpl; [exact H |].
  apply IH. unfold pick. destruct (snd acc); [| simpl; eauto].
  destruct (negb _); simpl; eauto.
Qed.

(** A rotator built from a non-empty list always hands out a provider. *)
Lemma rot_getNextModel_is_Some r now :
  ready r → is_Some (fst (getNextModel r now)).
Proof.
  intros [Hne _]. unfold getNextModel.
  destruct (scan r now _) as [[model next] |]; simpl; [eauto |].
  unfold leastErrors. apply rot_fold_pick_is_Some. simpl.
  destruct (modelList r); [contradiction | simpl; eauto].
Qed.

Lemma rot_keys_record r m success now :
  JsMap.keys (models (recordRequest r m success now)) = JsMap.keys (models r).
Proof.
  unfold recordRequest. destruct (JsMap.get (models r) m) eqn:E; [| reflexivity].
  simpl. apply jsmap_keys_set_present. rewrite E. eauto.
Qed.

Lemma rot_record_nonneg st success now :
  (0 <= recentErrors st)%Q → (0 <= recentErrors (record st success now))%Q.
Proof.
  intros H. unfold record. destruct success; simpl; [apply Q.le_max_l | lra].
Qed.

(** [wf] holds of a new rotator and survives every event. *)
Lemma rot_wf_new names : wf (new names).
Proof.
  unfold wf, new; simpl.
  assert (∀ acc, NoDup (JsMap.keys acc) ∧
                 Forall (fun kv => (0 <= recentErrors (snd kv))%Q) acc →
          NoDup (JsMap.keys (fold_left (fun m name => JsMap.set m name fresh) names acc)) ∧
          Forall (fun kv => (0 <= recentErrors (snd kv))%Q)
                 (fold_left (fun m name => JsMap.set m name fresh) names acc)) as H.
  { induction names as [| n names IH]; intros acc [H1 H2]; simpl; [done |].
    apply IH. split; [apply jsmap_keys_set_NoDup; exact H1 |].
    apply jsmap_Forall_set; [intros; simpl; apply Qle_refl | exact H2]. }
  apply H. split; [apply NoDup_nil_2 | constructor].
Qed.

Lemma rot_wf_step r e : wf r → wf (step r e).
Proof.
  intros [Hnd Hnn]. destruct e as [m success now |]; simpl; split.
  - rewrite rot_keys_record. exact Hnd.
  - unfold recordRequest. destruct (JsMap.get (models r) m) as [st |] eqn:E; [| exact Hnn].
    simpl. apply jsmap_Forall_set; [| exact Hnn].
    intros k'. simpl. apply rot_record_nonneg.
    apply jsmap_get_In in E. rewrite Forall_forall in Hnn. apply (Hnn _ E).
  - unfold decayTick; simpl. rewrite jsmap_keys_map. exact Hnd.
  - unfold decayTick; simpl. apply Forall_fmap. eapply Forall_impl; [exact Hnn |].
    intros kv _. simpl. apply Q.le_max_l.
Qed.

Lemma rot_wf_failThrice r id t1 t2 t3 : wf r → wf (failThrice r id t1 t2 t3).
Proof.
  intros H. unfold failThrice.
  apply (rot_wf_step _ (Recorded id false t3)).
  apply (rot_wf_step _ (Recorded id false t2)).
  apply (rot_wf_step _ (Recorded id false t1)). exact H.
Qed.

Lemma rot_ready_new names : names ≠ [] → ready (new names).
Proof.
  intros Hne. split; [exact Hne |]. unfold stats_of, new; simpl.
  assert (∀ acc m, m ∈ names ∨ is_Some (JsMap.get acc m) →
          is_Some (JsMap.get (fold_left (fun a name => JsMap.set a name fresh) names acc) m))
    as H.
  { clear Hne. induction names as [| n names IH]; intros acc m Hm; simpl.
    - destruct Hm as [Hm | Hm]; [inversion Hm | exact Hm].
    - apply IH. destruct Hm as [[-> | Hm]%elem_of_cons | Hm]; [| left; exact Hm |].
      + right. rewrite jsmap_get_set_eq. eauto.
      + right. destruct (decide (n = m)) as [-> | Hnm].
        * rewrite jsmap_get_set_eq. eauto.
        * rewrite jsmap_get_set_ne by done. exact Hm. }
  intros m Hm. apply H. left. exact Hm.
Qed.

Lemma rot_ready_step r e : ready r → ready (step r e).
Proof.
  intros [Hne Hall]. destruct e as [m success now |]; simpl.
  - split.
    + unfold recordRequest. destruct (JsMap.get (models r) m); exact Hne.
    + intros m' Hm'.
      assert (m' ∈ modelList r) as Hin.
      { unfold recordRequest in Hm'. destruct (JsMap.get (models r) m); exact Hm'. }
      destruct (Hall m' Hin) as [st Hst].
      destruct (decide (m = m')) as [-> | Hmm].
      * rewrite (rot_stats_record_same _ _ _ _ _ Hst). eauto.
      * rewrite rot_stats_record_other by done. eauto.
  - split; [exact Hne |]. intros m' Hm'. rewrite rot_stats_decay.
    destruct (Hall m' Hm') as [st ->]. simpl. eauto.
Qed.

Lemma rot_relief_successes_then_tick id t m :
  ∃ q, relief id (repeat (Recorded id true t) m ++ [DecayTick]) = Some q ∧
       (q == inject_Z (Z.of_nat m) / 2 + 1)%Q.
Proof.
  induction m as [| m IH].
  - exists 1%Q. split; reflexivity.
  - destruct IH as (q & Hq & Heq).
    change (repeat (Recorded id true t) (S m) ++ [DecayTick])
      with (Recorded id true t :: (repeat (Recorded id true t) m ++ [DecayTick])).
    simpl relief. rewrite Hq. simpl. rewrite String.eqb_refl.
    eexists. split; [reflexivity |].
    rewrite Heq. rewrite Nat2Z.inj_succ, <- Z.add_1_r, inject_Z_plus.
    change (inject_Z 1) with 1%Q. field.
Qed.

Lemma rot_no_failure_repeat_ticks id n :
  Forall (fun e => is_failure_of id e = false) (repeat DecayTick n).
Proof. apply Forall_forall. intros e He%list_elem_of_In%repeat_spec. subst. reflexivity. Qed.

Lemma rot_ticks_repeat n : ticks (repeat DecayTick n) = n.
Proof. induction n; simpl; congruence. Qed.

(** C5, as the code has it.  A recorded success lowers the provider's
    [recentErrors] by 0.5, floored at 0, and leaves its availability flag
    as it is.  The decay tick lowers every provider's [recentErrors] by 1,
    floored at 0, and raises the flag when the result is 0.  So, absent
    further errors of the provider, the flag is back to true once at least
    one tick and as many ticks as its count have passed: no lockout is
    permanent. *)
Theorem rotator_success_and_decay r id st (Hst : stats_of r id = Some st) :
  (∀ now, stats_of (recordRequest r id true now) id =
          Some {| requestCount := requestCount st + 1;
                  lastRequestTime := now;
                  recentErrors := Qmax 0 (recentErrors st - (1 # 2));
                  isAvailable := isAvailable st |}) ∧
  stats_of (decayTick r) id =
    Some {| requestCount := requestCount st;
            lastRequestTime := lastRequestTime st;
            recentErrors := Qmax 0 (recentErrors st - 1);
            isAvailable :=
              if Qeq_bool (Qmax 0 (recentErrors st - 1)) 0 then true
              else isAvailable st |} ∧
  (∀ es, Forall (fun e => is_failure_of id e = false) es →
         (1 ≤ ticks es)%nat →
         (recentErrors st <= inject_Z (Z.of_nat (ticks es)))%Q →
         available (run r es) id = true).
Proof.
  split; [| split].
  - intros now. rewrite (rot_stats_record_same _ _ _ _ _ Hst). reflexivity.
  - rewrite rot_stats_decay, Hst. reflexivity.
  - intros es Hnf Hticks Hle.
    apply (rot_recover es r id st Hst Hnf). right.
    destruct (rot_relief_ticks id es Hticks) as (q & Hq & Hge).
    exists q. split; [exact Hq | lra].
Qed.

Lemma rot_wf_run es : ∀ r, wf r → wf (run r es).
Proof.
  induction es as [| e es IH]; intros r H; simpl; [exact H |].
  apply IH, rot_wf_step, H.
Qed.

(** While no tick and no success of its own lowers the count, a
    quarantined provider stays unavailable with a count of 3 or more. *)
Lemma rot_quarantine_persists id es : ∀ r st,
  stats_of r id = Some st → isAvailable st = false → (3 <= recentErrors st)%Q →
  Forall (fun e => keepsCount id e = true) es →
  ∃ st', stats_of (run r es) id = Some st' ∧ isAvailable st' = false ∧
         (3 <= recentErrors st')%Q.
Proof.
  induction es as [| e es IH]; intros r st Hst Hav Hre Hall; simpl; [eauto |].
  apply Forall_cons in Hall as [He Hall]. unfold keepsCount in He.
  apply andb_prop in He as [Htick Hsucc].
  destruct e as [m success now |]; [| discriminate Htick]. simpl in *.
  destruct (String.eqb_spec m id) as [-> | Hne].
  - destruct success; [discriminate Hsucc |].
    apply (IH _ (record st false now)); [| | | exact Hall].
    + apply rot_stats_record_same. exact Hst.
    + simpl. rewrite Hav. destruct (Qle_bool _ _); reflexivity.
    + simpl. lra.
  - apply (IH _ st); auto. rewrite rot_stats_record_other by done. exact Hst.
Qed.

(** A provider that is unavailable with a count of 3 or more is not the
    one selected while another has a count below 3. *)
Lemma rot_unavailable_not_selected r id st alt a now :
  NoDup (JsMap.keys (models r)) →
  stats_of r id = Some st → isAvailable st = false → (3 <= recentErrors st)%Q →
  stats_of r alt = Some a → (recentErrors a < 3)%Q →
  fst (getNextModel r now) ≠ Some id.
Proof.
  intros Hnd Hst Hav Hre Ha Hlt Hsel. unfold getNextModel in Hsel.
  destruct (scan r now _) as [[model next] |] eqn:Hscan; simpl in Hsel.
  - injection Hsel as ->.
    destruct (rot_scan_qualifies _ _ _ _ _ Hscan) as (st' & Hst' & Hq).
    rewrite Hst in Hst'. injection Hst' as <-.
    unfold qualifies in Hq. rewrite Hav in Hq. discriminate.
  - assert (models r ≠ []) as Hnil.
    { unfold stats_of in Ha. destruct (models r); [discriminate | done]. }
    destruct (rot_leastErrors_spec _ Hnil) as (k & stk & Hk & Hin & Hmin).
    rewrite Hk in Hsel. injection Hsel as ->.
    apply (jsmap_In_get _ _ _ Hnd) in Hin. unfold stats_of in Hst.
    rewrite Hst in Hin. injection Hin as <-.
    specialize (Hmin (alt, a) (jsmap_get_In _ _ _ Ha)). simpl in Hmin. lra.
Qed.

(** C6, as the code has it.  Three consecutive failures leave the provider
    unavailable.  Until a decay tick or a success of its own lowers its
    count, no selection returns it while some other provider has fewer than
    3 recent errors.  It becomes available again only when a decay tick
    finds its count at 0: after as many ticks as its count (three from a
    clean record), or after a single tick once enough successes have
    brought the count down to 1 or less. *)
Theorem rotator_quarantine r id st t1 t2 t3
    (Hwf : wf r) (Hst : stats_of r id = Some st) :
  available (failThrice r id t1 t2 t3) id = false ∧
  (∀ es alt a now,
     Forall (fun e => keepsCount id e = true) es →
     stats_of (run (failThrice r id t1 t2 t3) es) alt = Some a →
     (recentErrors a < 3)%Q →
     fst (getNextModel (run (failThrice r id t1 t2 t3) es) now) ≠ Some id) ∧
  (∀ n, (1 ≤ n)%nat → (recentErrors st + 3 <= inject_Z (Z.of_nat n))%Q →
        available (run (failThrice r id t1 t2 t3) (repeat DecayTick n)) id = true) ∧
  (∀ m t, (recentErrors st + 3 <= inject_Z (Z.of_nat m) / 2 + 1)%Q →
          available (run (failThrice r id t1 t2 t3)
                         (repeat (Recorded id true t) m ++ [DecayTick])) id = true).
Proof.
  assert (0 <= recentErrors st)%Q as Hnn.
  { destruct Hwf as [_ Hall]. rewrite Forall_forall in Hall.
    apply (Hall (id, st)). apply jsmap_get_In. exact Hst. }
  destruct (rot_failThrice_stats r id st t1 t2 t3 Hst) as (st3 & Hst3 & Hre3 & Hav3).
  specialize (Hav3 Hnn).
  split; [| split; [| split]].
  - unfold available. rewrite Hst3. exact Hav3.
  - intros es alt a now Hquiet Ha Hlt.
    destruct (rot_quarantine_persists id es _ st3 Hst3 Hav3 ltac:(lra) Hquiet)
      as (st' & Hst' & Hav' & Hre').
    pose proof (rot_wf_run es _ (rot_wf_failThrice r id t1 t2 t3 Hwf)) as [Hnd _].
    exact (rot_unavailable_not_selected _ id st' alt a now Hnd Hst' Hav' Hre' Ha Hlt).
  - intros n Hn Hle. apply (rot_recover _ _ _ _ Hst3 (rot_no_failure_repeat_ticks id n)).
    right. destruct (rot_relief_ticks id (repeat DecayTick n)) as (q & Hq & Hge).
    { rewrite rot_ticks_repeat. exact Hn. }
    rewrite rot_ticks_repeat in Hge. exists q. split; [exact Hq | lra].
  - intros m t Hle. apply (rot_recover _ _ _ _ Hst3).
    + apply Forall_app. split; [| repeat constructor].
      apply Forall_forall. intros e He%list_elem_of_In%repeat_spec. subst. reflexivity.
    + right. destruct (rot_relief_successes_then_tick id t m) as (q & Hq & Heq).
      exists q. split; [exact Hq | lra].
Qed.

End RotatorFacts.

(** C5 as the design document words it fails: the success that brings the
    count to 0 leaves the provider unavailable, and after one decay tick a
    provider is unavailable with a count of 2, below the threshold. *)
Lemma rotator_success_does_not_restore :
  ¬ ModelRotator.restoredBySuccess ModelRotator.fiveSuccesses "A" 5 ∧
  ¬ ModelRotator.quarantinedOnlyAtThreshold ModelRotator.tickedOnce.
Proof.
  split.
  - intros H. unfold ModelRotator.restoredBySuccess in H.
    specialize (H _ eq_refl). simpl in H. discriminate H. reflexivity.
  - intros H. unfold ModelRotator.quarantinedOnlyAtThreshold in H.
    specialize (H "A" _ eq_refl eq_refl). vm_compute in H. apply H. reflexivity.
Qed.

Lemma rotator_success_and_decay_witness :
  ModelRotator.stats_of ModelRotator.quarantined "A" =
    Some {| ModelRotator.requestCount := 3; ModelRotator.lastRequestTime := 3;
            ModelRotator.recentErrors := 3; ModelRotator.isAvailable := false |} ∧
  ModelRotator.available
    (ModelRotator.run ModelRotator.quarantined
       [ModelRotator.Recorded "A" true 4; ModelRotator.DecayTick;
        ModelRotator.DecayTick; ModelRotator.DecayTick]) "A" = true.
Proof.
  split; [reflexivity |].
  assert (ModelRotator.stats_of ModelRotator.quarantined "A" =
          Some {| ModelRotator.requestCount := 3; ModelRotator.lastRequestTime := 3;
                  ModelRotator.recentErrors := 3; ModelRotator.isAvailable := false |})
    as Hst by reflexivity.
  apply (rotator_success_and_decay ModelRotator.quarantined "A" _ Hst).
  - repeat constructor.
  - simpl. lia.
  - vm_compute. discriminate.
Defined.

(** C6 as the design document words it fails: one decay tick after the
    third failure the provider is still unavailable and no selection returns
    it, whatever the instant.  And once successes of its own have lowered
    its count, the still unavailable provider is returned by the fallback
    although the other provider has fewer than 3 recent errors. *)
Lemma rotator_one_tick_not_enough :
  (ModelRotator.available ModelRotator.tickedOnce "A" = false ∧
   ∀ now, fst (ModelRotator.getNextModel ModelRotator.tickedOnce now) = Some "B") ∧
  (ModelRotator.available ModelRotator.tied "A" = false ∧
   ¬ ModelRotator.neverSelectedWhileAlternate ModelRotator.tied "A").
Proof.
  split; split; try reflexivity.
  - intros now. cbv -[Z.gtb Z.sub]. destruct (now - 0 >? 1000); reflexivity.
  - intros H. apply (H 5500 "B" _ ltac:(discriminate) eq_refl); reflexivity.
Qed.

Lemma rotator_quarantine_witness :
  ModelRotator.wf ModelRotator.twoProviders ∧
  ModelRotator.stats_of ModelRotator.twoProviders "A" = Some ModelRotator.fresh ∧
  ModelRotator.available ModelRotator.quarantined "A" = false ∧
  fst (ModelRotator.getNextModel ModelRotator.quarantined 500) ≠ Some "A" ∧
  ModelRotator.available
    (ModelRotator.run ModelRotator.quarantined (repeat ModelRotator.DecayTick 3)) "A" = true.
Proof.
  pose proof (rotator_quarantine ModelRotator.twoProviders "A" ModelRotator.fresh 1 2 3
                (rot_wf_new _) eq_refl) as (H1 & H2 & H3 & _).
  split; [apply rot_wf_new |]. split; [reflexivity |]. split; [exact H1 |].
  split; [| apply H3; [lia | vm_compute; discriminate]].
  apply (H2 [] "B" ModelRotator.fresh 500); [constructor | reflexivity | reflexivity].
Defined.

(** ** The rate-limited queue *)

Section RateLimiterFacts.
Context {V : Type}.
Import RateLimiter.
Implicit Types (st : RateLimiter.t V) (item : QueueItem V).

Lemma queue_loopIter_runHead st :
  perSecond st < maxRequestsPerSecond (options st) →
  perMinute st < maxRequestsPerMinute (options st) →
  loopIter st = runHead st.
Proof.
  intros H1 H2. unfold loopIter.
  destruct (Z.geb_spec (perSecond st) (maxRequestsPerSecond (options st))); [lia |].
  destruct (Z.geb_spec (perMinute st) (maxRequestsPerMinute (options st))); [lia |].
  reflexivity.
Qed.

Lemma queue_onError_retry o item error :
  isRateLimitError error = true → Z.of_nat (retries item) < maxRetries o →
  onError o item error =
    Retry {| id := id item; fn := fn item; retries := S (retries item) |}
          (retryDelay o * backoffMultiplier o ^ Z.of_nat (retries item)).
Proof.
  intros Hrl Hlt. unfold onError. rewrite Hrl.
  destruct (Z.ltb_spec (Z.of_nat (retries item)) (maxRetries o)); [| lia]. simpl.
  replace (Z.of_nat (S (retries item)) - 1) with (Z.of_nat (retries item)) by lia.
  reflexivity.
Qed.

Lemma queue_onError_exhausted o item error :
  maxRetries o <= Z.of_nat (retries item) → onError o item error = GiveUp error.
Proof.
  intros Hge. unfold onError.
  destruct (Z.ltb_spec (Z.of_nat (retries item)) (maxRetries o)); [lia |].
  rewrite andb_false_r. reflexivity.
Qed.

Lemma queue_onError_other o item error :
  isRateLimitError error = false → onError o item error = GiveUp error.
Proof. intros H. unfold onError. rewrite H. reflexivity. Qed.

(** When its timer is the one that fires, the item lands at the front. *)
Lemma queue_timer_fires_front (s : RateLimiter.t V) due item dt :
  timers s = [(due, item)] → due <= now s + dt →
  queue (advance s dt) = item :: queue s.
Proof.
  intros Ht Hdue. unfold advance; simpl. rewrite Ht.
  rewrite filter_cons. simpl. destruct (decide (due <= now s + dt)); [| lia].
  reflexivity.
Qed.

Lemma queue_retrySchedule_step o fuel item :
  retrySchedule o (S fuel) item =
    match snd (fn item (retries item)) with
    | Resolves v => ([], Some (Resolves v))
    | Rejects error =>
        match onError o item error with
        | Retry item' delay =>
            let '(ds, r) := retrySchedule o fuel item' in (delay :: ds, r)
        | GiveUp e => ([], Some (Rejects e))
        end
    end.
Proof. reflexivity. Qed.

(** An operation throttled at every call is retried until its counter
    reaches [maxRetries]. *)
Lemma queue_retrySchedule_throttled o (f : nat → Z * Outcome V)
    (lat : nat → Z) (errs : nat → JsError) (mr : nat) :
  maxRetries o = Z.of_nat mr →
  (∀ k, f k = (lat k, Rejects (errs k))) →
  (∀ k, isRateLimitError (errs k) = true) →
  ∀ d n i, (n + d = mr)%nat →
    retrySchedule o (S d) {| id := i; fn := f; retries := n |} =
      (map (fun k => retryDelay o * backoffMultiplier o ^ Z.of_nat k) (seq n d),
       Some (Rejects (errs mr))).
Proof.
  intros Hmr Hf Hrl. induction d as [| d IH]; intros n i Hn.
  - simpl. rewrite Hf. simpl.
    rewrite queue_onError_exhausted by (simpl; lia).
    replace n with mr by lia. reflexivity.
  - rewrite queue_retrySchedule_step. cbn [fn retries]. rewrite Hf. cbn [snd].
    rewrite queue_onError_retry by (simpl; auto; lia).
    cbn [id fn retries]. rewrite IH by lia. reflexivity.
Qed.

End RateLimiterFacts.

(** ** Batch sizing *)

Section BatchSizeFacts.
Import JsNum.

Lemma num_clamp_between lo hi x :
  lo <= hi → x ≠ NaN → between lo hi (max (ofZ lo) (min (ofZ hi) x)).
Proof.
  intros Hle Hx.
  assert (inject_Z lo <= inject_Z hi)%Q as Hq by (unfold Qle, inject_Z; simpl; lia).
  destruct x as [q | | |]; simpl; try contradiction.
  - split; [apply Q.le_max_l |]. apply Q.max_lub; [exact Hq | apply Q.le_min_l].
  - split; [apply Q.le_max_l |]. apply Q.max_lub; [exact Hq | apply Qle_refl].
  - split; [apply Qle_refl | exact Hq].
Qed.

Lemma num_floor_not_NaN x : x ≠ NaN → floor x ≠ NaN.
Proof. destruct x; simpl; done. Qed.

(** The candidate size of a non-empty list is a number or [Infinity]. *)
Lemma num_candidate_not_NaN (total len : Z) :
  0 < len →
  floor (div (ofZ 10000) (ceil (div (div (ofZ total) (ofZ len)) (ofZ 4)))) ≠ NaN.
Proof.
  intros Hlen. apply num_floor_not_NaN. unfold ofZ at 2 3. simpl div at 2.
  destruct (Qeq_bool (inject_Z len) 0) eqn:E.
  { apply Qeq_bool_iff in E. exfalso.
    assert (0 < inject_Z len)%Q as Hpos by (unfold Qlt, inject_Z; simpl; lia).
    lra. }
  unfold ofZ at 2. simpl div at 2. simpl ceil. unfold ofZ. simpl.
  destruct (Qeq_bool (inject_Z (Qceiling _)) 0); [| done].
  destruct (Qle_bool 0 (inject_Z 10000)); done.
Qed.

(** For a non-empty list both copies of [getOptimalBatchSize] stay inside
    their clamp, whatever the lengths of the texts. *)
Lemma batch_size_clamped (texts : list string) :
  texts ≠ [] →
  between 5 10 (SentimentBatch.getOptimalBatchSize texts) ∧
  between 5 25 (SentimentBatchWide.getOptimalBatchSize texts).
Proof.
  intros Hne.
  assert (0 < Z.of_nat (length texts)) as Hlen by (destruct texts; [done | simpl; lia]).
  split.
  - apply (num_clamp_between 5 10); [lia |]. apply num_candidate_not_NaN. exact Hlen.
  - apply (num_clamp_between 5 25); [lia |]. apply num_candidate_not_NaN. exact Hlen.
Qed.

(** C8.  On the empty list the average is 0/0: both copies of
    [getOptimalBatchSize] return [NaN], which lies in no range. *)
Theorem batch_size_of_empty_list :
  SentimentBatch.getOptimalBatchSize [] = NaN ∧
  SentimentBatchWide.getOptimalBatchSize [] = NaN ∧
  ¬ between 5 10 (SentimentBatch.getOptimalBatchSize []) ∧
  ¬ between 5 25 (SentimentBatchWide.getOptimalBatchSize []).
Proof. repeat split; try reflexivity; intros H; exact H. Qed.

End BatchSizeFacts.

(** ** Aggregation *)

Section AggregationFacts.
Import Sentiment.

Lemma agg_countOf_cons r results c :
  countOf (r :: results) c =
  (if decide (sentiment r = c) then 1 else 0) + countOf results c.
Proof.
  unfold countOf. rewrite filter_cons.
  destruct (decide (sentiment r = c)); simpl length; lia.
Qed.

(** The loop keeps the four keys in their order and counts per category. *)
Lemma agg_fold_counts results : ∀ p n u m s c,
  sentimentCounts
    (fold_left addResult results
       {| sentimentCounts := [(positive, p); (negative, n); (neutral, u); (mixed, m)];
          totalScore := s; totalConfidence := c |}) =
  [(positive, p + countOf results positive);
   (negative, n + countOf results negative);
   (neutral, u + countOf results neutral);
   (mixed, m + countOf results mixed)].
Proof.
  induction results as [| r results IH]; intros p n u m s c.
  - simpl. unfold countOf. simpl. repeat f_equal; lia.
  - cbn [fold_left]. unfold addResult at 2. cbn [sentimentCounts totalScore totalConfidence].
    rewrite !agg_countOf_cons.
    destruct (sentiment r); cbn [bump]; repeat case_decide; try done;
      rewrite IH, ?Z.add_0_l, ?Z.add_assoc; reflexivity.
Qed.

Lemma agg_counts results :
  sentimentCounts (totals results) =
  [(positive, countOf results positive); (negative, countOf results negative);
   (neutral, countOf results neutral); (mixed, countOf results mixed)].
Proof. unfold totals, noCounts. rewrite agg_fold_counts. reflexivity. Qed.

(** The head of the stable descending sort of the four counters. *)
Lemma agg_dominant_four p n u m :
  ∃ d, dominant [(positive, p); (negative, n); (neutral, u); (mixed, m)] = Some d ∧
       let count c :=
         match c with positive => p | negative => n | neutral => u | mixed => m end in
       (∀ c, count c <= count d) ∧
       (∀ c, count c = count d → (rank d ≤ rank c)%nat).
Proof.
  unfold dominant. cbn [sort insertSorted snd].
  repeat match goal with
         | |- context [?a - ?b <=? 0] => destruct (Z.leb_spec (a - b) 0); cbn [insertSorted snd]
         end;
    eexists; (split; [reflexivity |]); cbn zeta;
    (split; intros c; destruct c; simpl; lia).
Qed.

(** C9.  For a non-empty result list the aggregation produces its
    summary; the dominant category has the greatest count of the
    distribution, and among the categories with that count it is the first
    in the order positive, negative, neutral, mixed. *)
Theorem dominant_is_first_greatest results (Hne : results ≠ []) :
  ∃ agg,
    aggregate results = Some agg ∧
    sentiment_distribution agg =
      [(positive, countOf results positive); (negative, countOf results negative);
       (neutral, countOf results neutral); (mixed, countOf results mixed)] ∧
    (∀ c, countOf results c <= countOf results (overall_sentiment agg)) ∧
    (∀ c, countOf results c = countOf results (overall_sentiment agg) →
          (rank (overall_sentiment agg) ≤ rank c)%nat).
Proof.
  unfold aggregate. destruct results as [| r0 results0]; [contradiction |].
  set (results := r0 :: results0) in *.
  rewrite agg_counts.
  destruct (agg_dominant_four (countOf results positive) (countOf results negative)
              (countOf results neutral) (countOf results mixed)) as (d & Hd & Hmax & Hfirst).
  rewrite Hd. eexists. split; [reflexivity |].
  cbn [sentiment_distribution overall_sentiment].
  split; [reflexivity |]. split.
  - intros c. specialize (Hmax c). destruct c, d; exact Hmax.
  - intros c Hc. apply Hfirst. destruct c, d; exact Hc.
Qed.

End AggregationFacts.

Lemma dominant_is_first_greatest_witness :
  Sentiment.threeWay ≠ [] ∧
  ∃ agg,
    Sentiment.aggregate Sentiment.threeWay = Some agg ∧
    Sentiment.overall_sentiment agg = Sentiment.positive ∧
    Sentiment.sentiment_distribution agg =
      [(Sentiment.positive, 1); (Sentiment.negative, 1);
       (Sentiment.neutral, 1); (Sentiment.mixed, 0)].
Proof.
  split; [discriminate |].
  destruct (dominant_is_first_greatest Sentiment.threeWay ltac:(discriminate))
    as (agg & Hagg & Hdist & _).
  exists agg. split; [exact Hagg |]. split.
  - vm_compute in Hagg. injection Hagg as <-. reflexivity.
  - rewrite Hdist. reflexivity.
Defined.

(** ** The workflow *)

Section WorkflowFacts.
Import Workflow.
Variable world : Task → nat → Attempt.

Lemma flow_slot_inj c c' : slot c = slot c' → c = c'.
Proof. destruct c, c'; simpl; intros H; try reflexivity; discriminate H. Qed.

Lemma flow_slot_not_founders c : slot c ≠ "founders".
Proof. destruct c; discriminate. Qed.

Lemma flow_slot_not_competitive c : slot c ≠ "competitiveAnalysis".
Proof. destruct c; discriminate. Qed.

Lemma flow_connector_phase c : c ∈ socialMedia ∨ c ∈ webSearch.
Proof.
  destruct c; unfold socialMedia, webSearch;
    first [left; repeat constructor; fail | right; repeat constructor].
Qed.

(** A task under the retry policy fails only when every one of its five
    attempts does, and then with the error of the last. *)
Lemma flow_callActivity_raises attempts msg :
  callActivity attempts = Raises msg ↔
  (∀ k, (k < 5)%nat → ∃ m, attempts k = Raises m) ∧ attempts 4%nat = Raises msg.
Proof.
  unfold callActivity; simpl. split.
  - destruct (attempts 0%nat) eqn:E0; [discriminate |].
    destruct (attempts 1%nat) eqn:E1; [discriminate |].
    destruct (attempts 2%nat) eqn:E2; [discriminate |].
    destruct (attempts 3%nat) eqn:E3; [discriminate |].
    destruct (attempts 4%nat) eqn:E4; [discriminate |].
    intros [= ->]. split; [| reflexivity].
    intros k Hk.
    destruct k as [| [| [| [| [| k]]]]]; [eauto | eauto | eauto | eauto | eauto | lia].
  - intros [Hall H4].
    destruct (Hall 0%nat ltac:(lia)) as [? ->]. destruct (Hall 1%nat ltac:(lia)) as [? ->].
    destruct (Hall 2%nat ltac:(lia)) as [? ->]. destruct (Hall 3%nat ltac:(lia)) as [? ->].
    rewrite H4. reflexivity.
Qed.

(** After a fan-out, the slot of a connector that took part holds what its
    task left, and a slot already so filled stays. *)
Lemma flow_fanOut_slot order : ∀ ds c,
  c ∈ order ∨
    ds !! slot c = Some (Text (outcomeText (callActivity (world (Fetch c))))) →
  fanOut world order ds !! slot c =
    Some (Text (outcomeText (callActivity (world (Fetch c))))).
Proof.
  induction order as [| x order IH]; intros ds c H; simpl.
  - destruct H as [H | H]; [inversion H | exact H].
  - apply IH. unfold settleFetch.
    destruct (decide (x = c)) as [-> | Hne].
    + right. apply lookup_insert_eq.
    + rewrite lookup_insert_ne by (intros E; apply Hne, flow_slot_inj, E).
      destruct H as [[-> | H]%elem_of_cons | H]; [contradiction | left; exact H | right; exact H].
Qed.

Lemma flow_founderPhase_slot inp order ds c :
  founderPhase world inp order ds !! slot c = ds !! slot c.
Proof.
  unfold founderPhase. destruct (founders inp) as [[| f fs] |]; try reflexivity.
  revert ds. induction order as [| i order IH]; intros ds; simpl; [reflexivity |].
  rewrite IH. unfold settleFounder. destruct ((f :: fs) !! i); [| reflexivity].
  apply lookup_insert_ne. intros E. symmetry in E. exact (flow_slot_not_founders c E).
Qed.

Lemma flow_competitivePhase_slot inp ds c :
  competitivePhase world inp ds !! slot c = ds !! slot c.
Proof.
  unfold competitivePhase. destruct (competitors inp) as [[| ? ?] |]; try reflexivity.
  apply lookup_insert_ne. intros E. symmetry in E. exact (flow_slot_not_competitive c E).
Qed.

(** Every slot of a run that returns holds what its connector's task left. *)
Lemma flow_slots sched now inp res c :
  fair sched inp →
  startupAnalysisWorkflow world sched now inp = inr res →
  dataSources (results res) !! slot c =
    Some (Text (outcomeText (callActivity (world (Fetch c))))).
Proof.
  intros (Hsocial & Hweb & _) Hrun. unfold startupAnalysisWorkflow in Hrun.
  destruct (callActivity (world SaveToDatabase)); [| discriminate].
  destruct (callActivity (world GenerateSummary)); [| discriminate].
  injection Hrun as <-. cbn [results dataSources].
  rewrite flow_competitivePhase_slot, flow_founderPhase_slot.
  apply flow_fanOut_slot.
  destruct (flow_connector_phase c) as [Hin | Hin].
  - right. apply flow_fanOut_slot. left. rewrite Hsocial. exact Hin.
  - left. rewrite Hweb. exact Hin.
Qed.

(** C3.  One connector's task fails for good (all its attempts raise, see
    [flow_callActivity_raises]), the other connectors' tasks succeed, and so
    do the persistence and summary tasks: whatever the order in which the
    promises of each fan-out settle, the run returns its result, the failed
    connector's slot holds the error string, and every other connector's
    slot holds its payload. *)
Theorem workflow_isolates_connector_failure sched now inp c msg
    (Hfair : fair sched inp)
    (Hfailed : callActivity (world (Fetch c)) = Raises msg)
    (Hothers : ∀ c', c' ≠ c → ∃ r, callActivity (world (Fetch c')) = Returns r)
    (Hsaved : ∃ r, callActivity (world SaveToDatabase) = Returns r)
    (Hsummary : ∃ s, callActivity (world GenerateSummary) = Returns s) :
  ∃ res,
    startupAnalysisWorkflow world sched now inp = inr res ∧
    dataSources (results res) !! slot c = Some (Text (errorString msg)) ∧
    ∀ c', c' ≠ c →
      ∃ r, callActivity (world (Fetch c')) = Returns r ∧
           dataSources (results res) !! slot c' = Some (Text r).
Proof.
  destruct Hsaved as [r Hsave], Hsummary as [s Hsum].
  assert (∃ res, startupAnalysisWorkflow world sched now inp = inr res) as [res Hres].
  { unfold startupAnalysisWorkflow. rewrite Hsave, Hsum. eauto. }
  exists res. split; [exact Hres |]. split.
  - rewrite (flow_slots _ _ _ _ c Hfair Hres), Hfailed. reflexivity.
  - intros c' Hne. destruct (Hothers c' Hne) as [r' Hr'].
    exists r'. split; [exact Hr' |].
    rewrite (flow_slots _ _ _ _ c' Hfair Hres), Hr'. reflexivity.
Qed.

End WorkflowFacts.

Lemma workflow_isolates_connector_failure_witness :
  ∃ res,
    Workflow.startupAnalysisWorkflow Workflow.redditDown Workflow.inOrder 1700000000000
      Workflow.sampleInput = inr res ∧
    Workflow.dataSources (Workflow.results res) !! "reddit" =
      Some (Workflow.Text "Error: 503 Service Unavailable") ∧
    Workflow.dataSources (Workflow.results res) !! "news" =
      Some (Workflow.Text "news posts").
Proof.
  destruct (workflow_isolates_connector_failure Workflow.redditDown Workflow.inOrder
              1700000000000 Workflow.sampleInput Workflow.reddit "503 Service Unavailable")
    as (res & Hres & Hreddit & Hrest).
  - repeat split; reflexivity.
  - reflexivity.
  - intros c' Hne. destruct c'; try (eexists; reflexivity). contradiction.
  - eexists. reflexivity.
  - eexists. reflexivity.
  - exists res. split; [exact Hres |]. split; [exact Hreddit |].
    destruct (Hrest Workflow.news ltac:(discriminate)) as (r & Hr & Hslot).
    injection Hr as <-. exact Hslot.
Defined.

(** ** The batch sentiment engine *)

Section EngineFacts.
Import SentimentBatch.
Variable md5hex : string → string.
Variable JSON_parse : string → option Json.
Variable invoke : string → nat → string → Z * Reply.

Abbreviation analyzeBatchWithMistral := (analyzeBatchWithMistral md5hex JSON_parse invoke).
Abbreviation analyzeBatchWithClaude := (analyzeBatchWithClaude md5hex JSON_parse invoke).
Abbreviation analyzeWith := (analyzeWith md5hex JSON_parse invoke).
Abbreviation analyzeBatchSmart := (analyzeBatchSmart md5hex JSON_parse invoke).
Abbreviation providerFails := (providerFails JSON_parse invoke).
Abbreviation ask := (ask invoke).
Abbreviation cacheMisses := (cacheMisses md5hex).
Abbreviation usable := (usable JSON_parse).
Abbreviation parsed := (parsed JSON_parse).

Lemma engine_perItem_errorResult error implications texts :
  ∃ items, perItem (errorResult error implications texts) = Some items ∧
           length items = length texts ∧ Forall degraded items.
Proof.
  eexists. split; [reflexivity |]. split; [apply length_imap |].
  apply Forall_forall. intros item Hin.
  apply list_elem_of_lookup in Hin as [i Hi].
  rewrite list_lookup_imap in Hi.
  destruct (texts !! i); [| discriminate]. injection Hi as <-.
  repeat split; try reflexivity. simpl. eauto.
Qed.

(** Once the cache has missed, a failing provider makes either branch
    return the error result: the [catch] clause swallows the error. *)
Lemma engine_mistral_on_failure env texts model :
  JsString.includes model "claude" = false →
  cacheMisses env model texts → providerFails model texts →
  ∃ env', analyzeBatchWithMistral env texts =
            (env', inr (errorResult "All models failed"
                          "Analysis unavailable - all models failed" texts)).
Proof.
  unfold SentimentBatch.cacheMisses, SentimentBatch.providerFails,
    SentimentBatch.usable, SentimentBatch.parsed, keyPrefix, providerOf,
    SimpleCache.read.
  intros -> Hmiss Hfail. unfold SentimentBatch.analyzeBatchWithMistral.
  destruct (SimpleCache.get _ _ _) as [cached c]. simpl in Hmiss. rewrite Hmiss.
  unfold tryMistral. destruct (SentimentBatch.ask invoke mistralId texts) as [latency reply].
  simpl in Hfail. destruct reply as [e | text]; [eauto |].
  simpl in Hfail. rewrite andb_true_r in Hfail.
  destruct (extractMistral JSON_parse text); [rewrite Hfail |]; eauto.
Qed.

Lemma engine_claude_on_failure env texts model :
  JsString.includes model "claude" = true →
  cacheMisses env model texts → providerFails model texts →
  ∃ env', analyzeBatchWithClaude env texts false =
            (env', inr (errorResult "Batch analysis failed"
                          "Analysis unavailable due to API error" texts)).
Proof.
  unfold SentimentBatch.cacheMisses, SentimentBatch.providerFails,
    SentimentBatch.usable, SentimentBatch.parsed, keyPrefix, providerOf,
    SimpleCache.read.
  intros -> Hmiss Hfail. unfold SentimentBatch.analyzeBatchWithClaude.
  destruct (SimpleCache.get _ _ _) as [cached c]. simpl in Hmiss. rewrite Hmiss.
  unfold tryClaude. destruct (SentimentBatch.ask invoke claudeId texts) as [latency reply].
  simpl in Hfail. destruct reply as [e | text]; [eauto |].
  simpl in Hfail.
  destruct (extractClaude JSON_parse text) as [r |]; [| eauto].
  destruct (hasResults (Some r)); [| eauto]. simpl in Hfail. rewrite Hfail. simpl. eauto.
Qed.

Lemma engine_analyzeWith_on_failure env texts model :
  cacheMisses env model texts → providerFails model texts →
  ∃ env' error implications,
    analyzeWith model env texts = (env', inr (errorResult error implications texts)).
Proof.
  intros Hmiss Hfail. unfold SentimentBatch.analyzeWith.
  destruct (JsString.includes model "claude") eqn:E.
  - destruct (engine_claude_on_failure env texts model E Hmiss Hfail) as [env' ->]. eauto.
  - destruct (engine_mistral_on_failure env texts model E Hmiss Hfail) as [env' ->]. eauto.
Qed.

(** Neither branch ever throws into [analyzeBatchSmart]. *)
Lemma engine_analyzeWith_returns env texts model :
  ∃ env' result, analyzeWith model env texts = (env', inr result).
Proof.
  unfold SentimentBatch.analyzeWith. destruct (JsString.includes model "claude").
  - unfold SentimentBatch.analyzeBatchWithClaude.
    destruct (SimpleCache.get _ _ _) as [cached c].
    destruct (JsValue.whenTruthy cached); [eauto |].
    destruct (tryClaude _ _ _ _ _) as [env' [e | r]]; eauto.
  - unfold SentimentBatch.analyzeBatchWithMistral.
    destruct (SimpleCache.get _ _ _) as [cached c].
    destruct (JsValue.whenTruthy cached); [eauto |].
    destruct (tryMistral _ _ _ _ _) as [env' [e | r]]; eauto.
Qed.

(** [analyzeBatchSmart] returns what the selected model's branch returns. *)
Lemma engine_smart_unfold env texts primary :
  selected env = Some primary →
  ∃ env1 env' result,
    analyzeWith primary env1 texts = (env', inr result) ∧
    sentimentCache env1 = sentimentCache env ∧ clock env1 = clock env ∧
    ∃ env'', analyzeBatchSmart env texts = (env'', inr result).
Proof.
  unfold selected, SentimentBatch.analyzeBatchSmart.
  destruct (ModelRotator.getNextModel _ _) as [next rot]. simpl. intros ->.
  destruct (engine_analyzeWith_returns (withRotator env rot) texts primary)
    as (env' & result & Hwith).
  exists (withRotator env rot), env', result. rewrite Hwith.
  repeat split; eauto.
Qed.

Lemma engine_smart_returns env texts :
  ModelRotator.ready (sentimentModelRotator env) →
  ∃ env' result, analyzeBatchSmart env texts = (env', inr result).
Proof.
  intros Hready.
  destruct (rot_getNextModel_is_Some _ (clock env) Hready) as [primary Hsel].
  destruct (engine_smart_unfold env texts primary Hsel) as (_ & _ & result & _ & _ & _ & env'' & H).
  eauto.
Qed.

Lemma engine_smart_on_failure env texts primary :
  selected env = Some primary →
  cacheMisses env primary texts → providerFails primary texts →
  ∃ env' error implications,
    analyzeBatchSmart env texts = (env', inr (errorResult error implications texts)).
Proof.
  intros Hsel Hmiss Hfail.
  destruct (engine_smart_unfold env texts primary Hsel)
    as (env1 & env' & result & Hwith & Hc & Hk & env'' & Hsmart).
  assert (cacheMisses env1 primary texts) as Hmiss1.
  { unfold SentimentBatch.cacheMisses in *. rewrite Hc, Hk. exact Hmiss. }
  destruct (engine_analyzeWith_on_failure env1 texts primary Hmiss1 Hfail)
    as (env2 & error & implications & Herr).
  rewrite Herr in Hwith. injection Hwith as _ <-. eauto.
Qed.

(** When the cache misses and the reply is usable, the result carries the
    reply's own [results]. *)
Lemma engine_analyzeWith_on_success env texts model text :
  cacheMisses env model texts →
  snd (ask (providerOf model) texts) = Content text →
  usable model text = true →
  ∃ env' result r,
    analyzeWith model env texts = (env', inr result) ∧
    parsed model text = Some r ∧
    JsValue.prop result "results" = JsValue.prop r "results".
Proof.
  unfold SentimentBatch.cacheMisses, SentimentBatch.usable, SentimentBatch.parsed,
    keyPrefix, providerOf, SimpleCache.read, SentimentBatch.analyzeWith.
  destruct (JsString.includes model "claude"); intros Hmiss Hreply Huse.
  - unfold SentimentBatch.analyzeBatchWithClaude.
    destruct (SimpleCache.get _ _ _) as [cached c]. simpl in Hmiss. rewrite Hmiss.
    unfold tryClaude. destruct (SentimentBatch.ask invoke claudeId texts) as [latency reply].
    simpl in Hreply. subst reply.
    destruct (extractClaude JSON_parse text) as [r |]; [| discriminate].
    apply andb_prop in Huse as [Hhas Harr]. simpl in Harr.
    rewrite Hhas, Harr. simpl. eauto 10.
  - unfold SentimentBatch.analyzeBatchWithMistral.
    destruct (SimpleCache.get _ _ _) as [cached c]. simpl in Hmiss. rewrite Hmiss.
    unfold tryMistral. destruct (SentimentBatch.ask invoke mistralId texts) as [latency reply].
    simpl in Hreply. subst reply.
    destruct (extractMistral JSON_parse text) as [r |]; [| discriminate].
    apply andb_prop in Huse as [Hhas _]. rewrite Hhas.
    eexists _, _, r. split; [reflexivity |]. split; [reflexivity |].
    unfold hasResults in Hhas. apply andb_prop in Hhas as [_ Hres].
    destruct r as [| | | | | fields]; try discriminate Hres. simpl.
    apply jsmap_get_set_ne. discriminate.
Qed.

(** C1, as the code has it.  The call returns a result.  When the selected
    provider is called (the cache holds nothing for the texts) and fails,
    the per-item list is the synthesized one, with one entry per input
    text.  When the provider's reply is usable, the result carries the
    reply's own list, whatever its length. *)
Theorem batch_result_length env texts
    (Hready : ModelRotator.ready (sentimentModelRotator env)) :
  ∃ env' result,
    analyzeBatchSmart env texts = (env', inr result) ∧
    ∀ primary, selected env = Some primary → cacheMisses env primary texts →
      (providerFails primary texts →
         ∃ items, perItem result = Some items ∧ length items = length texts) ∧
      (∀ text, snd (ask (providerOf primary) texts) = Content text →
               usable primary text = true →
         ∃ r, parsed primary text = Some r ∧
              JsValue.prop result "results" = JsValue.prop r "results").
Proof.
  destruct (engine_smart_returns env texts Hready) as (env' & result & Hsmart).
  exists env', result. split; [exact Hsmart |].
  intros primary Hsel Hmiss. split.
  - intros Hfail.
    destruct (engine_smart_on_failure env texts primary Hsel Hmiss Hfail)
      as (env2 & error & implications & Herr).
    rewrite Herr in Hsmart. injection Hsmart as _ <-.
    destruct (engine_perItem_errorResult error implications texts) as (items & ? & ? & _).
    eauto.
  - intros text Hreply Huse.
    destruct (engine_smart_unfold env texts primary Hsel)
      as (env1 & env2 & result' & Hwith & Hc & Hk & env'' & Hsmart').
    rewrite Hsmart' in Hsmart. injection Hsmart as _ ->.
    assert (cacheMisses env1 primary texts) as Hmiss1.
    { unfold SentimentBatch.cacheMisses in *. rewrite Hc, Hk. exact Hmiss. }
    destruct (engine_analyzeWith_on_success env1 texts primary text Hmiss1 Hreply Huse)
      as (env3 & result3 & r & Hwith3 & Hparsed & Hprop).
    rewrite Hwith3 in Hwith. injection Hwith as _ <-. eauto.
Qed.

(** C2.  The call never throws, whatever the providers do.  When the
    provider the rotator selected is called (the cache holds nothing for
    the texts) and fails, by throwing or by a reply that does not parse into
    usable results, and the fallback provider fails as well, the result
    holds one placeholder per input text: category neutral, score 0.5,
    confidence 0.5, flagged with [_error]. *)
Theorem batch_failures_become_placeholders env texts
    (Hready : ModelRotator.ready (sentimentModelRotator env)) :
  ∃ env' result,
    analyzeBatchSmart env texts = (env', inr result) ∧
    ∀ primary, selected env = Some primary → cacheMisses env primary texts →
      providerFails primary texts → providerFails (otherModel primary) texts →
      ∃ items, perItem result = Some items ∧ length items = length texts ∧
               Forall degraded items.
Proof.
  destruct (engine_smart_returns env texts Hready) as (env' & result & Hsmart).
  exists env', result. split; [exact Hsmart |].
  intros primary Hsel Hmiss Hfail _.
  destruct (engine_smart_on_failure env texts primary Hsel Hmiss Hfail)
    as (env2 & error & implications & Herr).
  rewrite Herr in Hsmart. injection Hsmart as _ <-.
  apply engine_perItem_errorResult.
Qed.

End EngineFacts.

(** C1 as the design document words it fails: the provider answers one
    text with a well-formed reply whose [results] is empty, and the engine
    returns that list as it is. *)
Lemma batch_result_can_be_shorter :
  ¬ SentimentBatch.oneEntryPerText SentimentBatch.sampleDigest SentimentBatch.sampleParse
      SentimentBatch.repliesEmpty SentimentBatch.cleanEnv ["great product"].
Proof.
  intros (env' & result & items & Hrun & Hitems & Hlen).
  vm_compute in Hrun. injection Hrun as _ <-.
  vm_compute in Hitems. injection Hitems as <-. discriminate Hlen.
Qed.

Lemma batch_result_length_witness :
  ModelRotator.ready (SentimentBatch.sentimentModelRotator SentimentBatch.cleanEnv) ∧
  ∃ env' result items,
    SentimentBatch.analyzeBatchSmart SentimentBatch.sampleDigest SentimentBatch.sampleParse
      SentimentBatch.alwaysThrottled SentimentBatch.cleanEnv
      ["great product"; "awful support"] = (env', inr result) ∧
    SentimentBatch.perItem result = Some items ∧ length items = 2%nat.
Proof.
  assert (ModelRotator.ready (SentimentBatch.sentimentModelRotator SentimentBatch.cleanEnv))
    as Hready by (apply rot_ready_new; discriminate).
  split; [exact Hready |].
  destruct (batch_result_length SentimentBatch.sampleDigest SentimentBatch.sampleParse
              SentimentBatch.alwaysThrottled SentimentBatch.cleanEnv
              ["great product"; "awful support"] Hready)
    as (env' & result & Hrun & Hcond).
  destruct (Hcond SentimentBatch.claudeId) as [Hfail _]; [reflexivity | reflexivity |].
  destruct (Hfail I) as (items & Hitems & Hlen).
  exists env', result, items. auto.
Defined.

Lemma batch_failures_become_placeholders_witness :
  ModelRotator.ready (SentimentBatch.sentimentModelRotator SentimentBatch.cleanEnv) ∧
  ∃ env' result items,
    SentimentBatch.analyzeBatchSmart SentimentBatch.sampleDigest SentimentBatch.sampleParse
      SentimentBatch.alwaysThrottled SentimentBatch.cleanEnv
      ["great product"; "awful support"] = (env', inr result) ∧
    SentimentBatch.perItem result = Some items ∧ length items = 2%nat ∧
    Forall SentimentBatch.degraded items.
Proof.
  assert (ModelRotator.ready (SentimentBatch.sentimentModelRotator SentimentBatch.cleanEnv))
    as Hready by (apply rot_ready_new; discriminate).
  split; [exact Hready |].
  destruct (batch_failures_become_placeholders SentimentBatch.sampleDigest
              SentimentBatch.sampleParse SentimentBatch.alwaysThrottled
              SentimentBatch.cleanEnv ["great product"; "awful support"] Hready)
    as (env' & result & Hrun & Hcond).
  destruct (Hcond SentimentBatch.claudeId) as (items & Hitems & Hlen & Hall);
    [reflexivity | reflexivity | exact I | exact I |].
  exists env', result, items. auto.
Defined.

(** ** Sample evaluations *)

Example rate_limit_signatures :
  RateLimiter.isRateLimitError
    {| message := Some "Too Many Requests"; statusCode := None |} = true ∧
  RateLimiter.isRateLimitError RateLimiter.status429 = true ∧
  RateLimiter.isRateLimitError RateLimiter.denied = false.
Proof. repeat split. Qed.

(** The event loop on the one throttled operation: three retries, logged
    with their delays, then the rejection. *)
Example queue_drain_throttled :
  RateLimiter.settled (RateLimiter.drain 20 RateLimiter.oneThrottled) =
    [("a", RateLimiter.Rejects RateLimiter.throttled)] ∧
  RateLimiter.console (RateLimiter.drain 20 RateLimiter.oneThrottled) =
    [(2000, 1); (4000, 2); (8000, 3)] ∧
  RateLimiter.queue (RateLimiter.drain 20 RateLimiter.oneThrottled) = [] ∧
  RateLimiter.timers (RateLimiter.drain 20 RateLimiter.oneThrottled) = [].
Proof. vm_compute. repeat split. Qed.

Example rotator_round_robin :
  fst (ModelRotator.getNextModel ModelRotator.twoProviders 5000) = Some "A" ∧
  fst (ModelRotator.getNextModel
         (snd (ModelRotator.getNextModel ModelRotator.twoProviders 5000)) 5000) = Some "B".
Proof. split; reflexivity. Qed.

Example extraction_samples :
  SentimentBatch.matchBraces "Here you go: {x} and {y}. Bye" = Some "{x} and {y}" ∧
  SentimentBatch.matchBraces "} {" = None ∧
  SentimentBatch.matchCodeBlock "```json {x} ``` and ```" = Some "{x}" ∧
  SentimentBatch.matchCodeBlock "```json {x}" = None.
Proof. repeat split. Qed.

Example batch_size_samples :
  SentimentBatch.getOptimalBatchSize ["great product"; "awful support"] = JsNum.Fin 10 ∧
  SentimentBatch.getOptimalBatchSize [EmptyString] = JsNum.Fin 10 ∧
  SentimentBatch.getOptimalBatchSize
    [string_of_list_ascii (repeat "a"%char (Z.to_nat 9000))] = JsNum.Fin 5 ∧
  SentimentBatchWide.getOptimalBatchSize
    [string_of_list_ascii (repeat "a"%char (Z.to_nat 2000))] = JsNum.Fin 20.
Proof. vm_compute. repeat split. Qed.

(* ===================================================================== *)
(** * Further properties of the modelled code *)
(* ===================================================================== *)

(** ** The cache as a store *)

Section CacheStoreFacts.
Context {T : Type}.
Implicit Types (c : SimpleCache.t T) (k : string) (v : T).

Lemma cache_lookup_cleanup c now k :
  SimpleCache.cache (SimpleCache.cleanup c now) !! k =
  match SimpleCache.cache c !! k with
  | Some item => if now >? SimpleCache.expiry item then None else Some item
  | None => None
  end.
Proof.
  unfold SimpleCache.cleanup; simpl.
  destruct (SimpleCache.cache c !! k) as [item |] eqn:E.
  - destruct (Z.gtb_spec now (SimpleCache.expiry item)).
    + apply map_lookup_filter_None. right. intros x Hx. rewrite E in Hx.
      injection Hx as <-. simpl. lia.
    + apply map_lookup_filter_Some. split; [exact E |]. simpl. lia.
  - apply map_lookup_filter_None. left. exact E.
Qed.

Lemma cache_lookup_after_get c now k k' :
  SimpleCache.cache (snd (SimpleCache.get c now k)) !! k' =
  match SimpleCache.cache c !! k' with
  | Some item =>
      if decide (k = k') then
        if now >? SimpleCache.expiry item then None else Some item
      else Some item
  | None => None
  end.
Proof.
  unfold SimpleCache.get.
  destruct (SimpleCache.cache c !! k) as [item |] eqn:E.
  - destruct (now >? SimpleCache.expiry item) eqn:Hexp; simpl.
    + destruct (decide (k = k')) as [<- | Hne].
      * rewrite lookup_delete_eq, E, Hexp. reflexivity.
      * rewrite lookup_delete_ne by done. destruct (_ !! k'); reflexivity.
    + destruct (decide (k = k')) as [<- | Hne].
      * rewrite E, Hexp. reflexivity.
      * destruct (_ !! k'); reflexivity.
  - simpl. destruct (decide (k = k')) as [<- | Hne].
    + rewrite E. reflexivity.
    + destruct (_ !! k'); reflexivity.
Qed.

(** What a read returns is decided by the entry under the key. *)
Lemma cache_read_lookup c t k :
  SimpleCache.read c t k =
  match SimpleCache.cache c !! k with
  | Some item => if t >? SimpleCache.expiry item then None else Some (SimpleCache.value item)
  | None => None
  end.
Proof.
  unfold SimpleCache.read, SimpleCache.get.
  destruct (SimpleCache.cache c !! k) as [item |]; [| reflexivity].
  destruct (t >? SimpleCache.expiry item); reflexivity.
Qed.

(** Eviction is invisible.  A [get] never returns a value whose expiry
    instant has passed.  The sweep keeps exactly the entries that have not
    expired, and neither the sweep nor the lazy eviction of a [get] changes
    what any later read returns. *)
Theorem cache_eviction_is_invisible c now :
  (∀ k v, SimpleCache.read c now k = Some v →
          ∃ item, SimpleCache.cache c !! k = Some item ∧
                  SimpleCache.value item = v ∧ now <= SimpleCache.expiry item) ∧
  (∀ k item, SimpleCache.cache (SimpleCache.cleanup c now) !! k = Some item ↔
             SimpleCache.cache c !! k = Some item ∧ now <= SimpleCache.expiry item) ∧
  (∀ t k, now <= t →
          SimpleCache.read (SimpleCache.cleanup c now) t k = SimpleCache.read c t k) ∧
  (∀ t k k', now <= t →
          SimpleCache.read (snd (SimpleCache.get c now k)) t k' = SimpleCache.read c t k').
Proof.
  split; [| split; [| split]].
  - intros k v. rewrite cache_read_lookup.
    destruct (SimpleCache.cache c !! k) as [item |]; [| discriminate].
    destruct (Z.gtb_spec now (SimpleCache.expiry item)); [discriminate |].
    intros [= <-]. exists item. split; [reflexivity |]. split; [reflexivity | lia].
  - intros k item. rewrite cache_lookup_cleanup.
    destruct (SimpleCache.cache c !! k) as [item' |].
    + destruct (Z.gtb_spec now (SimpleCache.expiry item')).
      * split; [discriminate |]. intros [[= ->] ?]. lia.
      * split; [intros [= ->]; split; [reflexivity | lia] | intros [Hi _]; exact Hi].
    + split; [discriminate | intros [[=] _]].
  - intros t k Ht. rewrite !cache_read_lookup, cache_lookup_cleanup.
    destruct (SimpleCache.cache c !! k) as [item |]; [| reflexivity].
    destruct (Z.gtb_spec now (SimpleCache.expiry item)); [| reflexivity].
    destruct (Z.gtb_spec t (SimpleCache.expiry item)); [reflexivity | lia].
  - intros t k k' Ht. rewrite !cache_read_lookup, cache_lookup_after_get.
    destruct (SimpleCache.cache c !! k') as [item |]; [| reflexivity].
    destruct (decide (k = k')); [| reflexivity].
    destruct (Z.gtb_spec now (SimpleCache.expiry item)); [| reflexivity].
    destruct (Z.gtb_spec t (SimpleCache.expiry item)); [reflexivity | lia].
Qed.

(** The store laws.  A [set] leaves every other key as it was; a second
    [set] on the same key replaces value and expiry as if the first had not
    happened; after [delete] the key reads absent and the others are
    untouched; after [clear] every key reads absent and the size is 0. *)
Theorem cache_store_laws c now k v ttl :
  (∀ t k', k ≠ k' →
     SimpleCache.read (SimpleCache.set c now k v ttl) t k' = SimpleCache.read c t k') ∧
  (∀ now' v' ttl',
     SimpleCache.set (SimpleCache.set c now k v ttl) now' k v' ttl' =
     SimpleCache.set c now' k v' ttl') ∧
  (∀ t, SimpleCache.read (SimpleCache.delete (SimpleCache.set c now k v ttl) k) t k = None) ∧
  (∀ t k', k ≠ k' →
     SimpleCache.read (SimpleCache.delete c k) t k' = SimpleCache.read c t k') ∧
  (∀ t k', SimpleCache.read (SimpleCache.clear (SimpleCache.set c now k v ttl)) t k' = None) ∧
  SimpleCache.size (SimpleCache.clear (SimpleCache.set c now k v ttl)) = 0%nat.
Proof.
  split; [| split; [| split; [| split; [| split]]]].
  - intros t k' Hne. rewrite !cache_read_lookup. unfold SimpleCache.set; simpl.
    rewrite lookup_insert_ne by done. reflexivity.
  - intros now' v' ttl'. unfold SimpleCache.set; simpl. f_equal.
    apply insert_insert_eq.
  - intros t. rewrite cache_read_lookup. unfold SimpleCache.delete; simpl.
    rewrite lookup_delete_eq. reflexivity.
  - intros t k' Hne. rewrite !cache_read_lookup. unfold SimpleCache.delete; simpl.
    rewrite lookup_delete_ne by done. reflexivity.
  - intros t k'. rewrite cache_read_lookup. unfold SimpleCache.clear; simpl.
    rewrite lookup_empty. reflexivity.
  - unfold SimpleCache.size, SimpleCache.clear; simpl. apply map_size_empty.
Qed.

End CacheStoreFacts.

(** ** Selection and bookkeeping of the rotator *)

Section RotatorSelectionFacts.
Import ModelRotator.
Implicit Types (r : ModelRotator.t) (id : string) (st : ModelStats).

Lemma rot_modelAt_is_Some r j : modelList r ≠ [] → is_Some (modelAt r j).
Proof.
  intros Hne. unfold modelAt. apply lookup_lt_is_Some.
  apply Nat.mod_upper_bound. destruct (modelList r); [done | simpl; lia].
Qed.

(** The loop over the offsets [a, a + len): it stops at the first offset
    whose model qualifies. *)
Lemma rot_scan_first r now len : ∀ a i m,
  ready r → (a ≤ i < a + len)%nat →
  modelAt r i = Some m → qualifiesNow r now m = true →
  (∀ j m', (a ≤ j < i)%nat → modelAt r j = Some m' → qualifiesNow r now m' = false) →
  scan r now (seq a len) =
    Some (m, ((((currentIndex r + i) mod length (modelList r)) + 1)
               mod length (modelList r))%nat).
Proof.
  induction len as [| len IH]; intros a i m Hready Hi Hm Hq Hbefore; [lia |].
  destruct Hready as [Hne Hall]. simpl.
  destruct (rot_modelAt_is_Some r a Hne) as [ma Hma]. unfold modelAt in Hma. rewrite Hma.
  destruct (Hall ma) as [sta Hsta].
  { apply list_elem_of_lookup. eauto. }
  unfold stats_of in Hsta. rewrite Hsta.
  destruct (decide (a = i)) as [-> | Hai].
  - unfold modelAt in Hm. rewrite Hma in Hm. injection Hm as ->.
    unfold qualifiesNow, stats_of in Hq. rewrite Hsta in Hq. rewrite Hq. reflexivity.
  - assert (qualifies sta now = false) as Hnq.
    { specialize (Hbefore a ma ltac:(lia) Hma).
      unfold qualifiesNow, stats_of in Hbefore. rewrite Hsta in Hbefore. exact Hbefore. }
    rewrite Hnq. apply (IH (S a) i m); [split; assumption | lia | assumption | assumption |].
    intros j m' Hj. apply Hbefore. lia.
Qed.

Lemma rot_scan_none r now len : ∀ a,
  ready r → (∀ m, m ∈ modelList r → qualifiesNow r now m = false) →
  scan r now (seq a len) = None.
Proof.
  induction len as [| len IH]; intros a Hready Hnone; [reflexivity |].
  pose proof Hready as [Hne Hall]. simpl.
  destruct (rot_modelAt_is_Some r a Hne) as [ma Hma]. unfold modelAt in Hma. rewrite Hma.
  assert (ma ∈ modelList r) as Hin by (apply list_elem_of_lookup; eauto).
  destruct (Hall ma Hin) as [sta Hsta]. unfold stats_of in Hsta. rewrite Hsta.
  specialize (Hnone ma Hin) as Hq. unfold qualifiesNow, stats_of in Hq.
  rewrite Hsta in Hq. rewrite Hq. apply IH; assumption.
Qed.

(** The scanning loop finds the first model that qualifies. *)
Lemma rot_selection_order r now i m
    (Hready : ready r)
    (Hi : (i < length (modelList r))%nat)
    (Hm : modelAt r i = Some m)
    (Hq : qualifiesNow r now m = true)
    (Hfirst : ∀ j m', (j < i)%nat → modelAt r j = Some m' → qualifiesNow r now m' = false) :
  getNextModel r now =
    (Some m,
     {| models := models r;
        currentIndex :=
          ((((currentIndex r + i) mod length (modelList r)) + 1)
             mod length (modelList r))%nat;
        modelList := modelList r |}).
Proof.
  unfold getNextModel.
  rewrite (rot_scan_first r now (length (modelList r)) 0%nat i m Hready ltac:(lia) Hm Hq).
  - reflexivity.
  - intros j m' Hj. apply Hfirst. lia.
Qed.

(** When no model qualifies, the fallback loop decides. *)
Lemma rot_fallback_least_errors r now
    (Hready : ready r)
    (Hnone : ∀ m, m ∈ modelList r → qualifiesNow r now m = false) :
  ∃ m st,
    getNextModel r now = (Some m, r) ∧
    (m, st) ∈ models r ∧
    ∀ m' st', (m', st') ∈ models r → (recentErrors st <= recentErrors st')%Q.
Proof.
  unfold getNextModel. rewrite (rot_scan_none r now _ 0%nat Hready Hnone).
  assert (models r ≠ []) as Hnil.
  { destruct Hready as [Hne Hall]. destruct (modelList r) as [| m0 l] eqn:E; [done |].
    destruct (Hall m0 ltac:(left)) as [st0 H0]. unfold stats_of in H0.
    destruct (models r); [discriminate | done]. }
  destruct (rot_leastErrors_spec r Hnil) as (k & st & Hk & Hin & Hmin).
  exists k, st. rewrite Hk. split; [reflexivity |]. split; [exact Hin |].
  intros m' st' Hin'. apply (Hmin (m', st') Hin').
Qed.

(** Selection.  [getNextModel] returns the first model, in list order
    starting at [currentIndex] and wrapping around, that is available and
    past its cooldown; it moves [currentIndex] just past that model and
    leaves the statistics alone.  When no listed model is both available
    and past its cooldown, it still returns a model: one whose recent-error
    count no model undercuts; and it changes nothing, [currentIndex]
    included. *)
Theorem rotator_selection r now (Hready : ready r) :
  (∀ i m,
     (i < length (modelList r))%nat →
     modelAt r i = Some m → qualifiesNow r now m = true →
     (∀ j m', (j < i)%nat → modelAt r j = Some m' → qualifiesNow r now m' = false) →
     getNextModel r now =
       (Some m,
        {| models := models r;
           currentIndex :=
             ((((currentIndex r + i) mod length (modelList r)) + 1)
                mod length (modelList r))%nat;
           modelList := modelList r |})) ∧
  ((∀ m, m ∈ modelList r → qualifiesNow r now m = false) →
   ∃ m st,
     getNextModel r now = (Some m, r) ∧
     (m, st) ∈ models r ∧
     ∀ m' st', (m', st') ∈ models r → (recentErrors st <= recentErrors st')%Q).
Proof.
  split.
  - intros i m Hi Hm Hq Hfirst. apply rot_selection_order; assumption.
  - intros Hnone. apply rot_fallback_least_errors; assumption.
Qed.

Lemma rot_run_modelList es : ∀ r, modelList (run r es) = modelList r.
Proof.
  induction es as [| e es IH]; intros r; simpl; [reflexivity |].
  rewrite IH. destruct e as [m success now |]; simpl; [| reflexivity].
  unfold recordRequest. destruct (JsMap.get (models r) m); reflexivity.
Qed.

Lemma rot_run_keys es : ∀ r, JsMap.keys (models (run r es)) = JsMap.keys (models r).
Proof.
  induction es as [| e es IH]; intros r; simpl; [reflexivity |].
  rewrite IH. destruct e as [m success now |]; simpl.
  - apply rot_keys_record.
  - apply jsmap_keys_map.
Qed.

Lemma rot_ready_run es : ∀ r, ready r → ready (run r es).
Proof.
  induction es as [| e es IH]; intros r H; simpl; [exact H |].
  apply IH, rot_ready_step, H.
Qed.

Lemma rot_new_keys_listed names k :
  k ∈ JsMap.keys (models (new names)) → k ∈ names.
Proof.
  unfold new; simpl.
  assert (∀ acc, (∀ k, k ∈ JsMap.keys acc → k ∈ names) →
          ∀ l, (∀ k, k ∈ l → k ∈ names) →
          ∀ k, k ∈ JsMap.keys (fold_left (fun m name => JsMap.set m name fresh) l acc) →
               k ∈ names) as H.
  { intros acc Hacc l. revert acc Hacc.
    induction l as [| n l IH]; intros acc Hacc Hl k0 Hk0; simpl in Hk0; [auto |].
    apply (IH (JsMap.set acc n fresh)); [| intros; apply Hl; right; assumption | exact Hk0].
    intros k1 Hk1. clear -Hk1 Hacc Hl.
    unfold JsMap.keys in *. induction acc as [| [k' v'] acc IHacc]; simpl in *.
    - apply list_elem_of_singleton in Hk1 as ->. apply Hl. left.
    - destruct (String.eqb k' n); simpl in Hk1.
      + apply Hacc. exact Hk1.
      + apply elem_of_cons in Hk1 as [-> | Hk1]; [apply Hacc; left |].
        apply IHacc; [| exact Hk1]. intros k2 Hk2. apply Hacc. right. exact Hk2. }
  apply (H [] ltac:(intros ? Hx; inversion Hx) names ltac:(auto)).
Qed.

(** The rotator never refuses and never invents.  Built from a non-empty
    list, after any history of recorded requests and decay ticks, at any
    instant, [getNextModel] returns one of the configured models. *)
Theorem rotator_returns_configured_model names es now (Hne : names ≠ []) :
  ∃ m, fst (getNextModel (run (new names) es) now) = Some m ∧ m ∈ names.
Proof.
  set (r := run (new names) es).
  assert (ready r) as Hready by (apply rot_ready_run, rot_ready_new, Hne).
  assert (modelList r = names) as Hlist by (unfold r; rewrite rot_run_modelList; reflexivity).
  unfold getNextModel.
  destruct (scan r now _) as [[model next] |] eqn:Hscan; simpl.
  - exists model. split; [reflexivity |].
    clear -Hscan Hlist. revert Hscan. generalize (seq 0 (length (modelList r))).
    intros l. induction l as [| i l IH]; simpl; [discriminate |].
    destruct (modelList r !! _) as [m |] eqn:Hm; [| discriminate].
    destruct (JsMap.get (models r) m); [| discriminate].
    destruct (qualifies _ now); [| exact IH].
    intros [= <- _]. rewrite <- Hlist. apply list_elem_of_lookup. eauto.
  - assert (models r ≠ []) as Hnil.
    { destruct Hready as [Hne' Hall]. destruct (modelList r) as [| m0 l]; [done |].
      destruct (Hall m0 ltac:(left)) as [st0 H0]. unfold stats_of in H0.
      destruct (models r); [discriminate | done]. }
    destruct (rot_leastErrors_spec r Hnil) as (k & st & Hk & Hin & _).
    exists k. split; [exact Hk |]. apply rot_new_keys_listed.
    unfold r in Hin. rewrite <- (rot_run_keys es (new names)).
    apply list_elem_of_fmap. exists (k, st). split; [reflexivity | exact Hin].
Qed.

Lemma rot_Qle_bool_false a b : Qle_bool a b = false → (b < a)%Q.
Proof.
  intros H. apply Qnot_le_lt. intros Hle. apply Qle_bool_iff in Hle. congruence.
Qed.

Ltac qle_cases :=
  repeat match goal with
         | |- context [Qle_bool ?a ?b] =>
             let E := fresh "E" in
             destruct (Qle_bool a b) eqn:E;
             [apply Qle_bool_iff in E | apply rot_Qle_bool_false in E]
         end.

Lemma rot_run_repeat_failures id t n : ∀ r st,
  stats_of r id = Some st →
  ∃ st', stats_of (run r (repeat (Recorded id false t) n)) id = Some st' ∧
         (recentErrors st' == recentErrors st + inject_Z (Z.of_nat n))%Q ∧
         isAvailable st' =
           (isAvailable st &&
            match n with
            | O => true
            | S _ => negb (Qle_bool 3 (recentErrors st + inject_Z (Z.of_nat n)))
            end).
Proof.
  induction n as [| n IH]; intros r st Hst.
  - exists st. simpl. split; [exact Hst |]. split; [| rewrite andb_true_r; reflexivity].
    unfold inject_Z. ring.
  - simpl repeat. simpl run.
    destruct (IH _ _ (rot_stats_record_same r id st false t Hst)) as (st' & Hst' & Hre & Hav).
    exists st'. split; [exact Hst' |]. simpl in Hre, Hav.
    assert (inject_Z (Z.of_nat (S n)) == inject_Z (Z.of_nat n) + 1)%Q as Hn.
    { rewrite Nat2Z.inj_succ, <- Z.add_1_r, inject_Z_plus. reflexivity. }
    assert (0 <= inject_Z (Z.of_nat n))%Q as Hq by (unfold Qle, inject_Z; simpl; lia).
    split; [rewrite Hre, Hn; ring |].
    rewrite Hav. clear Hav Hre Hst' IH.
    destruct n as [| n'].
    + change (inject_Z (Z.of_nat 0)) with 0%Q in *.
      destruct (isAvailable st); simpl; qle_cases; try reflexivity; exfalso; lra.
    + destruct (isAvailable st); simpl; qle_cases; try reflexivity; exfalso; lra.
Qed.

(** The trip point.  Failures recorded in a row raise the count by one
    each, and the provider is marked unavailable exactly when the count
    reaches 3: from a clean record the first two failures leave it
    available and the third takes it out. *)
Theorem rotator_trips_at_three r id st t n
    (Hst : stats_of r id = Some st)
    (Hclean : (recentErrors st == 0)%Q)
    (Havailable : isAvailable st = true) :
  ∃ st', stats_of (run r (repeat (Recorded id false t) n)) id = Some st' ∧
         (recentErrors st' == inject_Z (Z.of_nat n))%Q ∧
         isAvailable st' = (n <? 3)%nat.
Proof.
  destruct (rot_run_repeat_failures id t n r st Hst) as (st' & Hst' & Hre & Hav).
  exists st'. split; [exact Hst' |]. split; [rewrite Hre, Hclean; ring |].
  rewrite Hav, Havailable. simpl.
  destruct n as [| n]; [reflexivity |].
  destruct (Nat.ltb_spec (S n) 3) as [Hlt | Hge].
  - apply negb_true_iff. destruct (Qle_bool 3 _) eqn:E; [| reflexivity].
    apply Qle_bool_iff in E. rewrite Hclean in E.
    assert (inject_Z (Z.of_nat (S n)) <= 2)%Q by (unfold Qle, inject_Z; simpl; lia).
    lra.
  - apply negb_false_iff. apply Qle_bool_iff. rewrite Hclean.
    assert (3 <= inject_Z (Z.of_nat (S n)))%Q by (unfold Qle, inject_Z; simpl; lia).
    lra.
Qed.

Lemma rot_run_bookkeeping id es : ∀ r st,
  stats_of r id = Some st →
  ∃ st', stats_of (run r es) id = Some st' ∧
         requestCount st' = requestCount st + requestsOf id es ∧
         lastRequestTime st' = lastRequestOf id (lastRequestTime st) es.
Proof.
  induction es as [| e es IH]; intros r st Hst.
  - exists st. simpl. split; [exact Hst |]. split; [lia | reflexivity].
  - destruct e as [m success now |]; simpl.
    + destruct (String.eqb_spec m id) as [-> | Hne].
      * destruct (IH _ _ (rot_stats_record_same r id st success now Hst))
          as (st' & Hst' & Hcount & Hlast).
        exists st'. split; [exact Hst' |].
        destruct success; simpl in Hcount, Hlast; split; (lia || exact Hlast).
      * apply (IH (recordRequest r m success now) st).
        rewrite rot_stats_record_other by done. exact Hst.
    + destruct (IH (decayTick r) (decay st)) as (st' & Hst' & Hcount & Hlast).
      { rewrite rot_stats_decay, Hst. reflexivity. }
      exists st'. split; [exact Hst' |]. split; assumption.
Qed.

(** Bookkeeping.  In a rotator built by the constructor, after any history,
    every configured model has statistics whose [requestCount] is the number
    of requests recorded for it and whose [lastRequestTime] is the instant
    of the last one (0 when there was none); decay ticks and requests
    recorded for other or unknown models do not touch them; no count is
    negative and no model appears twice. *)
Theorem rotator_bookkeeping names es id (Hin : id ∈ names) :
  wf (run (new names) es) ∧
  ∃ st, stats_of (run (new names) es) id = Some st ∧
        requestCount st = requestsOf id es ∧
        lastRequestTime st = lastRequestOf id 0 es ∧
        (0 <= recentErrors st)%Q.
Proof.
  pose proof (rot_wf_run es _ (rot_wf_new names)) as Hwf.
  split; [exact Hwf |].
  assert (names ≠ []) as Hne by (intros ->; inversion Hin).
  destruct (rot_ready_new names Hne) as [_ Hall].
  destruct (Hall id Hin) as [st0 Hst0].
  assert (st0 = fresh) as ->.
  { apply jsmap_get_In in Hst0. unfold new in Hst0; simpl in Hst0.
    assert (∀ l acc, Forall (fun kv : string * ModelStats => snd kv = fresh) acc →
            Forall (fun kv : string * ModelStats => snd kv = fresh)
                   (fold_left (fun m name => JsMap.set m name fresh) l acc)) as H.
    { clear. induction l as [| n l IH]; intros acc Hacc; simpl; [exact Hacc |].
      apply IH. apply jsmap_Forall_set; [reflexivity | exact Hacc]. }
    specialize (H names [] ltac:(constructor)). rewrite Forall_forall in H.
    apply (H _ Hst0). }
  destruct (rot_run_bookkeeping id es _ _ Hst0) as (st & Hst & Hcount & Hlast).
  exists st. split; [exact Hst |]. split; [simpl in Hcount; lia |].
  split; [exact Hlast |].
  destruct Hwf as [_ Hnn]. rewrite Forall_forall in Hnn.
  apply (Hnn (id, st)). apply jsmap_get_In. exact Hst.
Qed.

End RotatorSelectionFacts.

Lemma rot_ready_quarantined : ModelRotator.ready ModelRotator.quarantined.
Proof.
  apply (rot_ready_run
           [ModelRotator.Recorded "A" false 1; ModelRotator.Recorded "A" false 2;
            ModelRotator.Recorded "A" false 3] ModelRotator.twoProviders).
  apply rot_ready_new. discriminate.
Qed.

Lemma rotator_selection_witness :
  ModelRotator.getNextModel ModelRotator.quarantined 5000 =
    (Some "B",
     {| ModelRotator.models := ModelRotator.models ModelRotator.quarantined;
        ModelRotator.currentIndex := 0;
        ModelRotator.modelList := ["A"; "B"] |}) ∧
  ∃ m st,
    ModelRotator.getNextModel ModelRotator.quarantined 500 =
      (Some m, ModelRotator.quarantined) ∧
    (m, st) ∈ ModelRotator.models ModelRotator.quarantined ∧
    ∀ m' st', (m', st') ∈ ModelRotator.models ModelRotator.quarantined →
              (ModelRotator.recentErrors st <= ModelRotator.recentErrors st')%Q.
Proof.
  split.
  - apply (proj1 (rotator_selection ModelRotator.quarantined 5000 rot_ready_quarantined)
             1%nat "B").
    + simpl. lia.
    + reflexivity.
    + reflexivity.
    + intros j m' Hj Hm'. assert (j = 0%nat) as -> by lia.
      vm_compute in Hm'. injection Hm' as <-. reflexivity.
  - apply (proj2 (rotator_selection ModelRotator.quarantined 500 rot_ready_quarantined)).
    intros m Hm. apply list_elem_of_In in Hm. simpl in Hm.
    destruct Hm as [<- | [<- | []]]; reflexivity.
Defined.

Lemma rotator_returns_configured_model_witness :
  ∃ m, fst (ModelRotator.getNextModel
              (ModelRotator.run (ModelRotator.new ["A"; "B"])
                 [ModelRotator.Recorded "A" false 1; ModelRotator.DecayTick;
                  ModelRotator.Recorded "C" true 2]) 7) = Some m ∧
       m ∈ ["A"; "B"].
Proof.
  apply (rotator_returns_configured_model ["A"; "B"]). discriminate.
Defined.

Lemma rotator_trips_at_three_witness :
  ∃ st', ModelRotator.stats_of
           (ModelRotator.run ModelRotator.twoProviders
              (repeat (ModelRotator.Recorded "A" false 1) 3)) "A" = Some st' ∧
         (ModelRotator.recentErrors st' == 3)%Q ∧
         ModelRotator.isAvailable st' = false.
Proof.
  apply (rotator_trips_at_three ModelRotator.twoProviders "A" ModelRotator.fresh 1 3).
  - reflexivity.
  - reflexivity.
  - reflexivity.
Defined.

Lemma rotator_bookkeeping_witness :
  ModelRotator.wf ModelRotator.tied ∧
  ∃ st, ModelRotator.stats_of ModelRotator.tied "A" = Some st ∧
        ModelRotator.requestCount st = 5 ∧
        ModelRotator.lastRequestTime st = 4 ∧
        (0 <= ModelRotator.recentErrors st)%Q.
Proof.
  apply (rotator_bookkeeping ["A"; "B"]
           [ModelRotator.Recorded "A" false 1; ModelRotator.Recorded "A" false 2;
            ModelRotator.Recorded "A" false 3;
            ModelRotator.Recorded "A" true 4; ModelRotator.Recorded "A" true 4;
            ModelRotator.Recorded "B" false 5000; ModelRotator.Recorded "B" false 5000]
           "A").
  left.
Defined.

(** ** Invariants of the rate-limited queue *)

Section QueueInvariantFacts.
Context {V : Type}.
Import RateLimiter.
Implicit Types (st : RateLimiter.t V) (item : QueueItem V).

Lemma queue_fold_unshift (l q : list (QueueItem V)) :
  fold_left unshift l q = rev l ++ q.
Proof.
  revert q. induction l as [| x l IH]; intros q; simpl; [reflexivity |].
  rewrite IH. unfold unshift. rewrite <- app_assoc. reflexivity.
Qed.

Lemma queue_insertTimer_perm (x : Z * QueueItem V) l : insertTimer x l ≡ₚ x :: l.
Proof.
  induction l as [| y l IH]; simpl; [reflexivity |].
  destruct (fst x <? fst y); [reflexivity |].
  rewrite IH. apply Permutation_swap.
Qed.

Lemma queue_firingOrder_perm (l : list (Z * QueueItem V)) : firingOrder l ≡ₚ l.
Proof.
  unfold firingOrder.
  assert (∀ acc, fold_left (fun acc x => insertTimer x acc) l acc ≡ₚ l ++ acc) as H.
  { induction l as [| x l IH]; intros acc; simpl; [reflexivity |].
    rewrite IH, queue_insertTimer_perm. symmetry. apply Permutation_middle. }
  rewrite H, app_nil_r. reflexivity.
Qed.

(** The clock moving forward settles nothing and loses nothing: the items
    whose timer fires move from the timers to the queue. *)
Lemma queue_waiting_advance st dt : waiting (advance st dt) ≡ₚ waiting st.
Proof.
  unfold waiting, advance; simpl.
  rewrite queue_fold_unshift, map_app, map_rev, <- Permutation_rev, map_map.
  rewrite queue_firingOrder_perm.
  rewrite <- (filter_app_complement (fun x => fst x <= now st + dt) (timers st)) at 3.
  rewrite map_app.
  rewrite <- !app_assoc. apply Permutation_app_swap_app.
Qed.

Lemma queue_settled_advance st dt : settled (advance st dt) = settled st.
Proof. reflexivity. Qed.

Lemma queue_conserved_runHead st :
  waiting (runHead st) ++ settledIds (runHead st) ≡ₚ waiting st ++ settledIds st.
Proof.
  unfold runHead. destruct (queue st) as [| item rest] eqn:Hq; [reflexivity |].
  destruct (fn item (retries item)) as [latency outcome].
  assert (waiting (advance (dequeue st rest) latency) ≡ₚ
          map id rest ++ map (fun x => id (snd x)) (timers st)) as Hw
    by (rewrite queue_waiting_advance; reflexivity).
  assert (waiting st = id item :: map id rest ++ map (fun x => id (snd x)) (timers st))
    as -> by (unfold waiting; rewrite Hq; reflexivity).
  destruct outcome as [v | error].
  - unfold settledIds. rewrite queue_settled_advance, queue_waiting_advance.
    change (waiting (settle ?s _ _)) with (waiting s). rewrite Hw. simpl.
    rewrite map_app. simpl.
    rewrite (Permutation_app_comm (map fst (settled st)) [id item]). simpl.
    rewrite <- Permutation_middle. reflexivity.
  - destruct (onError (options st) item error) as [item' delay | e] eqn:Hon.
    + assert (id item' = id item) as Hid.
      { unfold onError in Hon. destruct (_ && _); [| discriminate].
        injection Hon as <- _. reflexivity. }
      unfold settledIds. cbn [settled schedule].
      unfold waiting at 1. cbn [queue timers schedule].
      rewrite map_app. simpl. rewrite Hid.
      fold (waiting (advance (dequeue st rest) latency)).
      unfold waiting in Hw.
      rewrite app_assoc, Hw. simpl.
      rewrite <- !app_assoc. simpl.
      rewrite <- !Permutation_middle. reflexivity.
    + unfold settledIds. cbn [settled settle].
      change (waiting (settle ?s _ _)) with (waiting s). rewrite Hw.
      rewrite map_app. simpl.
      rewrite (Permutation_app_comm (map fst (settled st)) [id item]). simpl.
      rewrite <- Permutation_middle. reflexivity.
Qed.

Lemma queue_conserved_loopIter st :
  waiting (loopIter st) ++ settledIds (loopIter st) ≡ₚ waiting st ++ settledIds st.
Proof.
  unfold loopIter.
  destruct (perSecond st >=? _); [| destruct (perMinute st >=? _)].
  - unfold settledIds. rewrite queue_waiting_advance. reflexivity.
  - unfold settledIds. rewrite queue_waiting_advance. reflexivity.
  - apply queue_conserved_runHead.
Qed.

Lemma queue_conserved_drain fuel : ∀ st,
  waiting (drain fuel st) ++ settledIds (drain fuel st) ≡ₚ waiting st ++ settledIds st.
Proof.
  induction fuel as [| fuel IH]; intros st; simpl; [reflexivity |].
  destruct (queue st) as [| item rest] eqn:Hq.
  - destruct (firingOrder (timers st)) as [| [due item'] l]; [reflexivity |].
    rewrite IH. unfold settledIds. rewrite queue_waiting_advance. reflexivity.
  - rewrite IH, queue_conserved_loopIter. reflexivity.
Qed.

Lemma queue_settled_runHead st : settled st `prefix_of` settled (runHead st).
Proof.
  unfold runHead. destruct (queue st) as [| item rest]; [reflexivity |].
  destruct (fn item (retries item)) as [latency [v | error]].
  - rewrite queue_settled_advance. simpl. apply prefix_app_r. reflexivity.
  - destruct (onError _ _ _); simpl; [reflexivity | apply prefix_app_r; reflexivity].
Qed.

Lemma queue_settled_loopIter st : settled st `prefix_of` settled (loopIter st).
Proof.
  unfold loopIter.
  destruct (perSecond st >=? _); [| destruct (perMinute st >=? _)];
    [reflexivity | reflexivity | apply queue_settled_runHead].
Qed.

Lemma queue_settled_drain fuel : ∀ st, settled st `prefix_of` settled (drain fuel st).
Proof.
  induction fuel as [| fuel IH]; intros st; simpl; [reflexivity |].
  destruct (queue st) as [| item rest].
  - destruct (firingOrder (timers st)) as [| [due item'] l]; [reflexivity |].
    etransitivity; [| apply IH]. reflexivity.
  - etransitivity; [| apply IH]. apply (queue_settled_loopIter (withProcessing st true)).
Qed.

(** Conservation.  However long the event loop runs, every promise is
    accounted for: the open promises and the settled ones together are the
    same as at the start, and what was settled stays settled, in order;
    the loop only appends. *)
Theorem queue_promises_conserved fuel st :
  waiting (drain fuel st) ++ settledIds (drain fuel st) ≡ₚ waiting st ++ settledIds st ∧
  settled st `prefix_of` settled (drain fuel st).
Proof. split; [apply queue_conserved_drain | apply queue_settled_drain]. Qed.

(** At most once.  When the items have distinct ids, no promise is settled
    twice, and an item whose promise is settled is neither queued nor
    waiting for a retry any more. *)
Theorem queue_settles_at_most_once fuel st
    (Hdistinct : NoDup (waiting st ++ settledIds st)) :
  NoDup (settledIds (drain fuel st)) ∧
  ∀ i, i ∈ settledIds (drain fuel st) → i ∉ waiting (drain fuel st).
Proof.
  rewrite <- (queue_conserved_drain fuel st) in Hdistinct.
  apply NoDup_app in Hdistinct as (_ & Hsep & Hnd).
  split; [exact Hnd |]. intros i Hi Hw. exact (Hsep i Hw Hi).
Qed.

Lemma queue_options_advance st dt : options (advance st dt) = options st.
Proof. reflexivity. Qed.

Lemma queue_options_runHead st : options (runHead st) = options st.
Proof.
  unfold runHead. destruct (queue st) as [| item rest]; [reflexivity |].
  destruct (fn item (retries item)) as [latency [v | error]]; [reflexivity |].
  destruct (onError _ _ _); reflexivity.
Qed.

Lemma queue_options_loopIter st : options (loopIter st) = options st.
Proof.
  unfold loopIter.
  destruct (perSecond st >=? _); [| destruct (perMinute st >=? _)];
    [reflexivity | reflexivity | apply queue_options_runHead].
Qed.

Lemma queue_options_drain fuel : ∀ st, options (drain fuel st) = options st.
Proof.
  induction fuel as [| fuel IH]; intros st; simpl; [reflexivity |].
  destruct (queue st) as [| item rest].
  - destruct (firingOrder (timers st)) as [| [due item'] l]; [reflexivity |].
    rewrite IH. reflexivity.
  - rewrite IH, queue_options_loopIter. reflexivity.
Qed.

Lemma queue_items_advance st dt :
  queue (advance st dt) ++ map snd (timers (advance st dt)) ≡ₚ
  queue st ++ map snd (timers st).
Proof.
  unfold advance; simpl.
  rewrite queue_fold_unshift, <- Permutation_rev, queue_firingOrder_perm.
  rewrite <- (filter_app_complement (fun x => fst x <= now st + dt) (timers st)) at 3.
  rewrite map_app, <- !app_assoc. apply Permutation_app_swap_app.
Qed.

Lemma queue_withinRetries_advance st dt : withinRetries st → withinRetries (advance st dt).
Proof.
  intros [Hitems Hlines]. split; [| exact Hlines].
  rewrite queue_items_advance. exact Hitems.
Qed.

Lemma queue_withinRetries_runHead st : withinRetries st → withinRetries (runHead st).
Proof.
  intros [Hitems Hlines]. unfold runHead.
  destruct (queue st) as [| item rest] eqn:Hq; [split; [rewrite Hq |]; assumption |].
  simpl in Hitems. apply Forall_cons in Hitems as [Hitem Hrest].
  destruct (fn item (retries item)) as [latency outcome].
  assert (withinRetries (advance (dequeue st rest) latency)) as H2
    by (apply queue_withinRetries_advance; split; assumption).
  destruct outcome as [v | error].
  - apply queue_withinRetries_advance. exact H2.
  - destruct (onError (options st) item error) as [item' delay | e] eqn:Hon; [| exact H2].
    unfold onError in Hon.
    destruct (isRateLimitError error); simpl in Hon; [| discriminate].
    destruct (Z.ltb_spec (Z.of_nat (retries item)) (maxRetries (options st)));
      [| discriminate].
    injection Hon as <- <-. destruct H2 as [H2items H2lines].
    split; cbn [queue timers console options schedule] in *.
    + rewrite map_app, app_assoc. apply Forall_app. split; [exact H2items |].
      repeat constructor. simpl. lia.
    + apply Forall_app. split; [exact H2lines |].
      repeat constructor; simpl; lia.
Qed.

Lemma queue_withinRetries_loopIter st : withinRetries st → withinRetries (loopIter st).
Proof.
  intros H. unfold loopIter.
  destruct (perSecond st >=? _); [| destruct (perMinute st >=? _)];
    [apply queue_withinRetries_advance, H | apply queue_withinRetries_advance, H
     | apply queue_withinRetries_runHead, H].
Qed.

(** The retry bound as an invariant of the event loop.  No item is ever
    retried more than [maxRetries] times, and every retry the loop logs
    names an attempt between 1 and [maxRetries] and the delay
    [retryDelay * backoffMultiplier ^ (attempt - 1)]. *)
Theorem queue_retries_bounded fuel st (Hwithin : withinRetries st) :
  withinRetries (drain fuel st).
Proof.
  revert st Hwithin. induction fuel as [| fuel IH]; intros st H; simpl; [exact H |].
  destruct (queue st) as [| item rest].
  - destruct (firingOrder (timers st)) as [| [due item'] l]; [exact H |].
    apply IH. apply (queue_withinRetries_advance (withProcessing st false)). exact H.
  - apply IH. apply (queue_withinRetries_loopIter (withProcessing st true)). exact H.
Qed.

Lemma queue_withinBudget_advance st dt : withinBudget st → withinBudget (advance st dt).
Proof.
  intros [H1 H2]. unfold withinBudget, advance; simpl.
  split; [destruct (_ <? _) | destruct (_ <? _)]; lia.
Qed.

Lemma queue_withinBudget_loopIter st : withinBudget st → withinBudget (loopIter st).
Proof.
  intros H. unfold loopIter.
  destruct (Z.geb_spec (perSecond st) (maxRequestsPerSecond (options st)));
    [apply queue_withinBudget_advance, H |].
  destruct (Z.geb_spec (perMinute st) (maxRequestsPerMinute (options st)));
    [apply queue_withinBudget_advance, H |].
  unfold runHead. destruct (queue st) as [| item rest]; [exact H |].
  destruct (fn item (retries item)) as [latency outcome].
  assert (withinBudget (advance (dequeue st rest) latency)) as H2.
  { apply queue_withinBudget_advance. destruct H as [Hs Hm].
    unfold withinBudget; simpl. lia. }
  destruct outcome as [v | error].
  - apply queue_withinBudget_advance. exact H2.
  - destruct (onError _ _ _); exact H2.
Qed.

(** The budgets as an invariant of the event loop.  An operation is started
    only while both counters are below their budgets, so neither counter
    ever exceeds its budget. *)
Lemma queue_withinBudget_drain fuel st (Hwithin : withinBudget st) :
  withinBudget (drain fuel st).
Proof.
  revert st Hwithin. induction fuel as [| fuel IH]; intros st H; simpl; [exact H |].
  destruct (queue st) as [| item rest].
  - destruct (firingOrder (timers st)) as [| [due item'] l]; [exact H |].
    apply IH. apply (queue_withinBudget_advance (withProcessing st false)). exact H.
  - apply IH. apply (queue_withinBudget_loopIter (withProcessing st true)). exact H.
Qed.

Lemma queue_starved_advance st dt :
  0 <= perSecond st → 0 <= perSecond (advance st dt).
Proof. intros H. unfold advance; simpl. destruct (_ <? _); lia. Qed.

Lemma queue_advances_flag dts : ∀ st b,
  fold_left advance dts (withProcessing st b) =
  withProcessing (fold_left advance dts st) b.
Proof.
  induction dts as [| dt dts IH]; intros st b; simpl; [reflexivity |].
  rewrite <- IH. reflexivity.
Qed.

Lemma queue_advances_keep dts : ∀ st,
  settled (fold_left advance dts st) = settled st ∧
  console (fold_left advance dts st) = console st ∧
  queue (fold_left advance dts st) ++ map snd (timers (fold_left advance dts st)) ≡ₚ
    queue st ++ map snd (timers st).
Proof.
  induction dts as [| dt dts IH]; intros st; simpl; [done |].
  destruct (IH (advance st dt)) as (-> & -> & ->).
  split; [reflexivity |]. split; [reflexivity |]. apply queue_items_advance.
Qed.

(** A budget of zero starves the queue.  With [maxRequestsPerSecond] at 0
    or below, the loop only ever pauses: however long it runs, the state is
    the one the passing of time alone produces, apart from the
    [processing] flag.  So no operation is started: no promise is settled,
    no retry is logged, and the items, queued or in backoff, are the same
    with their retry counters untouched. *)
Theorem queue_zero_budget_starves fuel st
    (Hzero : maxRequestsPerSecond (options st) <= 0)
    (Hcount : 0 <= perSecond st) :
  (∃ dts, Forall (fun dt => 0 <= dt) dts ∧
          drain fuel st =
            withProcessing (fold_left advance dts st) (processing (drain fuel st))) ∧
  settled (drain fuel st) = settled st ∧
  console (drain fuel st) = console st ∧
  queue (drain fuel st) ++ map snd (timers (drain fuel st)) ≡ₚ
    queue st ++ map snd (timers st).
Proof.
  assert (∃ dts, Forall (fun dt => 0 <= dt) dts ∧
                 drain fuel st =
                   withProcessing (fold_left advance dts st)
                                  (processing (drain fuel st))) as Hpause.
  { revert st Hzero Hcount.
    induction fuel as [| fuel IH]; intros st Hzero Hcount.
    - exists []. split; [constructor |]. destruct st; reflexivity.
    - cbn [drain]. destruct (queue st) as [| item rest].
      + destruct (firingOrder (timers st)) as [| [due item'] l].
        * exists []. split; [constructor | reflexivity].
        * destruct (IH (advance (withProcessing st false) (Z.max 0 (due - now st))))
            as (dts & Hpos & Heq);
            [exact Hzero
            | apply (queue_starved_advance (withProcessing st false)); exact Hcount |].
          exists (Z.max 0 (due - now st) :: dts). split; [constructor; [lia | exact Hpos] |].
          rewrite Heq at 1. cbn [fold_left].
          change (advance (withProcessing st false) ?dt)
            with (withProcessing (advance st dt) false).
          rewrite queue_advances_flag. reflexivity.
      + unfold loopIter. cbn [perSecond options withProcessing].
        destruct (Z.geb_spec (perSecond st) (maxRequestsPerSecond (options st))); [| lia].
        destruct (IH (advance (withProcessing st true) 1000)) as (dts & Hpos & Heq);
          [exact Hzero
          | apply (queue_starved_advance (withProcessing st true)); exact Hcount |].
        exists (1000 :: dts). split; [constructor; [lia | exact Hpos] |].
        rewrite Heq at 1. cbn [fold_left].
        change (advance (withProcessing st true) ?dt)
          with (withProcessing (advance st dt) true).
        rewrite queue_advances_flag. reflexivity. }
  split; [exact Hpause |].
  destruct Hpause as (dts & _ & ->). cbn [settled console queue timers withProcessing].
  apply queue_advances_keep.
Qed.

(** [clearQueue] drops without settling.  It empties the queue and touches
    nothing else: a promise that is neither settled nor waiting for a retry
    timer at that moment, as are those of the items it drops, is never
    settled afterwards; and the timers are not cancelled, so an item in
    backoff is back in the queue once its delay is over. *)
Theorem queue_clear_drops_silently fuel st i
    (Htimer : i ∉ map (fun x => id (snd x)) (timers st))
    (Hopen : i ∉ settledIds st) :
  getQueueSize (clearQueue st) = 0%nat ∧
  (i ∉ settledIds (drain fuel (clearQueue st))) ∧
  ∀ due item dt, (due, item) ∈ timers st → due <= now st + dt →
                 item ∈ queue (advance (clearQueue st) dt).
Proof.
  split; [reflexivity |]. split.
  - intros Hi.
    assert (i ∈ waiting (drain fuel (clearQueue st)) ++
                settledIds (drain fuel (clearQueue st))) as H
      by (apply elem_of_app; right; exact Hi).
    rewrite queue_conserved_drain in H. unfold waiting in H. simpl in H.
    apply elem_of_app in H as [H | H]; [exact (Htimer H) | exact (Hopen H)].
  - intros due item dt Hin Hdue. unfold advance; simpl.
    rewrite queue_fold_unshift, app_nil_r.
    apply list_elem_of_In, in_rev. rewrite rev_involutive. apply list_elem_of_In.
    apply list_elem_of_fmap. exists (due, item). split; [reflexivity |].
    rewrite queue_firingOrder_perm. apply list_elem_of_filter. split; [exact Hdue | exact Hin].
Qed.

Lemma queue_drain_turn fuel st : drain (S fuel) st = drain fuel (turn st).
Proof.
  unfold turn. simpl. destruct (queue st) as [| item rest] eqn:Hq; [| reflexivity].
  destruct (firingOrder (timers st)) as [| [due item'] l] eqn:Hf; [| reflexivity].
  destruct fuel as [| fuel]; [reflexivity |]. simpl. rewrite Hq, Hf. reflexivity.
Qed.

Lemma queue_load_perm o (l l' : list (QueueItem V)) :
  l ≡ₚ l' → list_sum (map (callsLeft o) l) = list_sum (map (callsLeft o) l').
Proof.
  induction 1 as [| x l l' _ IH | x y l | l l' l'' _ IH1 _ IH2]; simpl; lia.
Qed.

Lemma queue_load_advance st dt : load (advance st dt) = load st.
Proof. unfold load. rewrite queue_options_advance. apply queue_load_perm, queue_items_advance. Qed.

Lemma queue_nonempty_advance st dt : queue st ≠ [] → queue (advance st dt) ≠ [].
Proof.
  intros H. unfold advance; simpl. rewrite queue_fold_unshift.
  destruct (queue st); [done |]. intros Happ. apply app_eq_nil in Happ as [_ ?]. done.
Qed.

(** Within budget, a turn calls the head item, and the load goes down. *)
Lemma queue_load_runHead st :
  queue st ≠ [] → (load (runHead st) < load st)%nat.
Proof.
  intros Hne. unfold runHead. destruct (queue st) as [| item rest] eqn:Hq; [done |].
  destruct (fn item (retries item)) as [latency outcome].
  assert (load st = (callsLeft (options st) item +
                     load (advance (dequeue st rest) latency))%nat) as ->.
  { rewrite queue_load_advance. unfold load; simpl. rewrite Hq. reflexivity. }
  destruct outcome as [v | error].
  - rewrite queue_load_advance.
    change (load (settle ?s _ _)) with (load s). unfold callsLeft. lia.
  - destruct (onError (options st) item error) as [item' delay | e] eqn:Hon.
    + unfold onError in Hon.
      destruct (isRateLimitError error); simpl in Hon; [| discriminate].
      destruct (Z.ltb_spec (Z.of_nat (retries item)) (maxRetries (options st)));
        [| discriminate].
      injection Hon as <- <-.
      unfold load. cbn [queue timers options schedule].
      rewrite (map_app snd), app_assoc, map_app, list_sum_app. simpl.
      lia.
    + change (load (settle ?s _ _)) with (load s). unfold callsLeft. lia.
Qed.

Section Liveness.
Variable n : nat.
Hypothesis IHn : ∀ st,
  (load st < n)%nat →
  0 < maxRequestsPerSecond (options st) → 0 < maxRequestsPerMinute (options st) →
  ∃ fuel, queue (drain fuel st) = [] ∧ timers (drain fuel st) = [].

(** Both counters below their budgets: the head item is called. *)
Lemma queue_live_ready st :
  (load st ≤ n)%nat → queue st ≠ [] →
  0 < maxRequestsPerSecond (options st) → 0 < maxRequestsPerMinute (options st) →
  perSecond st < maxRequestsPerSecond (options st) →
  perMinute st < maxRequestsPerMinute (options st) →
  ∃ fuel, queue (drain fuel st) = [] ∧ timers (drain fuel st) = [].
Proof.
  intros Hload Hne Hs Hm Hps Hpm.
  assert (turn st = runHead (withProcessing st true)) as Hturn.
  { unfold turn. destruct (queue st); [done |].
    apply (queue_loopIter_runHead (withProcessing st true)); assumption. }
  destruct (IHn (turn st)) as [fuel Hfuel].
  - rewrite Hturn. pose proof (queue_load_runHead (withProcessing st true) Hne) as Hlt.
    change (load (withProcessing st true)) with (load st) in Hlt. lia.
  - rewrite Hturn, queue_options_runHead. exact Hs.
  - rewrite Hturn, queue_options_runHead. exact Hm.
  - exists (S fuel). rewrite queue_drain_turn. exact Hfuel.
Qed.

(** The per-minute pause: five seconds at a time until the minute is over. *)
Lemma queue_live_minute k : ∀ st,
  (load st ≤ n)%nat → queue st ≠ [] →
  0 < maxRequestsPerSecond (options st) → 0 < maxRequestsPerMinute (options st) →
  perSecond st < maxRequestsPerSecond (options st) →
  (perMinute st < maxRequestsPerMinute (options st) ∨
   60000 - (now st - born st) mod 60000 <= 5000 * Z.of_nat k) →
  ∃ fuel, queue (drain fuel st) = [] ∧ timers (drain fuel st) = [].
Proof.
  induction k as [| k IH]; intros st Hload Hne Hs Hm Hps Hpm.
  - destruct Hpm as [Hpm | Hdist]; [apply queue_live_ready; assumption |].
    pose proof (Z.mod_pos_bound (now st - born st) 60000 ltac:(lia)). lia.
  - destruct (Z.lt_ge_cases (perMinute st) (maxRequestsPerMinute (options st)))
      as [Hlt | Hge]; [apply queue_live_ready; assumption |].
    destruct Hpm as [Hpm | Hdist]; [lia |].
    assert (turn st = advance (withProcessing st true) 5000) as Hturn.
    { unfold turn. destruct (queue st); [done |]. unfold loopIter.
      cbn [perSecond perMinute options withProcessing].
      destruct (Z.geb_spec (perSecond st) (maxRequestsPerSecond (options st))); [lia |].
      destruct (Z.geb_spec (perMinute st) (maxRequestsPerMinute (options st))); [| lia].
      reflexivity. }
    destruct (IH (turn st)) as [fuel Hfuel].
    + rewrite Hturn, queue_load_advance. exact Hload.
    + rewrite Hturn. apply queue_nonempty_advance. exact Hne.
    + rewrite Hturn. exact Hs.
    + rewrite Hturn. exact Hm.
    + rewrite Hturn. unfold advance; cbn [perSecond options withProcessing now born].
      destruct (Z.ltb_spec ((now st - born st) / 1000) ((now st + 5000 - born st) / 1000))
        as [_ | Hno]; [exact Hs |].
      exfalso.
      pose proof (Z.div_mod (now st - born st) 1000 ltac:(lia)).
      pose proof (Z.div_mod (now st + 5000 - born st) 1000 ltac:(lia)).
      pose proof (Z.mod_pos_bound (now st - born st) 1000 ltac:(lia)).
      pose proof (Z.mod_pos_bound (now st + 5000 - born st) 1000 ltac:(lia)).
      lia.
    + rewrite Hturn. unfold advance; cbn [perMinute options withProcessing now born].
      destruct (Z.ltb_spec ((now st - born st) / 60000) ((now st + 5000 - born st) / 60000))
        as [_ | Hno]; [left; exact Hm |].
      right.
      pose proof (Z.div_mod (now st - born st) 60000 ltac:(lia)).
      pose proof (Z.div_mod (now st + 5000 - born st) 60000 ltac:(lia)).
      pose proof (Z.mod_pos_bound (now st - born st) 60000 ltac:(lia)).
      pose proof (Z.mod_pos_bound (now st + 5000 - born st) 60000 ltac:(lia)).
      assert ((now st - born st) / 60000 <= (now st + 5000 - born st) / 60000)
        by (apply Z.div_le_mono; lia).
      lia.
    + exists (S fuel). rewrite queue_drain_turn. exact Hfuel.
Qed.

(** The per-second pause: one second, after which the counter is 0. *)
Lemma queue_live_busy st :
  (load st ≤ n)%nat → queue st ≠ [] →
  0 < maxRequestsPerSecond (options st) → 0 < maxRequestsPerMinute (options st) →
  ∃ fuel, queue (drain fuel st) = [] ∧ timers (drain fuel st) = [].
Proof.
  intros Hload Hne Hs Hm.
  assert (∀ x, 60000 - x mod 60000 <= 5000 * Z.of_nat 12) as Hdist.
  { intros x. pose proof (Z.mod_pos_bound x 60000 ltac:(lia)). lia. }
  destruct (Z.lt_ge_cases (perSecond st) (maxRequestsPerSecond (options st)))
    as [Hlt | Hge].
  - apply (queue_live_minute 12); try assumption. right. apply Hdist.
  - assert (turn st = advance (withProcessing st true) 1000) as Hturn.
    { unfold turn. destruct (queue st); [done |]. unfold loopIter.
      cbn [perSecond perMinute options withProcessing].
      destruct (Z.geb_spec (perSecond st) (maxRequestsPerSecond (options st))); [| lia].
      reflexivity. }
    destruct (queue_live_minute 12 (turn st)) as [fuel Hfuel].
    + rewrite Hturn, queue_load_advance. exact Hload.
    + rewrite Hturn. apply queue_nonempty_advance. exact Hne.
    + rewrite Hturn. exact Hs.
    + rewrite Hturn. exact Hm.
    + rewrite Hturn. unfold advance; cbn [perSecond options withProcessing now born].
      destruct (Z.ltb_spec ((now st - born st) / 1000) ((now st + 1000 - born st) / 1000))
        as [_ | Hno]; [exact Hs |].
      exfalso.
      pose proof (Z.div_mod (now st - born st) 1000 ltac:(lia)).
      pose proof (Z.div_mod (now st + 1000 - born st) 1000 ltac:(lia)).
      pose proof (Z.mod_pos_bound (now st - born st) 1000 ltac:(lia)).
      pose proof (Z.mod_pos_bound (now st + 1000 - born st) 1000 ltac:(lia)).
      lia.
    + right. apply Hdist.
    + exists (S fuel). rewrite queue_drain_turn. exact Hfuel.
Qed.

(** An empty queue: the loop has exited, and the next retry timer restarts
    it with its item at the head. *)
Lemma queue_live_any st :
  (load st ≤ n)%nat →
  0 < maxRequestsPerSecond (options st) → 0 < maxRequestsPerMinute (options st) →
  ∃ fuel, queue (drain fuel st) = [] ∧ timers (drain fuel st) = [].
Proof.
  intros Hload Hs Hm.
  destruct (queue st) as [| item rest] eqn:Hq;
    [| apply queue_live_busy; try assumption; rewrite Hq; done].
  destruct (firingOrder (timers st)) as [| [due item'] l] eqn:Hf.
  - exists 0%nat. simpl. split; [exact Hq |].
    pose proof (queue_firingOrder_perm (timers st)) as Hp. rewrite Hf in Hp.
    apply Permutation_nil in Hp. exact Hp.
  - assert (turn st = advance (withProcessing st false) (Z.max 0 (due - now st)))
      as Hturn by (unfold turn; rewrite Hq, Hf; reflexivity).
    destruct (queue_live_busy (turn st)) as [fuel Hfuel].
    + rewrite Hturn, queue_load_advance. exact Hload.
    + rewrite Hturn. unfold advance; cbn [queue timers now withProcessing].
      rewrite queue_fold_unshift, Hq, app_nil_r.
      assert ((due, item') ∈ filter (fun x : Z * QueueItem V =>
                                       fst x <= now st + Z.max 0 (due - now st))
                                    (timers st)) as Hin.
      { apply list_elem_of_filter. split; [simpl; lia |].
        rewrite <- (queue_firingOrder_perm (timers st)), Hf. left. }
      rewrite <- (queue_firingOrder_perm (filter _ _)) in Hin.
      destruct (firingOrder (filter _ _)) as [| y l']; [inversion Hin |].
      simpl. intros Happ. apply app_eq_nil in Happ as [_ ?]. done.
    + rewrite Hturn. exact Hs.
    + rewrite Hturn. exact Hm.
    + exists (S fuel). rewrite queue_drain_turn. exact Hfuel.
Qed.

End Liveness.

Lemma queue_live st :
  0 < maxRequestsPerSecond (options st) → 0 < maxRequestsPerMinute (options st) →
  ∃ fuel, queue (drain fuel st) = [] ∧ timers (drain fuel st) = [].
Proof.
  remember (load st) as n eqn:Hn. revert st Hn.
  induction n as [n IH] using lt_wf_ind. intros st -> Hs Hm.
  apply (queue_live_any (load st)); [| lia | exact Hs | exact Hm].
  intros st' Hlt Hs' Hm'. apply (IH (load st') Hlt st' eq_refl Hs' Hm').
Qed.

Lemma queue_idle_stays fuel st :
  queue st = [] → timers st = [] → drain (S fuel) st = withProcessing st false.
Proof. intros Hq Ht. simpl. rewrite Hq, Ht. reflexivity. Qed.

Lemma queue_drain_add a : ∀ b st, drain (a + b) st = drain b (drain a st).
Proof.
  induction a as [| a IH]; intros b st; [reflexivity |].
  change (S a + b)%nat with (S (a + b)). rewrite !queue_drain_turn. apply IH.
Qed.

(** No starvation.  With positive budgets the event loop comes to rest: for
    some number of turns the queue is empty, no retry is pending, the
    [processing] flag is down, and every promise that was open at the start
    has been settled; and further turns change nothing. *)
Theorem queue_every_promise_settles st
    (Hsecond : 0 < maxRequestsPerSecond (options st))
    (Hminute : 0 < maxRequestsPerMinute (options st)) :
  ∃ fuel,
    queue (drain fuel st) = [] ∧ timers (drain fuel st) = [] ∧
    processing (drain fuel st) = false ∧
    settledIds (drain fuel st) ≡ₚ waiting st ++ settledIds st ∧
    ∀ more, drain (fuel + more) st = drain fuel st.
Proof.
  destruct (queue_live st Hsecond Hminute) as (fuel & Hq & Ht).
  exists (S fuel).
  assert (drain (S fuel) st = withProcessing (drain fuel st) false) as Hlast.
  { replace (S fuel) with (fuel + 1)%nat by lia. rewrite queue_drain_add.
    apply queue_idle_stays; assumption. }
  rewrite Hlast. cbn [queue timers processing withProcessing].
  split; [exact Hq |]. split; [exact Ht |]. split; [reflexivity |]. split.
  - rewrite <- (queue_conserved_drain fuel st).
    unfold waiting, settledIds. cbn [settled withProcessing]. rewrite Hq, Ht. reflexivity.
  - intros more. rewrite queue_drain_add, Hlast.
    destruct more as [| more]; [reflexivity |].
    rewrite queue_idle_stays by assumption. reflexivity.
Qed.

End QueueInvariantFacts.

Lemma queue_settles_at_most_once_witness :
  NoDup (RateLimiter.settledIds (RateLimiter.drain 40 RateLimiter.twoQueued)) ∧
  ∀ i, i ∈ RateLimiter.settledIds (RateLimiter.drain 40 RateLimiter.twoQueued) →
       i ∉ RateLimiter.waiting (RateLimiter.drain 40 RateLimiter.twoQueued).
Proof.
  apply (queue_settles_at_most_once 40 RateLimiter.twoQueued).
  simpl. apply (bool_decide_unpack _). vm_compute. exact I.
Defined.

Lemma queue_retries_bounded_witness :
  RateLimiter.withinRetries (RateLimiter.drain 40 RateLimiter.twoQueued).
Proof.
  apply (queue_retries_bounded 40 RateLimiter.twoQueued).
  split; simpl; repeat constructor; simpl; lia.
Defined.

Lemma queue_zero_budget_starves_witness :
  RateLimiter.settled (RateLimiter.drain 1000 RateLimiter.noBudget) = [] ∧
  RateLimiter.console (RateLimiter.drain 1000 RateLimiter.noBudget) = [] ∧
  RateLimiter.queue (RateLimiter.drain 1000 RateLimiter.noBudget) ++
    map snd (RateLimiter.timers (RateLimiter.drain 1000 RateLimiter.noBudget)) ≡ₚ
    [{| RateLimiter.id := "a"; RateLimiter.fn := RateLimiter.answers;
        RateLimiter.retries := 0 |}].
Proof.
  apply (queue_zero_budget_starves 1000 RateLimiter.noBudget); simpl; lia.
Defined.

Lemma queue_clear_drops_silently_witness :
  RateLimiter.getQueueSize (RateLimiter.clearQueue RateLimiter.twoQueued) = 0%nat ∧
  ("b" ∉ RateLimiter.settledIds
           (RateLimiter.drain 40 (RateLimiter.clearQueue RateLimiter.twoQueued))) ∧
  ∀ due item dt,
    (due, item) ∈ RateLimiter.timers RateLimiter.twoQueued →
    due <= RateLimiter.now RateLimiter.twoQueued + dt →
    item ∈ RateLimiter.queue
             (RateLimiter.advance (RateLimiter.clearQueue RateLimiter.twoQueued) dt).
Proof.
  apply (queue_clear_drops_silently 40 RateLimiter.twoQueued "b").
  - simpl. apply not_elem_of_nil.
  - simpl. apply not_elem_of_nil.
Defined.

Lemma queue_every_promise_settles_witness :
  ∃ fuel,
    RateLimiter.queue (RateLimiter.drain fuel RateLimiter.twoQueued) = [] ∧
    RateLimiter.timers (RateLimiter.drain fuel RateLimiter.twoQueued) = [] ∧
    RateLimiter.processing (RateLimiter.drain fuel RateLimiter.twoQueued) = false ∧
    RateLimiter.settledIds (RateLimiter.drain fuel RateLimiter.twoQueued) ≡ₚ
      RateLimiter.waiting RateLimiter.twoQueued ++
      RateLimiter.settledIds RateLimiter.twoQueued ∧
    ∀ more, RateLimiter.drain (fuel + more) RateLimiter.twoQueued =
            RateLimiter.drain fuel RateLimiter.twoQueued.
Proof.
  apply (queue_every_promise_settles RateLimiter.twoQueued); simpl; lia.
Defined.

(** ** Retries of the rate-limited queue *)

Section QueueRetryFacts.
Context {V : Type}.
Import RateLimiter.
Implicit Types (st : RateLimiter.t V) (item : QueueItem V).

Lemma queue_insertTimer_last (x : Z * QueueItem V) l :
  Forall (fun y => fst y <= fst x) l → insertTimer x l = l ++ [x].
Proof.
  induction 1 as [| y l Hy _ IH]; simpl; [reflexivity |].
  destruct (Z.ltb_spec (fst x) (fst y)); [lia |]. rewrite IH. reflexivity.
Qed.

Lemma queue_firingOrder_snoc (l : list (Z * QueueItem V)) x :
  firingOrder (l ++ [x]) = insertTimer x (firingOrder l).
Proof. unfold firingOrder. rewrite fold_left_app. reflexivity. Qed.

(** The timer the retry branch sets puts its item at the front of the
    queue when it fires, unless a timer due later fires in the same step. *)
Lemma queue_schedule_fires_front st item delay dt :
  delay <= dt →
  (∀ y, y ∈ timers st → fst y <= now st + dt → fst y <= now st + delay) →
  queue (advance (schedule st item delay) dt) = item :: queue (advance st dt).
Proof.
  intros Hdue Hothers. unfold advance. cbn [queue timers now schedule].
  rewrite filter_app, filter_cons, filter_nil. cbn [fst].
  destruct (decide (now st + delay <= now st + dt)); [| lia].
  rewrite queue_firingOrder_snoc, queue_insertTimer_last.
  - rewrite map_app, fold_left_app. reflexivity.
  - apply Forall_forall. intros y Hy. cbn [fst].
    rewrite queue_firingOrder_perm in Hy. apply list_elem_of_filter in Hy as [Hy1 Hy2].
    apply Hothers; assumption.
Qed.

Lemma queue_single_cases st item :
  queue st ++ map snd (timers st) = [item] →
  (queue st = [item] ∧ timers st = []) ∨
  (queue st = [] ∧ ∃ due, timers st = [(due, item)]).
Proof.
  intros H. destruct (queue st) as [| x q].
  - right. split; [reflexivity |].
    destruct (timers st) as [| [due y] [| z l]]; simpl in H; try discriminate.
    injection H as ->. exists due. reflexivity.
  - left. simpl in H. injection H as -> H. apply app_eq_nil in H as [-> H].
    split; [reflexivity |]. destruct (timers st); [reflexivity | discriminate].
Qed.

Lemma queue_single_advance st item dt :
  queue st ++ map snd (timers st) = [item] →
  queue (advance st dt) ++ map snd (timers (advance st dt)) = [item].
Proof.
  intros H. pose proof (queue_items_advance st dt) as Hp. rewrite H in Hp.
  apply Permutation_singleton_r in Hp. exact Hp.
Qed.

Section OneItem.
Variables (o : Options) (i : string) (f : nat → Z * Outcome V).
Variables (lat : nat → Z) (errs : nat → JsError) (mr : nat).
Variables (settled0 : list (string * Outcome V)) (console0 : list (Z * Z)).
Hypothesis Hmr : maxRetries o = Z.of_nat mr.
Hypothesis Hf : ∀ k, f k = (lat k, Rejects (errs k)).
Hypothesis Hrl : ∀ k, isRateLimitError (errs k) = true.
Hypothesis Hsecond : 0 < maxRequestsPerSecond o.
Hypothesis Hminute : 0 < maxRequestsPerMinute o.

Lemma queue_one_advance item st dt :
  retrying o item settled0 console0 st →
  retrying o item settled0 console0 (advance st dt).
Proof.
  intros (Ho & Hitems & Hs & Hc). split; [exact Ho |].
  split; [apply queue_single_advance; exact Hitems |]. split; assumption.
Qed.

Lemma queue_one_flag item st b :
  retrying o item settled0 console0 st →
  retrying o item settled0 console0 (withProcessing st b).
Proof. intros H. exact H. Qed.

Lemma queue_one_runHead k st :
  (k ≤ mr)%nat →
  retrying o {| id := i; fn := f; retries := k |} settled0 console0 st →
  queue st ≠ [] →
  (∃ k', (k' ≤ mr)%nat ∧
         retrying o {| id := i; fn := f; retries := k' |} settled0 console0 (runHead st)) ∨
  givenUp o i (errs mr) mr settled0 console0 (runHead st).
Proof.
  intros Hk (Ho & Hitems & Hs & Hc) Hne.
  destruct (queue_single_cases st _ Hitems) as [[Hq Ht] | [Hq _]]; [| done].
  unfold runHead. rewrite Hq. cbn [fn retries id]. rewrite Hf, Ho.
  assert (queue (advance (dequeue st []) (lat k)) = [] ∧
          timers (advance (dequeue st []) (lat k)) = []) as [Hq2 Ht2].
  { unfold advance. cbn [queue timers dequeue]. rewrite Ht. split; reflexivity. }
  cbn [retries] in Hc.
  destruct (decide (k < mr)%nat) as [Hlt | Hge].
  - left. exists (S k). split; [lia |].
    rewrite queue_onError_retry by (cbn [retries]; auto; lia). cbn [id fn retries].
    split; [exact Ho |]. cbn [queue timers settled console schedule retries].
    rewrite Hq2, Ht2. split; [reflexivity |]. split; [exact Hs |].
    change (console (advance (dequeue st []) (lat k))) with (console st).
    rewrite Hc. unfold retryLines. rewrite seq_S, map_app, <- app_assoc. reflexivity.
  - right. rewrite queue_onError_exhausted by (cbn [retries]; lia).
    assert (k = mr) as -> by lia.
    split; [exact Hq2 |]. split; [exact Ht2 |].
    cbn [settled console settle].
    change (settled (advance (dequeue st []) (lat mr))) with (settled st).
    change (console (advance (dequeue st []) (lat mr))) with (console st).
    rewrite Hs, Hc. split; reflexivity.
Qed.

Lemma queue_one_turn st :
  ((∃ k, (k ≤ mr)%nat ∧
         retrying o {| id := i; fn := f; retries := k |} settled0 console0 st) ∨
   givenUp o i (errs mr) mr settled0 console0 st) →
  (∃ k, (k ≤ mr)%nat ∧
        retrying o {| id := i; fn := f; retries := k |} settled0 console0 (turn st)) ∨
  givenUp o i (errs mr) mr settled0 console0 (turn st).
Proof.
  intros [(k & Hk & Hin) | (Hq & Ht & Hs & Hc)].
  - unfold turn. destruct (queue st) as [| x q] eqn:Hqueue.
    + left. exists k. split; [exact Hk |].
      destruct (firingOrder (timers st)) as [| [due y] l];
        [apply queue_one_flag, Hin | apply queue_one_advance, queue_one_flag, Hin].
    + unfold loopIter.
      destruct (perSecond (withProcessing st true) >=? _);
        [left; exists k; split;
         [exact Hk | apply queue_one_advance, queue_one_flag, Hin] |].
      destruct (perMinute (withProcessing st true) >=? _);
        [left; exists k; split;
         [exact Hk | apply queue_one_advance, queue_one_flag, Hin] |].
      apply (queue_one_runHead k); [exact Hk | apply queue_one_flag, Hin |].
      cbn [queue withProcessing]. rewrite Hqueue. done.
  - right. unfold turn. rewrite Hq, Ht. cbn [firingOrder fold_left].
    repeat split; assumption.
Qed.

Lemma queue_one_drain fuel : ∀ st,
  ((∃ k, (k ≤ mr)%nat ∧
         retrying o {| id := i; fn := f; retries := k |} settled0 console0 st) ∨
   givenUp o i (errs mr) mr settled0 console0 st) →
  (∃ k, (k ≤ mr)%nat ∧
        retrying o {| id := i; fn := f; retries := k |} settled0 console0
                 (drain fuel st)) ∨
  givenUp o i (errs mr) mr settled0 console0 (drain fuel st).
Proof.
  induction fuel as [| fuel IH]; intros st H; [exact H |].
  rewrite queue_drain_turn. apply IH, queue_one_turn, H.
Qed.

(** An operation throttled at every call, alone in the queue: the loop
    retries it [mr] times, logging each retry, and then rejects its promise
    with the error of the last call. *)
Lemma queue_one_throttled st :
  options st = o →
  queue st = [{| id := i; fn := f; retries := 0 |}] → timers st = [] →
  settled st = settled0 → console st = console0 →
  ∃ fuel,
    queue (drain fuel st) = [] ∧ timers (drain fuel st) = [] ∧
    settled (drain fuel st) = settled0 ++ [(i, Rejects (errs mr))] ∧
    console (drain fuel st) = console0 ++ retryLines o mr.
Proof.
  intros Ho Hq Ht Hs Hc.
  destruct (queue_live st) as (fuel & Hq' & Ht'); [rewrite Ho; assumption .. |].
  exists fuel.
  destruct (queue_one_drain fuel st) as [(k & _ & _ & Hitems & _) | H].
  - left. exists 0%nat. split; [lia |].
    split; [exact Ho |]. rewrite Hq, Ht. split; [reflexivity |].
    split; [exact Hs |]. rewrite Hc. unfold retryLines. simpl. rewrite app_nil_r.
    reflexivity.
  - rewrite Hq', Ht' in Hitems. discriminate.
  - exact H.
Qed.

End OneItem.

(** C7.  The head item's operation fails while both budgets have room.
    After a throttling error with retries left the promise stays pending,
    nothing is settled, the retry is logged, the item has left the queue,
    and one timer is added, due [retryDelay * backoffMultiplier ^ retries]
    after the failure, that puts the item, its counter raised, back at the
    front of the queue.  After a throttling error with no retries left, and
    after any other error at once, the promise is rejected with the error
    itself: the record of settled promises gains exactly that entry, the
    item has left the queue, no timer is set and nothing is logged.  An
    operation throttled at every call is so retried exactly [maxRetries]
    times before the rejection: on the schedule of one item, and on the
    event loop run to rest with that item alone in the queue. *)
Theorem queue_retries_only_throttling st item rest latency error
    (Hqueue : queue st = item :: rest)
    (Hsecond : perSecond st < maxRequestsPerSecond (options st))
    (Hminute : perMinute st < maxRequestsPerMinute (options st))
    (Hfails : fn item (retries item) = (latency, Rejects error)) :
  let o := options st in
  let st2 := advance (dequeue st rest) latency in
  let item' := {| id := id item; fn := fn item; retries := S (retries item) |} in
  let delay := retryDelay o * backoffMultiplier o ^ Z.of_nat (retries item) in
  let fired :=
    map snd (firingOrder (filter (fun x => fst x <= now st + latency) (timers st))) in
  let pending := filter (fun x => ¬ (fst x <= now st + latency)) (timers st) in
  (isRateLimitError error = true → Z.of_nat (retries item) < maxRetries o →
     loopIter st = schedule st2 item' delay ∧
     timers (loopIter st) = timers st2 ++ [(now st2 + delay, item')] ∧
     timers (loopIter st) = pending ++ [(now st + latency + delay, item')] ∧
     settled (loopIter st) = settled st ∧
     queue (loopIter st) = fold_left unshift fired rest ∧
     console (loopIter st) = console st ++ [(delay, Z.of_nat (S (retries item)))] ∧
     (∀ dt, delay <= dt →
        (∀ y, y ∈ pending → fst y <= now st + latency + dt →
              fst y <= now st + latency + delay) →
        queue (advance (loopIter st) dt) = item' :: queue (advance st2 dt)) ∧
     ∀ (s : RateLimiter.t V) dt,
       timers s = [(now st2 + delay, item')] → now st2 + delay <= now s + dt →
       queue (advance s dt) = item' :: queue s) ∧
  (isRateLimitError error = true → maxRetries o <= Z.of_nat (retries item) →
     loopIter st = settle st2 (id item) (Rejects error) ∧
     settled (loopIter st) = settled st ++ [(id item, Rejects error)] ∧
     queue (loopIter st) = fold_left unshift fired rest ∧
     timers (loopIter st) = pending ∧
     console (loopIter st) = console st) ∧
  (isRateLimitError error = false →
     loopIter st = settle st2 (id item) (Rejects error) ∧
     settled (loopIter st) = settled st ++ [(id item, Rejects error)] ∧
     queue (loopIter st) = fold_left unshift fired rest ∧
     timers (loopIter st) = pending ∧
     console (loopIter st) = console st) ∧
  (∀ i (f : nat → Z * Outcome V) lat errs,
     0 <= maxRetries o →
     (∀ k, f k = (lat k, Rejects (errs k))) →
     (∀ k, isRateLimitError (errs k) = true) →
     retrySchedule o (S (Z.to_nat (maxRetries o))) {| id := i; fn := f; retries := 0 |} =
       (map (fun k => retryDelay o * backoffMultiplier o ^ Z.of_nat k)
            (seq 0 (Z.to_nat (maxRetries o))),
        Some (Rejects (errs (Z.to_nat (maxRetries o)))))) ∧
  (∀ (s : RateLimiter.t V) i (f : nat → Z * Outcome V) lat errs,
     queue s = [{| id := i; fn := f; retries := 0 |}] → timers s = [] →
     0 < maxRequestsPerSecond (options s) → 0 < maxRequestsPerMinute (options s) →
     0 <= maxRetries (options s) →
     (∀ k, f k = (lat k, Rejects (errs k))) →
     (∀ k, isRateLimitError (errs k) = true) →
     ∃ fuel,
       queue (drain fuel s) = [] ∧ timers (drain fuel s) = [] ∧
       settled (drain fuel s) =
         settled s ++ [(i, Rejects (errs (Z.to_nat (maxRetries (options s)))))] ∧
       console (drain fuel s) =
         console s ++ retryLines (options s) (Z.to_nat (maxRetries (options s)))).
Proof.
  intros o st2 item' delay fired pending.
  assert (loopIter st =
          match onError o item error with
          | Retry it d => schedule st2 it d
          | GiveUp e => settle st2 (id item) (Rejects e)
          end) as Hstep.
  { rewrite queue_loopIter_runHead by assumption.
    unfold runHead. rewrite Hqueue, Hfails. reflexivity. }
  assert (∀ e, settle st2 (id item) (Rejects e) = settle st2 (id item) (Rejects e) ∧
               settled (settle st2 (id item) (Rejects e)) =
                 settled st ++ [(id item, Rejects e)] ∧
               queue (settle st2 (id item) (Rejects e)) = fold_left unshift fired rest ∧
               timers (settle st2 (id item) (Rejects e)) = pending ∧
               console (settle st2 (id item) (Rejects e)) = console st) as Hreject
    by (intros e; repeat split).
  split; [| split; [| split; [| split]]].
  - intros Hrl Hlt. rewrite Hstep, queue_onError_retry by assumption.
    split; [reflexivity |]. split; [reflexivity |].
    split; [reflexivity |].
    split; [reflexivity |]. split; [reflexivity |]. split; [reflexivity |]. split.
    + intros dt Hdt Hothers. apply queue_schedule_fires_front; [exact Hdt |].
      intros y Hy Hdue. change (now st2) with (now st + latency) in *.
      apply Hothers; assumption.
    + intros s dt. apply queue_timer_fires_front.
  - intros _ Hge. rewrite Hstep, queue_onError_exhausted by assumption. apply Hreject.
  - intros Hrl. rewrite Hstep, queue_onError_other by assumption. apply Hreject.
  - intros i f lat errs Hnn Hf Hrl.
    apply (queue_retrySchedule_throttled o f lat errs (Z.to_nat (maxRetries o)));
      auto; lia.
  - intros s i f lat errs Hq Ht Hs Hm Hnn Hf Hrl.
    apply (queue_one_throttled (options s) i f lat errs (Z.to_nat (maxRetries (options s)))
             (settled s) (console s)); auto; lia.
Qed.

End QueueRetryFacts.

Lemma queue_retries_only_throttling_witness :
  RateLimiter.queue RateLimiter.oneThrottled = [RateLimiter.throttledItem] ∧
  RateLimiter.perSecond RateLimiter.oneThrottled < 1 ∧
  RateLimiter.perMinute RateLimiter.oneThrottled < 30 ∧
  RateLimiter.timers (RateLimiter.loopIter RateLimiter.oneThrottled) =
    [(2000, {| RateLimiter.id := "a"; RateLimiter.fn := RateLimiter.alwaysThrottled;
               RateLimiter.retries := 1 |})] ∧
  RateLimiter.settled (RateLimiter.loopIter RateLimiter.oneThrottled) = [] ∧
  RateLimiter.queue (RateLimiter.loopIter RateLimiter.oneThrottled) = [] ∧
  RateLimiter.queue
    (RateLimiter.advance (RateLimiter.loopIter RateLimiter.oneThrottled) 2000) =
    [{| RateLimiter.id := "a"; RateLimiter.fn := RateLimiter.alwaysThrottled;
        RateLimiter.retries := 1 |}] ∧
  RateLimiter.retrySchedule RateLimiter.bedrockOptions 4 RateLimiter.throttledItem =
    ([2000; 4000; 8000], Some (RateLimiter.Rejects RateLimiter.throttled)) ∧
  ∃ fuel,
    RateLimiter.settled (RateLimiter.drain fuel RateLimiter.oneThrottled) =
      [("a", RateLimiter.Rejects RateLimiter.throttled)] ∧
    RateLimiter.console (RateLimiter.drain fuel RateLimiter.oneThrottled) =
      [(2000, 1); (4000, 2); (8000, 3)].
Proof.
  pose proof (queue_retries_only_throttling RateLimiter.oneThrottled
                RateLimiter.throttledItem [] 0 RateLimiter.throttled
                eq_refl ltac:(reflexivity) ltac:(reflexivity) eq_refl)
    as (Hretry & _ & _ & Hbound & Hloop).
  destruct (Hretry eq_refl ltac:(reflexivity))
    as (_ & Htimers & _ & Hsettled & Hqueue & _ & Hfront & _).
  split; [reflexivity |]. split; [reflexivity |]. split; [reflexivity |].
  split; [exact Htimers |]. split; [exact Hsettled |]. split; [exact Hqueue |].
  split; [| split].
  - apply (Hfront 2000); [reflexivity |]. intros y Hy. inversion Hy.
  - apply (Hbound "a" RateLimiter.alwaysThrottled (fun _ => 0) (fun _ => RateLimiter.throttled));
      [discriminate | reflexivity | reflexivity].
  - destruct (Hloop RateLimiter.oneThrottled "a" RateLimiter.alwaysThrottled
                (fun _ => 0) (fun _ => RateLimiter.throttled)
                eq_refl eq_refl ltac:(reflexivity) ltac:(reflexivity)
                ltac:(discriminate) ltac:(reflexivity) ltac:(reflexivity))
      as (fuel & _ & _ & Hs & Hc).
    exists fuel. split; [exact Hs | exact Hc].
Defined.

(** ** The batch engine: rotation, fallback and cache *)

Section EngineRotationFacts.
Import SentimentBatch.
Variable md5hex : string → string.
Variable JSON_parse : string → option Json.
Variable invoke : string → nat → string → Z * Reply.

Abbreviation analyzeWith := (analyzeWith md5hex JSON_parse invoke).
Abbreviation analyzeBatchSmart := (analyzeBatchSmart md5hex JSON_parse invoke).
Abbreviation analyzeBatchWithClaude := (analyzeBatchWithClaude md5hex JSON_parse invoke).
Abbreviation analyzeBatchWithMistral := (analyzeBatchWithMistral md5hex JSON_parse invoke).
Abbreviation cacheMisses := (cacheMisses md5hex).
Abbreviation cacheKey := (cacheKey md5hex).
Abbreviation providerFails := (providerFails JSON_parse invoke).
Abbreviation usable := (usable JSON_parse).
Abbreviation ask := (ask invoke).

(** Neither branch touches the rotator. *)
Lemma engine_analyzeWith_rotator model env texts :
  sentimentModelRotator (fst (analyzeWith model env texts)) = sentimentModelRotator env.
Proof.
  unfold SentimentBatch.analyzeWith. destruct (JsString.includes model "claude").
  - unfold SentimentBatch.analyzeBatchWithClaude.
    destruct (SimpleCache.get _ _ _) as [cached c].
    destruct (JsValue.whenTruthy cached); [reflexivity |].
    unfold tryClaude. destruct (SentimentBatch.ask _ _ _) as [latency [e | content]];
      [reflexivity |].
    destruct (extractClaude _ _) as [r |]; [| reflexivity].
    destruct (hasResults _); [| reflexivity].
    destruct (negb _); reflexivity.
  - unfold SentimentBatch.analyzeBatchWithMistral.
    destruct (SimpleCache.get _ _ _) as [cached c].
    destruct (JsValue.whenTruthy cached); [reflexivity |].
    unfold tryMistral. destruct (SentimentBatch.ask _ _ _) as [latency [e | content]];
      [reflexivity |].
    destruct (extractMistral _ _) as [r |]; [| reflexivity].
    destruct (hasResults _); reflexivity.
Qed.

(** A branch asks its own provider only. *)
Lemma engine_analyzeWith_provider invoke' model env texts :
  (∀ n listing, invoke (providerOf model) n listing = invoke' (providerOf model) n listing) →
  analyzeWith model env texts =
  SentimentBatch.analyzeWith md5hex JSON_parse invoke' model env texts.
Proof.
  unfold SentimentBatch.analyzeWith, providerOf.
  destruct (JsString.includes model "claude"); intros Hsame.
  - unfold SentimentBatch.analyzeBatchWithClaude, tryClaude, SentimentBatch.ask.
    rewrite Hsame. reflexivity.
  - unfold SentimentBatch.analyzeBatchWithMistral, tryMistral, SentimentBatch.ask.
    rewrite Hsame. reflexivity.
Qed.

Lemma engine_smart_is_primary env texts nextModel rot :
  ModelRotator.getNextModel (sentimentModelRotator env) (clock env) =
    (Some nextModel, rot) →
  ∃ env1 result,
    analyzeWith nextModel (withRotator env rot) texts = (env1, inr result) ∧
    analyzeBatchSmart env texts =
      (withRotator env1 (ModelRotator.recordRequest rot nextModel true (clock env1)),
       inr result).
Proof.
  intros Hnext. unfold SentimentBatch.analyzeBatchSmart. rewrite Hnext.
  pose proof (engine_analyzeWith_rotator nextModel (withRotator env rot) texts) as Hrot.
  destruct (engine_analyzeWith_returns md5hex JSON_parse invoke
              (withRotator env rot) texts nextModel) as (env1 & result & Hwith).
  rewrite Hwith in Hrot |- *. simpl in Hrot. rewrite Hrot. eauto.
Qed.

(** The fallback of [analyzeBatchSmart] is never consulted: the call gives
    the same result and leaves the same state whatever the provider of the
    other model would do, since both branches turn every failure of their
    provider into a result. *)
Theorem engine_fallback_never_consulted invoke' env texts primary
    (Hselected : selected env = Some primary)
    (Hsame : ∀ n listing,
       invoke (providerOf primary) n listing = invoke' (providerOf primary) n listing) :
  analyzeBatchSmart env texts =
  SentimentBatch.analyzeBatchSmart md5hex JSON_parse invoke' env texts.
Proof.
  unfold selected in Hselected.
  destruct (ModelRotator.getNextModel _ _) as [next rot] eqn:Hnext.
  simpl in Hselected. subst next.
  destruct (engine_smart_is_primary env texts primary rot Hnext)
    as (env1 & result & Hwith & ->).
  unfold SentimentBatch.analyzeBatchSmart. rewrite Hnext.
  rewrite <- (engine_analyzeWith_provider invoke' primary _ texts Hsame).
  pose proof (engine_analyzeWith_rotator primary (withRotator env rot) texts) as Hrot.
  rewrite Hwith in Hrot |- *. simpl in Hrot. rewrite Hrot. reflexivity.
Qed.

Lemma rot_getNextModel_models r now :
  ModelRotator.models (snd (ModelRotator.getNextModel r now)) = ModelRotator.models r.
Proof.
  unfold ModelRotator.getNextModel.
  destruct (ModelRotator.scan _ _ _) as [[model next] |]; reflexivity.
Qed.

Lemma rot_available_success r model now id :
  ModelRotator.available (ModelRotator.recordRequest r model true now) id =
  ModelRotator.available r id.
Proof.
  unfold ModelRotator.available.
  destruct (ModelRotator.stats_of r model) as [st |] eqn:Hst.
  - destruct (String.eqb_spec model id) as [-> | Hne].
    + rewrite (rot_stats_record_same r id st true now Hst), Hst. reflexivity.
    + rewrite rot_stats_record_other by done. reflexivity.
  - unfold ModelRotator.recordRequest. unfold ModelRotator.stats_of in Hst.
    rewrite Hst. reflexivity.
Qed.

(** The engine never reports a failure.  Whatever the providers do,
    [analyzeBatchSmart] records its request as a success: no provider is
    ever taken out of rotation by it, and the record of the selected model
    is the one [recordRequest(nextModel, true)] leaves. *)
Theorem engine_never_reports_failure env texts :
  (∀ id, ModelRotator.available
           (sentimentModelRotator (fst (analyzeBatchSmart env texts))) id =
         ModelRotator.available (sentimentModelRotator env) id) ∧
  (∀ primary, selected env = Some primary →
     sentimentModelRotator (fst (analyzeBatchSmart env texts)) =
       ModelRotator.recordRequest
         (snd (ModelRotator.getNextModel (sentimentModelRotator env) (clock env)))
         primary true (clock (fst (analyzeBatchSmart env texts)))).
Proof.
  unfold selected.
  pose proof (rot_getNextModel_models (sentimentModelRotator env) (clock env)) as Hmodels.
  destruct (ModelRotator.getNextModel _ _) as [[nextModel |] rot] eqn:Hnext; simpl in *.
  - destruct (engine_smart_is_primary env texts nextModel rot Hnext)
      as (env1 & result & Hwith & ->).
    simpl. split.
    + intros id. rewrite rot_available_success.
      unfold ModelRotator.available, ModelRotator.stats_of. rewrite Hmodels. reflexivity.
    + intros primary [= <-]. reflexivity.
  - unfold SentimentBatch.analyzeBatchSmart. rewrite Hnext. simpl.
    split; [| discriminate].
    intros id. unfold ModelRotator.available, ModelRotator.stats_of.
    rewrite Hmodels. reflexivity.
Qed.

End EngineRotationFacts.

Section EngineCacheFacts.
Import SentimentBatch.
Variable md5hex : string → string.
Variable JSON_parse : string → option Json.
Variable invoke : string → nat → string → Z * Reply.

Abbreviation analyzeWith := (analyzeWith md5hex JSON_parse invoke).
Abbreviation analyzeBatchWithClaude := (analyzeBatchWithClaude md5hex JSON_parse invoke).
Abbreviation analyzeBatchWithMistral := (analyzeBatchWithMistral md5hex JSON_parse invoke).
Abbreviation cacheMisses := (cacheMisses md5hex).
Abbreviation cacheKey := (cacheKey md5hex).
Abbreviation providerFails := (providerFails JSON_parse invoke).
Abbreviation usable := (usable JSON_parse).
Abbreviation ask := (ask invoke).

Lemma str_app_assoc (a b c : string) : ((a ++ b) ++ c)%string = (a ++ b ++ c)%string.
Proof.
  induction a as [| x a IH]; [reflexivity |].
  change (String x ((a ++ b) ++ c) = String x (a ++ b ++ c))%string.
  rewrite IH. reflexivity.
Qed.

Lemma str_join_cons sep p ps :
  ps ≠ [] → JsString.join sep (p :: ps) = (p ++ sep ++ JsString.join sep ps)%string.
Proof. destruct ps; [done | reflexivity]. Qed.

(** [join] does not tell two neighbours from one text that holds the
    separator between them. *)
Lemma str_join_collision sep l1 a b l2 :
  JsString.join sep (l1 ++ a :: b :: l2) =
  JsString.join sep (l1 ++ (a ++ sep ++ b)%string :: l2).
Proof.
  induction l1 as [| x l1 IH].
  - simpl app. rewrite str_join_cons by done.
    destruct l2 as [| c l2]; [reflexivity |].
    rewrite !(str_join_cons sep _ (c :: l2)) by done.
    rewrite !str_app_assoc. reflexivity.
  - simpl app. rewrite !str_join_cons by (destruct l1; done). rewrite IH. reflexivity.
Qed.

(** What a successful call leaves: the reply's result, truthy, stored under
    the key of the texts for 600 seconds from the instant the reply came. *)
Lemma engine_success_state env texts model text latency :
  cacheMisses env model texts →
  ask (providerOf model) texts = (latency, Content text) →
  usable model text = true →
  ∃ result,
    JsValue.truthy result = true ∧
    analyzeWith model env texts =
      ({| sentimentCache :=
            SimpleCache.set
              (snd (SimpleCache.get (sentimentCache env) (clock env)
                      (cacheKey (keyPrefix model) texts)))
              (clock env + latency) (cacheKey (keyPrefix model) texts) result (Some 600);
          sentimentModelRotator := sentimentModelRotator env;
          clock := clock env + latency |},
       inr result).
Proof.
  unfold SentimentBatch.cacheMisses, SentimentBatch.usable, SentimentBatch.parsed,
    keyPrefix, providerOf, SimpleCache.read, SentimentBatch.analyzeWith.
  destruct (JsString.includes model "claude"); intros Hmiss Hreply Huse.
  - unfold SentimentBatch.analyzeBatchWithClaude.
    destruct (SimpleCache.get _ _ _) as [cached c]. simpl in Hmiss. rewrite Hmiss.
    unfold tryClaude. rewrite Hreply.
    destruct (extractClaude JSON_parse text) as [r |]; [| discriminate].
    apply andb_prop in Huse as [Hhas Harr]. simpl in Harr.
    rewrite Hhas, Harr. simpl. exists r. split; [| reflexivity].
    unfold hasResults in Hhas. apply andb_prop in Hhas as [Ht _]. exact Ht.
  - unfold SentimentBatch.analyzeBatchWithMistral.
    destruct (SimpleCache.get _ _ _) as [cached c]. simpl in Hmiss. rewrite Hmiss.
    unfold tryMistral. rewrite Hreply.
    destruct (extractMistral JSON_parse text) as [r |]; [| discriminate].
    apply andb_prop in Huse as [Hhas _]. rewrite Hhas. simpl.
    eexists. split; [| reflexivity].
    unfold hasResults in Hhas. apply andb_prop in Hhas as [_ Hres].
    destruct r as [| | | | | fields]; try discriminate Hres. reflexivity.
Qed.

(** A hit under the key of the texts is returned without asking anyone. *)
Lemma engine_hit invoke' env texts model result :
  SimpleCache.get (sentimentCache env) (clock env) (cacheKey (keyPrefix model) texts) =
    (Some result, sentimentCache env) →
  JsValue.truthy result = true →
  SentimentBatch.analyzeWith md5hex JSON_parse invoke' model env texts =
    ({| sentimentCache := sentimentCache env;
        sentimentModelRotator := sentimentModelRotator env;
        clock := clock env |}, inr result).
Proof.
  unfold keyPrefix, SentimentBatch.analyzeWith. intros Hget Ht.
  destruct (JsString.includes model "claude").
  - unfold SentimentBatch.analyzeBatchWithClaude. rewrite Hget. simpl. rewrite Ht.
    reflexivity.
  - unfold SentimentBatch.analyzeBatchWithMistral. rewrite Hget. simpl. rewrite Ht.
    reflexivity.
Qed.

(** The cache round trip.  Once a provider's usable reply has been returned
    for a batch, the same call within the next 600 seconds returns the same
    result without asking any provider, and leaves the state as it is; after
    600 seconds the cache misses again.  The key is a digest of the texts
    joined by [|||], so the same holds for any batch with the same joined
    text. *)
Theorem engine_cache_round_trip invoke' env texts texts' model text
    (Hmiss : cacheMisses env model texts)
    (Hreply : snd (ask (providerOf model) texts) = Content text)
    (Husable : usable model text = true)
    (Hjoined : JsString.join "|||" texts' = JsString.join "|||" texts) :
  ∃ env1 result,
    analyzeWith model env texts = (env1, inr result) ∧
    (∀ dt, dt <= 600000 →
       SentimentBatch.analyzeWith md5hex JSON_parse invoke' model
         (withClock env1 (clock env1 + dt)) texts' =
       (withClock env1 (clock env1 + dt), inr result)) ∧
    (∀ dt, 600000 < dt → cacheMisses (withClock env1 (clock env1 + dt)) model texts').
Proof.
  destruct (ask (providerOf model) texts) as [latency reply] eqn:Hask.
  simpl in Hreply. subst reply.
  destruct (engine_success_state env texts model text latency Hmiss Hask Husable)
    as (result & Ht & Hwith).
  assert (cacheKey (keyPrefix model) texts' = cacheKey (keyPrefix model) texts) as Hkey
    by (unfold SentimentBatch.cacheKey; rewrite Hjoined; reflexivity).
  eexists _, result. split; [exact Hwith |]. split.
  - intros dt Hdt. rewrite (engine_hit invoke' _ texts' model result); [reflexivity | | exact Ht].
    cbn [sentimentCache clock withClock]. rewrite Hkey.
    apply cache_get_set_live. simpl. lia.
  - intros dt Hdt. unfold SentimentBatch.cacheMisses, SimpleCache.read.
    cbn [sentimentCache clock withClock]. rewrite Hkey.
    rewrite cache_get_set_expired by (simpl; lia). reflexivity.
Qed.

(** The cache after a failed call: whatever [get] left. *)
Lemma engine_failure_state env texts model :
  cacheMisses env model texts → providerFails model texts →
  sentimentCache (fst (analyzeWith model env texts)) =
  snd (SimpleCache.get (sentimentCache env) (clock env) (cacheKey (keyPrefix model) texts)).
Proof.
  unfold SentimentBatch.cacheMisses, SentimentBatch.providerFails,
    SentimentBatch.usable, SentimentBatch.parsed, keyPrefix, providerOf,
    SimpleCache.read, SentimentBatch.analyzeWith.
  destruct (JsString.includes model "claude"); intros Hmiss Hfail.
  - unfold SentimentBatch.analyzeBatchWithClaude.
    destruct (SimpleCache.get _ _ _) as [cached c]. simpl in Hmiss. rewrite Hmiss.
    unfold tryClaude. destruct (SentimentBatch.ask invoke claudeId texts) as [latency reply].
    simpl in Hfail. destruct reply as [e | text]; [reflexivity |].
    simpl in Hfail.
    destruct (extractClaude JSON_parse text) as [r |]; [| reflexivity].
    destruct (hasResults (Some r)); [| reflexivity]. simpl in Hfail. rewrite Hfail.
    reflexivity.
  - unfold SentimentBatch.analyzeBatchWithMistral.
    destruct (SimpleCache.get _ _ _) as [cached c]. simpl in Hmiss. rewrite Hmiss.
    unfold tryMistral. destruct (SentimentBatch.ask invoke mistralId texts) as [latency reply].
    simpl in Hfail. destruct reply as [e | text]; [reflexivity |].
    simpl in Hfail. rewrite andb_true_r in Hfail.
    destruct (extractMistral JSON_parse text); [rewrite Hfail |]; reflexivity.
Qed.

(** Failures are not cached.  When the provider fails, the placeholder
    result is returned but not stored: at any later instant the cache still
    has nothing usable for the texts, and the provider is asked again. *)
Theorem engine_failure_not_cached env texts model t
    (Hmiss : cacheMisses env model texts)
    (Hfail : providerFails model texts) :
  cacheMisses (withClock (fst (analyzeWith model env texts)) t) model texts.
Proof.
  pose proof (engine_failure_state env texts model Hmiss Hfail) as Hstate.
  unfold SentimentBatch.cacheMisses in *.
  cbn [sentimentCache clock withClock]. rewrite Hstate.
  rewrite cache_read_lookup, cache_lookup_after_get.
  rewrite cache_read_lookup in Hmiss.
  destruct (SimpleCache.cache (sentimentCache env) !! _) as [item |]; [| reflexivity].
  destruct (decide _) as [_ | Hne]; [| done].
  destruct (clock env >? SimpleCache.expiry item); [reflexivity |].
  destruct (t >? SimpleCache.expiry item); [reflexivity | exact Hmiss].
Qed.

(** The key does not tell batches apart.  Two neighbouring texts and the
    single text that holds [|||] between them give the same key: a batch
    can be answered from the cache with the result stored for a batch of
    another length. *)
Theorem engine_cache_key_collision prefix l1 a b l2 :
  cacheKey prefix (l1 ++ a :: b :: l2) =
    cacheKey prefix (l1 ++ (a ++ "|||" ++ b)%string :: l2) ∧
  length (l1 ++ a :: b :: l2) = S (length (l1 ++ (a ++ "|||" ++ b)%string :: l2)).
Proof.
  split.
  - unfold SentimentBatch.cacheKey. rewrite str_join_collision. reflexivity.
  - rewrite !length_app. simpl. lia.
Qed.

End EngineCacheFacts.

Section EngineFallbackFacts.
Import SentimentBatch.
Variable md5hex : string → string.
Variable JSON_parse : string → option Json.
Variable invoke : string → nat → string → Z * Reply.

Abbreviation analyzeBatchWithClaude := (analyzeBatchWithClaude md5hex JSON_parse invoke).
Abbreviation analyzeBatchWithMistral := (analyzeBatchWithMistral md5hex JSON_parse invoke).
Abbreviation cacheMisses := (cacheMisses md5hex).
Abbreviation cacheKey := (cacheKey md5hex).
Abbreviation ask := (ask invoke).

Lemma str_startsWith_lower s : ∀ p,
  JsString.startsWith s p = true →
  JsString.startsWith (JsString.toLowerCase s) (JsString.toLowerCase p) = true.
Proof.
  induction s as [| b s IH]; intros [| a p]; simpl; try done.
  intros H. apply andb_prop in H as [Hab Hrest].
  apply Ascii.eqb_eq in Hab as ->. rewrite Ascii.eqb_refl. simpl. apply IH, Hrest.
Qed.

Lemma str_includes_lower s p :
  JsString.includes s p = true →
  JsString.includes (JsString.toLowerCase s) (JsString.toLowerCase p) = true.
Proof.
  induction s as [| b s IH]; simpl; intros H.
  - rewrite orb_false_r in *. apply (str_startsWith_lower EmptyString p H).
  - apply orb_prop in H as [H | H]; apply orb_true_intro.
    + left. apply (str_startsWith_lower (String b s) p H).
    + right. apply IH, H.
Qed.

(** The two throttling tests.  Every message the [catch] clause of
    [analyzeBatchWithClaude] takes for throttling (it looks for
    [rate limit] and [Too many requests], case-sensitively) is one the
    queue's [isRateLimitError] takes for throttling as well. *)
Theorem engine_throttle_test_narrower m code
    (Htest : JsString.includes m "rate limit" || JsString.includes m "Too many requests"
             = true) :
  RateLimiter.isRateLimitError {| message := Some m; statusCode := code |} = true.
Proof.
  unfold RateLimiter.isRateLimitError. cbn [message statusCode default from_option].
  unfold id.
  apply orb_prop in Htest as [H | H]; apply str_includes_lower in H.
  - change (JsString.toLowerCase "rate limit") with "rate limit"%string in H.
    rewrite H. reflexivity.
  - change (JsString.toLowerCase "Too many requests") with "too many requests"%string in H.
    rewrite H, orb_true_r. reflexivity.
Qed.

Lemma engine_tryClaude_error env texts env' error :
  tryClaude md5hex JSON_parse invoke env texts = (env', inl error) →
  message error = None →
  ∃ latency, ask claudeId texts = (latency, Throws error).
Proof.
  unfold tryClaude. destruct (SentimentBatch.ask invoke claudeId texts) as [latency reply].
  destruct reply as [e | content].
  - intros [= _ ->] _. exists latency. reflexivity.
  - destruct (extractClaude JSON_parse content) as [r |]; [| intros [= _ <-]; discriminate].
    destruct (hasResults (Some r)); [| intros [= _ <-]; discriminate].
    destruct (negb _); [intros [= _ <-]; discriminate | discriminate].
Qed.

(** When [analyzeBatchWithClaude] rejects.  The exported function rejects
    in one situation only: the fallback flag is set (it is by default), the
    cache has nothing usable, and the rate-limited call throws an error
    object that carries no message, so that the test
    [error.message.includes] of the [catch] clause itself raises a
    [TypeError], which is what the caller gets.  In every other case (a
    cache hit, a reply whether usable or not, an error with a message,
    whatever [analyzeBatchWithMistral] then meets) it returns a result. *)
Theorem engine_claude_rejects_iff env texts flag :
  ((∃ env' error, analyzeBatchWithClaude env texts flag = (env', inl error)) ↔
   flag = true ∧ cacheMisses env claudeId texts ∧
   ∃ latency e, ask claudeId texts = (latency, Throws e) ∧ message e = None) ∧
  ∀ env' error,
    analyzeBatchWithClaude env texts flag = (env', inl error) →
    error = Error_ "Cannot read properties of undefined (reading 'includes')" ∧
    clock env' = clock env + fst (ask claudeId texts).
Proof.
  unfold SentimentBatch.cacheMisses, SimpleCache.read.
  change (keyPrefix claudeId) with "claude_batch_"%string.
  unfold SentimentBatch.analyzeBatchWithClaude.
  destruct (SimpleCache.get _ _ _) as [cached c]. cbn [fst].
  destruct (JsValue.whenTruthy cached) as [hit |] eqn:Hcached.
  { split; [split |].
    - intros (env' & error & H). discriminate.
    - intros (_ & H & _). discriminate.
    - intros env' error H. discriminate. }
  destruct (tryClaude _ _ _ _) as [env1 [error | result]] eqn:Htry.
  2: { split; [split |].
       - intros (env' & e & H). discriminate.
       - intros (-> & _ & latency & e & Hask & Hmsg). exfalso.
         unfold tryClaude in Htry. rewrite Hask in Htry. discriminate.
       - intros env' e H. discriminate. }
  assert (clock env1 = clock env + fst (SentimentBatch.ask invoke claudeId texts)) as Hclock.
  { unfold tryClaude in Htry.
    destruct (SentimentBatch.ask invoke claudeId texts) as [latency reply].
    destruct reply as [e | content]; [injection Htry as <- _; reflexivity |].
    destruct (extractClaude JSON_parse content) as [r |];
      [| injection Htry as <- _; reflexivity].
    destruct (hasResults (Some r)); [| injection Htry as <- _; reflexivity].
    destruct (negb _); [injection Htry as <- _; reflexivity | discriminate]. }
  destruct flag.
  2: { split; [split |].
       - intros (env' & e & H). discriminate.
       - intros (H & _). discriminate.
       - intros env' e H. discriminate. }
  destruct (message error) as [m |] eqn:Hmsg.
  - assert (∀ env' e,
              (if JsString.includes m "rate limit" || JsString.includes m "Too many requests"
               then analyzeBatchWithMistral env1 texts
               else (env1, inr (errorResult "Batch analysis failed"
                                  "Analysis unavailable due to API error" texts)))
              ≠ (env', inl e)) as Hreturns.
    { intros env' e. destruct (_ || _); [| discriminate].
      unfold SentimentBatch.analyzeBatchWithMistral.
      destruct (SimpleCache.get _ _ _) as [cached' c'].
      destruct (JsValue.whenTruthy cached'); [discriminate |].
      destruct (tryMistral _ _ _ _) as [env2 [e2 | r2]]; discriminate. }
    split; [split |].
    + intros (env' & e & H). exfalso. exact (Hreturns env' e H).
    + intros (_ & _ & latency & e & Hask & Hnone). exfalso.
      unfold tryClaude in Htry. rewrite Hask in Htry. injection Htry as _ <-.
      congruence.
    + intros env' e H. exfalso. exact (Hreturns env' e H).
  - split; [split |].
    + intros _. split; [reflexivity |]. split; [reflexivity |].
      destruct (engine_tryClaude_error _ _ _ _ Htry Hmsg) as [latency Hask].
      exists latency, error. split; assumption.
    + intros _. eauto.
    + intros env' e [= <- <-]. split; [reflexivity | exact Hclock].
Qed.

End EngineFallbackFacts.

Lemma engine_fallback_never_consulted_witness :
  SentimentBatch.analyzeBatchSmart SentimentBatch.sampleDigest SentimentBatch.sampleParse
    SentimentBatch.repliesEmpty SentimentBatch.cleanEnv ["good"; "bad"] =
  SentimentBatch.analyzeBatchSmart SentimentBatch.sampleDigest SentimentBatch.sampleParse
    SentimentBatch.mistralThrottled SentimentBatch.cleanEnv ["good"; "bad"].
Proof.
  apply (engine_fallback_never_consulted _ _ _ _ _ _ SentimentBatch.claudeId).
  - reflexivity.
  - intros n listing. reflexivity.
Defined.

Lemma engine_cache_round_trip_witness :
  ∃ env1 result,
    SentimentBatch.analyzeWith SentimentBatch.sampleDigest SentimentBatch.sampleParse
      SentimentBatch.repliesEmpty SentimentBatch.claudeId SentimentBatch.cleanEnv
      ["good"; "bad"] = (env1, inr result) ∧
    (∀ dt, dt <= 600000 →
       SentimentBatch.analyzeWith SentimentBatch.sampleDigest SentimentBatch.sampleParse
         SentimentBatch.alwaysThrottled SentimentBatch.claudeId
         (SentimentBatch.withClock env1 (SentimentBatch.clock env1 + dt))
         ["good|||bad"] =
       (SentimentBatch.withClock env1 (SentimentBatch.clock env1 + dt), inr result)) ∧
    (∀ dt, 600000 < dt →
       SentimentBatch.cacheMisses SentimentBatch.sampleDigest
         (SentimentBatch.withClock env1 (SentimentBatch.clock env1 + dt))
         SentimentBatch.claudeId ["good|||bad"]).
Proof.
  apply (engine_cache_round_trip SentimentBatch.sampleDigest SentimentBatch.sampleParse
           SentimentBatch.repliesEmpty SentimentBatch.alwaysThrottled
           SentimentBatch.cleanEnv ["good"; "bad"] ["good|||bad"] SentimentBatch.claudeId
           SentimentBatch.emptyResultsText); reflexivity.
Defined.

Lemma engine_failure_not_cached_witness :
  SentimentBatch.cacheMisses SentimentBatch.sampleDigest
    (SentimentBatch.withClock
       (fst (SentimentBatch.analyzeWith SentimentBatch.sampleDigest
               SentimentBatch.sampleParse SentimentBatch.alwaysThrottled
               SentimentBatch.mistralId SentimentBatch.cleanEnv ["good"; "bad"]))
       1700000020000)
    SentimentBatch.mistralId ["good"; "bad"].
Proof.
  apply (engine_failure_not_cached SentimentBatch.sampleDigest SentimentBatch.sampleParse
           SentimentBatch.alwaysThrottled SentimentBatch.cleanEnv ["good"; "bad"]
           SentimentBatch.mistralId 1700000020000).
  - reflexivity.
  - exact I.
Defined.

Lemma engine_throttle_test_narrower_witness :
  RateLimiter.isRateLimitError
    {| message := Some "Bedrock: Too many requests, please wait"; statusCode := None |} = true.
Proof.
  apply (engine_throttle_test_narrower "Bedrock: Too many requests, please wait" None).
  reflexivity.
Defined.

(** ** The batch size of a non-empty list *)

Section BatchSizeFormulaFacts.
Import JsNum.

Lemma num_Qmin_inject a b : Qmin (inject_Z a) (inject_Z b) = inject_Z (Z.min a b).
Proof.
  unfold Qmin, GenericMinMax.gmin, Z.min, Qcompare, inject_Z; simpl.
  rewrite !Z.mul_1_r. destruct (a ?= b); reflexivity.
Qed.

Lemma num_Qmax_inject a b : Qmax (inject_Z a) (inject_Z b) = inject_Z (Z.max a b).
Proof.
  unfold Qmax, GenericMinMax.gmax, Z.max, Qcompare, inject_Z; simpl.
  rewrite !Z.mul_1_r. destruct (a ?= b); reflexivity.
Qed.

Lemma num_Qfloor_div a b : 0 < b → Qfloor (inject_Z a / inject_Z b) = a / b.
Proof.
  intros Hb. destruct b as [| p | p]; try lia.
  unfold Qdiv, Qmult, Qinv, inject_Z, Qfloor; simpl. rewrite Z.mul_1_r. reflexivity.
Qed.

Lemma num_Qeq_bool_inject a : Qeq_bool (inject_Z a) 0 = (a =? 0).
Proof.
  unfold Qeq_bool, inject_Z; simpl. rewrite Z.mul_1_r.
  destruct a; reflexivity.
Qed.

(** The sum of the lengths is not negative. *)
Lemma num_total_nonneg (texts : list string) : ∀ acc,
  0 <= acc → 0 <= fold_left (fun sum t => sum + Z.of_nat (String.length t)) texts acc.
Proof.
  induction texts as [| t texts IH]; intros acc Hacc; simpl; [exact Hacc |].
  apply IH. lia.
Qed.

(** The clamp, for a list of [len] texts of [total] characters: with [t]
    the tokens per text, the size is [hi] when [t] is 0 (the quotient is
    [Infinity]) and [10000 / t] cut to the range otherwise. *)
Lemma num_size_formula hi total len :
  0 < len → 0 <= total → 5 <= hi →
  let t := Qceiling (inject_Z total / inject_Z len / inject_Z 4) in
  0 <= t ∧
  max (ofZ 5)
      (min (ofZ hi)
           (floor (div (ofZ 10000) (ceil (div (div (ofZ total) (ofZ len)) (ofZ 4)))))) =
  ofZ (if t =? 0 then hi else Z.max 5 (Z.min hi (10000 / t))).
Proof.
  intros Hlen Htotal Hhi t.
  assert (0 < inject_Z len)%Q as Hlenq by (unfold Qlt, inject_Z; simpl; lia).
  assert (0 <= inject_Z total)%Q as Htotalq by (unfold Qle, inject_Z; simpl; lia).
  assert (0 <= t) as Ht.
  { unfold t. rewrite <- (Qceiling_Z 0). apply Qceiling_resp_le.
    apply Qle_shift_div_l; [reflexivity |]. rewrite Qmult_0_l.
    apply Qle_shift_div_l; [exact Hlenq |]. rewrite Qmult_0_l. exact Htotalq. }
  split; [exact Ht |].
  unfold ofZ at 3 4. simpl div at 3.
  rewrite num_Qeq_bool_inject. destruct (Z.eqb_spec len 0) as [| _]; [lia |].
  unfold ofZ at 3. simpl div at 2. simpl ceil. fold t.
  unfold ofZ at 3 4. simpl div. rewrite num_Qeq_bool_inject.
  destruct (Z.eqb_spec t 0) as [Hz | Hnz].
  - simpl. unfold ofZ. rewrite num_Qmax_inject. f_equal. f_equal. lia.
  - unfold floor, ofZ, min, max. rewrite num_Qfloor_div by lia.
    rewrite num_Qmin_inject, num_Qmax_inject. reflexivity.
Qed.

(** [getOptimalBatchSize] on a non-empty list.  The size is a whole number
    from 5 to 10.  It is 10 when the texts average at most 4000 characters
    (an average of 0 included, where the quotient is [Infinity]), and 5 when
    they average more than 6664.  The earlier copy of the function differs
    in the upper end only: 25, reached at an average of at most 1600. *)
Theorem batch_size_of_nonempty_list (texts : list string) (Hne : texts ≠ []) :
  let total := fold_left (fun sum t => sum + Z.of_nat (String.length t)) texts 0 in
  let len := Z.of_nat (length texts) in
  (∃ k, SentimentBatch.getOptimalBatchSize texts = ofZ k ∧ 5 <= k <= 10) ∧
  (∃ k, SentimentBatchWide.getOptimalBatchSize texts = ofZ k ∧ 5 <= k <= 25) ∧
  (total <= 4000 * len → SentimentBatch.getOptimalBatchSize texts = ofZ 10) ∧
  (total <= 1600 * len → SentimentBatchWide.getOptimalBatchSize texts = ofZ 25) ∧
  (6664 * len < total →
     SentimentBatch.getOptimalBatchSize texts = ofZ 5 ∧
     SentimentBatchWide.getOptimalBatchSize texts = ofZ 5).
Proof.
  intros total len.
  assert (0 < len) as Hlen by (unfold len; destruct texts; [done | simpl; lia]).
  assert (0 <= total) as Htotal by (apply num_total_nonneg; lia).
  assert (0 < inject_Z len)%Q as Hlenq by (unfold Qlt, inject_Z; simpl; lia).
  set (t := Qceiling (inject_Z total / inject_Z len / inject_Z 4)).
  destruct (num_size_formula 10 total len Hlen Htotal ltac:(lia)) as [Ht H10].
  destruct (num_size_formula 25 total len Hlen Htotal ltac:(lia)) as [_ H25].
  fold t in Ht, H10, H25.
  assert (∀ bound, total <= 4 * bound * len → t <= bound) as Hshort.
  { intros bound Hb. unfold t. rewrite <- (Qceiling_Z bound). apply Qceiling_resp_le.
    apply Qle_shift_div_r; [reflexivity |].
    apply Qle_shift_div_r; [exact Hlenq |].
    rewrite <- !inject_Z_mult. unfold Qle, inject_Z; simpl. lia. }
  assert (6664 * len < total → 1667 <= t) as Hlong.
  { intros Hb.
    assert (inject_Z 1666 < inject_Z total / inject_Z len / inject_Z 4)%Q as Hq.
    { apply Qlt_shift_div_l; [reflexivity |].
      apply Qlt_shift_div_l; [exact Hlenq |].
      rewrite <- !inject_Z_mult. unfold Qlt, inject_Z; simpl. lia. }
    pose proof (Qle_ceiling (inject_Z total / inject_Z len / inject_Z 4)) as Hc.
    fold t in Hc.
    assert (inject_Z 1666 < inject_Z t)%Q as Hlt by (eapply Qlt_le_trans; eassumption).
    unfold Qlt, inject_Z in Hlt; simpl in Hlt. lia. }
  unfold SentimentBatch.getOptimalBatchSize, SentimentBatchWide.getOptimalBatchSize.
  fold total len. rewrite H10, H25.
  split; [| split; [| split; [| split]]].
  - eexists. split; [reflexivity |]. destruct (t =? 0); lia.
  - eexists. split; [reflexivity |]. destruct (t =? 0); lia.
  - intros Hb. specialize (Hshort 1000 ltac:(lia)). f_equal. f_equal.
    destruct (Z.eqb_spec t 0); [reflexivity |].
    assert (10000 / 1000 <= 10000 / t) by (apply Z.div_le_compat_l; lia).
    change (10000 / 1000) with 10 in *. lia.
  - intros Hb. specialize (Hshort 400 ltac:(lia)). f_equal. f_equal.
    destruct (Z.eqb_spec t 0); [reflexivity |].
    assert (10000 / 400 <= 10000 / t) by (apply Z.div_le_compat_l; lia).
    change (10000 / 400) with 25 in *. lia.
  - intros Hb. specialize (Hlong Hb).
    assert (10000 / t <= 10000 / 1667) by (apply Z.div_le_compat_l; lia).
    change (10000 / 1667) with 5 in *.
    destruct (Z.eqb_spec t 0); [lia |].
    split; f_equal; f_equal; lia.
Qed.

End BatchSizeFormulaFacts.

Lemma batch_size_of_nonempty_list_witness :
  SentimentBatch.getOptimalBatchSize ["short"; "texts"; EmptyString] = JsNum.ofZ 10 ∧
  SentimentBatchWide.getOptimalBatchSize ["short"; "texts"; EmptyString] = JsNum.ofZ 25.
Proof.
  destruct (batch_size_of_nonempty_list ["short"; "texts"; EmptyString] ltac:(discriminate))
    as (_ & _ & H10 & H25 & _).
  split; [apply H10 | apply H25]; simpl; lia.
Defined.

(** ** Extraction of the JSON text *)

Section ExtractionFacts.
Import SentimentBatch.

Lemma ext_fromFirst_Some c s u :
  fromFirst c s = Some u →
  ∃ pre rest, s = (pre ++ u)%string ∧ u = String c rest ∧
              c ∉ list_ascii_of_string pre.
Proof.
  induction s as [| a s IH]; simpl; [discriminate |].
  destruct (Ascii.eqb_spec a c) as [-> | Hne].
  - intros [= <-]. exists EmptyString, s. repeat split. apply not_elem_of_nil.
  - intros H. destruct (IH H) as (pre & rest & -> & -> & Hpre).
    exists (String a pre), rest. repeat split. simpl.
    apply not_elem_of_cons. split; [congruence | exact Hpre].
Qed.

Lemma ext_throughLast_None c s :
  throughLast c s = None → c ∉ list_ascii_of_string s.
Proof.
  induction s as [| a s IH]; simpl; [intros _; apply not_elem_of_nil |].
  destruct (throughLast c s); [discriminate |].
  destruct (Ascii.eqb_spec a c) as [-> | Hne]; [discriminate |].
  intros _. apply not_elem_of_cons. split; [congruence | apply IH; reflexivity].
Qed.

Lemma ext_throughLast_Some c s : ∀ u,
  throughLast c s = Some u →
  ∃ mid post, s = (u ++ post)%string ∧ u = (mid ++ String c EmptyString)%string ∧
              c ∉ list_ascii_of_string post.
Proof.
  induction s as [| a s IH]; simpl; intros u; [discriminate |].
  destruct (throughLast c s) as [u0 |] eqn:E.
  - intros [= <-]. destruct (IH u0 eq_refl) as (mid & post & -> & -> & Hpost).
    exists (String a mid), post. repeat split. exact Hpost.
  - destruct (Ascii.eqb_spec a c) as [-> | Hne]; [| discriminate].
    intros [= <-]. exists EmptyString, s. repeat split.
    apply ext_throughLast_None, E.
Qed.

Lemma ext_throughLast_is_Some c x y :
  is_Some (throughLast c (x ++ String c y)%string).
Proof.
  induction x as [| a x IH]; simpl.
  - destruct (throughLast c y); [eauto |]. rewrite Ascii.eqb_refl. eauto.
  - destruct IH as [u ->]. eauto.
Qed.

Lemma ext_fromFirst_app c pre x :
  ∃ r0, fromFirst c (pre ++ String c x)%string = Some (String c (r0 ++ x)%string).
Proof.
  induction pre as [| a pre IH]; simpl.
  - rewrite Ascii.eqb_refl. exists EmptyString. reflexivity.
  - destruct (Ascii.eqb_spec a c) as [-> | Hne]; [| exact IH].
    exists (pre ++ String c EmptyString)%string. rewrite str_app_assoc. reflexivity.
Qed.

(** The greedy match of an opening brace, anything, and a closing brace.
    When [matchBraces] finds a text, it is the part of the content from its
    first opening brace to its last closing brace; it finds none only when
    the content holds no opening brace with a closing brace after it. *)
Theorem extraction_braces content :
  match matchBraces content with
  | Some found =>
      ∃ pre mid post,
        content = (pre ++ found ++ post)%string ∧
        found = ("{" ++ mid ++ "}")%string ∧
        ("{"%char ∉ list_ascii_of_string pre) ∧
        ("}"%char ∉ list_ascii_of_string post)
  | None =>
      ∀ pre mid post, content ≠ (pre ++ "{" ++ mid ++ "}" ++ post)%string
  end.
Proof.
  unfold matchBraces.
  destruct (fromFirst "{" content) as [u |] eqn:Hfirst.
  - destruct (ext_fromFirst_Some _ _ _ Hfirst) as (pre & rest & -> & -> & Hpre).
    destruct (throughLast "}" rest) as [v |] eqn:Hlast; simpl.
    + destruct (ext_throughLast_Some _ _ _ Hlast) as (mid & post & -> & -> & Hpost).
      exists pre, mid, post. repeat split; assumption.
    + intros pre' mid post Heq.
      destruct (ext_fromFirst_app "{" pre' (mid ++ "}" ++ post)) as [r0 Hr0].
      change (pre' ++ "{" ++ mid ++ "}" ++ post)%string
        with (pre' ++ String "{" (mid ++ "}" ++ post))%string in Heq.
      rewrite <- Heq, Hfirst in Hr0. injection Hr0 as ->.
      destruct (ext_throughLast_is_Some "}" (r0 ++ mid) post) as [v Hv].
      change (mid ++ "}" ++ post)%string with (mid ++ String "}" post)%string in Hlast.
      rewrite <- str_app_assoc in Hlast. congruence.
  - intros pre' mid post Heq.
    destruct (ext_fromFirst_app "{" pre' (mid ++ "}" ++ post)) as [r0 Hr0].
    change (pre' ++ "{" ++ mid ++ "}" ++ post)%string
      with (pre' ++ String "{" (mid ++ "}" ++ post))%string in Heq.
    rewrite <- Heq, Hfirst in Hr0. discriminate.
Qed.

End ExtractionFacts.

(** ** The analysis workflow as a whole *)

Section WorkflowOutcomeFacts.
Import Workflow.
Variable world : Task → nat → Attempt.

(** A task under the retry policy returns what the first of its five
    attempts that does not raise returns. *)
Lemma flow_callActivity_returns attempts r :
  callActivity attempts = Returns r ↔
  ∃ k, (k < 5)%nat ∧ attempts k = Returns r ∧
       ∀ j, (j < k)%nat → ∃ m, attempts j = Raises m.
Proof.
  unfold callActivity; simpl. split.
  - destruct (attempts 0%nat) eqn:E0;
      [intros [= ->]; exists 0%nat; repeat split; [lia | exact E0 | intros; lia] |].
    destruct (attempts 1%nat) eqn:E1;
      [intros [= ->]; exists 1%nat; repeat split; [lia | exact E1 |];
       intros [| j] Hj; [eauto | lia] |].
    destruct (attempts 2%nat) eqn:E2;
      [intros [= ->]; exists 2%nat; repeat split; [lia | exact E2 |];
       intros [| [| j]] Hj; [eauto | eauto | lia] |].
    destruct (attempts 3%nat) eqn:E3;
      [intros [= ->]; exists 3%nat; repeat split; [lia | exact E3 |];
       intros [| [| [| j]]] Hj; [eauto | eauto | eauto | lia] |].
    destruct (attempts 4%nat) eqn:E4; [| discriminate].
    intros [= ->]. exists 4%nat. repeat split; [lia | exact E4 |].
    intros [| [| [| [| j]]]] Hj; [eauto | eauto | eauto | eauto | lia].
  - intros (k & Hk & Hret & Hbefore).
    destruct k as [| [| [| [| [| k]]]]]; try lia.
    + rewrite Hret. reflexivity.
    + destruct (Hbefore 0%nat ltac:(lia)) as [? ->]. rewrite Hret. reflexivity.
    + destruct (Hbefore 0%nat ltac:(lia)) as [? ->].
      destruct (Hbefore 1%nat ltac:(lia)) as [? ->]. rewrite Hret. reflexivity.
    + destruct (Hbefore 0%nat ltac:(lia)) as [? ->].
      destruct (Hbefore 1%nat ltac:(lia)) as [? ->].
      destruct (Hbefore 2%nat ltac:(lia)) as [? ->]. rewrite Hret. reflexivity.
    + destruct (Hbefore 0%nat ltac:(lia)) as [? ->].
      destruct (Hbefore 1%nat ltac:(lia)) as [? ->].
      destruct (Hbefore 2%nat ltac:(lia)) as [? ->].
      destruct (Hbefore 3%nat ltac:(lia)) as [? ->]. rewrite Hret. reflexivity.
Qed.

(** All or nothing, at the end.  The run fails exactly when saving fails
    for good (all five attempts), or saving succeeds and the summary fails
    for good, and then with the error of the fifth attempt.  No failure of a
    connector, of a founder lookup, of the competitive search or of the
    sentiment analysis fails the run; the sentiment slot then holds the
    error string. *)
Theorem workflow_fails_only_at_the_end sched now inp :
  (∀ msg,
     startupAnalysisWorkflow world sched now inp = inl msg ↔
     ((∀ k, (k < 5)%nat → ∃ m, world SaveToDatabase k = Raises m) ∧
      world SaveToDatabase 4%nat = Raises msg) ∨
     ((∃ r, callActivity (world SaveToDatabase) = Returns r) ∧
      (∀ k, (k < 5)%nat → ∃ m, world GenerateSummary k = Raises m) ∧
      world GenerateSummary 4%nat = Raises msg)) ∧
  (∀ res,
     startupAnalysisWorkflow world sched now inp = inr res →
     analysisId (results res) = now ∧ input (results res) = inp ∧
     sentimentAnalysis (results res) =
       Some (outcomeText (callActivity (world AnalyzeSentiment))) ∧
     callActivity (world GenerateSummary) = Returns (summary res)).
Proof.
  unfold startupAnalysisWorkflow. split.
  - intros msg. rewrite <- !flow_callActivity_raises.
    destruct (callActivity (world SaveToDatabase)) as [r | m].
    + destruct (callActivity (world GenerateSummary)) as [s | m'].
      * split; [discriminate |]. intros [[=] | [_ [=]]].
      * split.
        -- intros [= ->]. right. eauto.
        -- intros [[=] | [_ [= ->]]]. reflexivity.
    + split.
      * intros [= ->]. left. reflexivity.
      * intros [[= ->] | [[r [=]] _]]. reflexivity.
  - intros res.
    destruct (callActivity (world SaveToDatabase)); [| discriminate].
    destruct (callActivity (world GenerateSummary)); [| discriminate].
    intros [= <-]. repeat split.
Qed.



End WorkflowOutcomeFacts.

(** ** Rounding to doubles *)

Section DoubleFacts.
Import JsNum.

Lemma num_roundHalfEven_le n d k : 0 < d → n <= k * d → roundHalfEven n d <= k.
Proof.
  intros Hd Hle. unfold roundHalfEven.
  pose proof (Z.div_mod n d ltac:(lia)) as Hdm.
  pose proof (Z.mod_pos_bound n d Hd) as Hmod.
  assert (n / d <= k) as Hq by (apply Z.div_le_upper_bound; lia).
  destruct (Z.compare_spec (2 * (n mod d)) d).
  - destruct (Z.even (n / d)); [lia | nia].
  - lia.
  - nia.
Qed.

Lemma num_roundHalfEven_nonneg n d : 0 <= n → 0 < d → 0 <= roundHalfEven n d.
Proof.
  intros Hn Hd. unfold roundHalfEven.
  pose proof (Z.div_pos n d Hn Hd).
  destruct (2 * (n mod d) ?= d); [destruct (Z.even (n / d)) | |]; lia.
Qed.

Lemma num_roundHalfEven_exact k d : 0 < d → roundHalfEven (k * d) d = k.
Proof.
  intros Hd. unfold roundHalfEven.
  rewrite Z.mod_mul, Z.div_mul by lia.
  destruct (Z.compare_spec (2 * 0) d); lia.
Qed.

(** A ratio below 2^53 has an exponent of 52 at most. *)
Lemma num_ilog2_small n d : Zpos n < 2 ^ 53 * Zpos d → ilog2 n d <= 52.
Proof.
  intros Hlt. unfold ilog2.
  destruct (Z.log2_spec (Zpos n) ltac:(lia)) as [Hn _].
  destruct (Z.log2_spec (Zpos d) ltac:(lia)) as [_ Hd].
  pose proof (Z.log2_nonneg (Zpos n)). pose proof (Z.log2_nonneg (Zpos d)).
  set (a := Z.log2 (Zpos n)) in *. set (b := Z.log2 (Zpos d)) in *.
  assert (2 ^ a < 2 ^ (b + 54)) as Hab.
  { replace (b + 54) with (53 + Z.succ b) by lia. rewrite Z.pow_add_r by lia. nia. }
  apply Z.pow_lt_mono_r_iff in Hab; [| lia | lia].
  destruct (Z.leb_spec 0 (a - b)).
  - destruct (Z.leb_spec (Zpos d * 2 ^ (a - b)) (Zpos n)) as [Hle |]; [| lia].
    assert (2 ^ (a - b) < 2 ^ 53) as Hpow by nia.
    apply Z.pow_lt_mono_r_iff in Hpow; lia.
  - destruct (_ <=? _); lia.
Qed.

Lemma num_Qred_integer z : Qred (inject_Z z) = inject_Z z.
Proof.
  unfold Qred, inject_Z.
  pose proof (Z.ggcd_correct_divisors z 1) as Hdiv.
  pose proof (Z.ggcd_gcd z 1) as Hgcd. rewrite Z.gcd_1_r in Hgcd.
  change (Z.pos 1) with 1.
  destruct (Z.ggcd z 1) as [g [aa bb]]. simpl in *. subst g.
  destruct Hdiv as [-> Hbb]. assert (bb = 1) as -> by lia.
  destruct aa; reflexivity.
Qed.

Lemma num_big : 2 ^ 53 < 2 ^ 1024.
Proof. apply Z.pow_lt_mono_r; lia. Qed.

(** Rounding does not cross a whole number below 2^53: what is at most [k]
    rounds to at most [k]. *)
Lemma num_nearest_small n d k :
  Zpos n <= k * Zpos d → k < 2 ^ 53 →
  ∃ y, nearest n d = Fin y ∧ (0 <= y)%Q ∧ (y <= inject_Z k)%Q.
Proof.
  intros Hle Hk. unfold nearest.
  pose proof (num_ilog2_small n d ltac:(nia)) as He.
  set (p := Z.max (ilog2 n d) (-1022) - 52).
  assert (p <= 0) as Hp by (unfold p; lia).
  replace (Z.max 0 p) with 0 by lia. replace (Z.max 0 (- p)) with (- p) by lia.
  change (2 ^ 0) with 1. rewrite !Z.mul_1_r.
  assert (0 < 2 ^ (- p)) as Hdown by (apply Z.pow_pos_nonneg; lia).
  set (down := 2 ^ (- p)) in *.
  pose proof (num_roundHalfEven_le (Zpos n * down) (Zpos d) (k * down) ltac:(lia)
                ltac:(nia)) as Hm.
  pose proof (num_roundHalfEven_nonneg (Zpos n * down) (Zpos d) ltac:(lia) ltac:(lia))
    as Hm0.
  set (m := roundHalfEven (Zpos n * down) (Zpos d)) in *.
  assert ((m # Z.to_pos down) <= inject_Z k)%Q as Hv.
  { unfold Qle, inject_Z. simpl. rewrite Z2Pos.id by lia. lia. }
  assert (0 <= (m # Z.to_pos down))%Q as Hv0 by (unfold Qle; simpl; lia).
  destruct (Qle_bool (inject_Z (2 ^ 1024)) (m # Z.to_pos down)) eqn:Hover.
  - exfalso. apply Qle_bool_iff in Hover.
    pose proof (Qle_trans _ _ _ Hover Hv) as Hbig.
    unfold Qle, inject_Z in Hbig. simpl in Hbig. pose proof num_big. lia.
  - eexists. split; [reflexivity |]. rewrite Qred_correct. split; assumption.
Qed.

Lemma num_double_small q k :
  (0 <= q)%Q → (q <= inject_Z k)%Q → k < 2 ^ 53 →
  ∃ y, double q = Fin y ∧ (0 <= y)%Q ∧ (y <= inject_Z k)%Q.
Proof.
  intros H0 Hk Hsmall. unfold double.
  rewrite <- (Qred_correct q) in H0, Hk.
  destruct (Qred q) as [num den]. simpl.
  destruct num as [| n | n].
  - exists 0%Q. split; [reflexivity |]. split; [apply Qle_refl |].
    apply (Qle_trans _ _ _ H0 Hk).
  - apply num_nearest_small; [| exact Hsmall].
    unfold Qle, inject_Z in Hk. simpl in Hk. lia.
  - exfalso. unfold Qle in H0. simpl in H0. lia.
Qed.

Lemma num_double_Qeq q q' : q == q' → double q = double q'.
Proof. intros H. unfold double. rewrite (Qred_complete q q' H). reflexivity. Qed.

Lemma num_nearest_integer n : Zpos n <= 2 ^ 53 → nearest n 1 = ofZ (Zpos n).
Proof.
  intros Hle. destruct (Z.eq_dec (Zpos n) (2 ^ 53)) as [Heq | Hne].
  { injection Heq as ->. vm_compute. reflexivity. }
  unfold nearest.
  pose proof (num_ilog2_small n 1 ltac:(lia)) as He.
  set (p := Z.max (ilog2 n 1) (-1022) - 52).
  assert (p <= 0) as Hp by (unfold p; lia).
  replace (Z.max 0 p) with 0 by lia. replace (Z.max 0 (- p)) with (- p) by lia.
  change (2 ^ 0) with 1. rewrite !Z.mul_1_r.
  assert (0 < 2 ^ (- p)) as Hdown by (apply Z.pow_pos_nonneg; lia).
  set (down := 2 ^ (- p)) in *.
  replace (roundHalfEven (Zpos n * down) 1) with (Zpos n * down)
    by (rewrite <- (Z.mul_1_r (Zpos n * down)) at 2;
        rewrite num_roundHalfEven_exact; lia).
  assert ((Zpos n * down # Z.to_pos down) == inject_Z (Zpos n))%Q as Hv.
  { unfold Qeq, inject_Z. simpl. rewrite Z2Pos.id by lia. lia. }
  destruct (Qle_bool (inject_Z (2 ^ 1024)) (Zpos n * down # Z.to_pos down)) eqn:Hover.
  - exfalso. apply Qle_bool_iff in Hover. rewrite Hv in Hover.
    unfold Qle, inject_Z in Hover. simpl in Hover. pose proof num_big. lia.
  - unfold ofZ. rewrite (Qred_complete _ _ Hv), num_Qred_integer. reflexivity.
Qed.

(** Whole numbers up to 2^53 are doubles. *)
Lemma num_double_integer z : Z.abs z <= 2 ^ 53 → double (inject_Z z) = ofZ z.
Proof.
  intros Hz. unfold double. rewrite num_Qred_integer. unfold inject_Z at 1 2. simpl.
  destruct z as [| n | n].
  - reflexivity.
  - apply num_nearest_integer. lia.
  - rewrite num_nearest_integer by lia. reflexivity.
Qed.

Lemma num_nearest_nonneg n d : nonNegative (nearest n d).
Proof.
  unfold nearest.
  set (p := Z.max (ilog2 n d) (-1022) - 52).
  assert (0 < 2 ^ Z.max 0 p) as Hup by (apply Z.pow_pos_nonneg; lia).
  assert (0 < 2 ^ Z.max 0 (- p)) as Hdown by (apply Z.pow_pos_nonneg; lia).
  set (up := 2 ^ Z.max 0 p) in *. set (down := 2 ^ Z.max 0 (- p)) in *.
  pose proof (num_roundHalfEven_nonneg (Zpos n * down) (Zpos d * up) ltac:(lia) ltac:(lia)).
  destruct (Qle_bool _ _); [exact I |]. simpl.
  rewrite Qred_correct. unfold Qle. simpl. nia.
Qed.

Lemma num_double_nonneg q : (0 <= q)%Q → nonNegative (double q).
Proof.
  intros H0. unfold double. rewrite <- (Qred_correct q) in H0.
  destruct (Qred q) as [num den]. simpl.
  destruct num as [| n | n].
  - simpl. apply Qle_refl.
  - apply num_nearest_nonneg.
  - exfalso. unfold Qle in H0. simpl in H0. lia.
Qed.

Lemma num_lt_ofZ a b : lt (ofZ a) (ofZ b) = (a <? b).
Proof.
  unfold lt, ofZ, Qle_bool, inject_Z. simpl. rewrite !Z.mul_1_r.
  destruct (Z.leb_spec b a), (Z.ltb_spec a b); simpl; lia || reflexivity.
Qed.

Lemma num_plus_ofZ a b : Z.abs (a + b) <= 2 ^ 53 → plus (ofZ a) (ofZ b) = ofZ (a + b).
Proof.
  intros H. unfold plus, ofZ.
  rewrite (num_double_Qeq _ (inject_Z (a + b))) by (rewrite inject_Z_plus; reflexivity).
  apply num_double_integer, H.
Qed.

Lemma num_times_ofZ a b : Z.abs (a * b) <= 2 ^ 53 → times (ofZ a) (ofZ b) = ofZ (a * b).
Proof.
  intros H. unfold times, ofZ.
  rewrite (num_double_Qeq _ (inject_Z (a * b))) by (rewrite inject_Z_mult; reflexivity).
  apply num_double_integer, H.
Qed.

Lemma num_double_between q k :
  (0 <= q)%Q → (q <= inject_Z k)%Q → k < 2 ^ 53 → between 0 k (double q).
Proof.
  intros H0 Hk Hsmall.
  destruct (num_double_small q k H0 Hk Hsmall) as (y & -> & Hy0 & Hyk).
  split; assumption.
Qed.

Lemma num_plus_between a b x y :
  between 0 a x → between 0 b y → a + b < 2 ^ 53 → between 0 (a + b) (plus x y).
Proof.
  destruct x as [qa | | |], y as [qb | | |]; simpl; try tauto.
  intros [Ha0 Ha] [Hb0 Hb] Hsmall. change (inject_Z 0) with 0%Q in *.
  apply num_double_between; [lra | rewrite inject_Z_plus; lra | exact Hsmall].
Qed.

Lemma num_quot_between n x :
  between 0 n x → 0 < n < 2 ^ 53 → between 0 1 (quot x (ofZ n)).
Proof.
  destruct x as [q | | |]; simpl; try tauto.
  intros [H0 Hn] Hpos. change (inject_Z 0) with 0%Q in *. unfold quot, div, ofZ.
  assert (0 < inject_Z n)%Q as Hnq by (unfold Qlt, inject_Z; simpl; lia).
  destruct (Qeq_bool (inject_Z n) 0) eqn:Hz.
  { apply Qeq_bool_iff in Hz. lra. }
  apply num_double_between; [| | lia].
  - apply Qle_shift_div_l; [exact Hnq | lra].
  - apply Qle_shift_div_r; [exact Hnq |]. change (inject_Z 1) with 1%Q. lra.
Qed.

End DoubleFacts.

(** ** Intervals and the monitoring workflow *)

Section IntervalFacts.
Import Workflow.

Lemma flow_splitLast_app s c :
  splitLast (s ++ String c EmptyString) = Some (s, c).
Proof.
  induction s as [| a s IH]; [reflexivity |].
  change (splitLast (String a (s ++ String c EmptyString)) = Some (String a s, c)).
  simpl. rewrite IH. reflexivity.
Qed.

Lemma flow_splitLast_Some s : ∀ v u,
  splitLast s = Some (v, u) → s = (v ++ String u EmptyString)%string.
Proof.
  induction s as [| a s IH]; intros v u; simpl; [discriminate |].
  destruct (splitLast s) as [[v' u'] |] eqn:E.
  - intros [= <- <-]. rewrite (IH v' u' eq_refl) at 1. reflexivity.
  - intros [= <- <-]. destruct s as [| b s]; [reflexivity |].
    simpl in E. destruct (splitLast s) as [[? ?] |]; discriminate.
Qed.

Lemma flow_units_pos unit factor : units unit = Some factor → 0 < factor.
Proof.
  unfold units. repeat (destruct (Ascii.eqb unit _); [intros [= <-]; lia |]).
  discriminate.
Qed.

Lemma flow_digits_nonempty value :
  value ≠ Decimal.Nil → NilEmpty.string_of_uint value ≠ EmptyString.
Proof. destruct value; simpl; congruence. Qed.

Lemma flow_duration_nonneg n factor :
  0 < factor → JsNum.nonNegative (JsNum.times (JsNum.parseInt n) (JsNum.ofZ factor)).
Proof.
  intros Hfactor. unfold JsNum.parseInt.
  pose proof (num_double_nonneg (inject_Z (Z.of_N n))
                ltac:(unfold Qle, inject_Z; simpl; lia)) as Hn.
  assert (0 < inject_Z factor)%Q as Hq by (unfold Qlt, inject_Z; simpl; lia).
  destruct (JsNum.double (inject_Z (Z.of_N n))) as [q | | |]; simpl in Hn; try tauto.
  - unfold JsNum.times, JsNum.ofZ. apply num_double_nonneg. nra.
  - unfold JsNum.times, JsNum.ofZ.
    destruct (Qeq_bool (inject_Z factor) 0) eqn:Hz; [apply Qeq_bool_iff in Hz; lra |].
    destruct (Qle_bool 0 (inject_Z factor)) eqn:Hle; [exact I |].
    assert (Qle_bool 0 (inject_Z factor) = true) as Htrue
      by (apply Qle_bool_iff; lra).
    congruence.
Qed.

Lemma flow_duration_exact n factor :
  0 < factor → Z.of_N n * factor <= 2 ^ 53 →
  JsNum.times (JsNum.parseInt n) (JsNum.ofZ factor) = JsNum.ofZ (Z.of_N n * factor).
Proof.
  intros Hfactor Hsmall. unfold JsNum.parseInt.
  rewrite num_double_integer by nia. apply num_times_ofZ. nia.
Qed.

(** What [parseInterval] accepts and what it rejects. *)
Lemma flow_interval_cases interval :
  match parseInterval interval with
  | inr ms =>
      ∃ value unit factor,
        value ≠ Decimal.Nil ∧
        interval = (NilEmpty.string_of_uint value ++ String unit EmptyString)%string ∧
        units unit = Some factor ∧
        ms = JsNum.times (JsNum.parseInt (N.of_uint value)) (JsNum.ofZ factor) ∧
        JsNum.nonNegative ms ∧
        (Z.of_N (N.of_uint value) * factor <= 2 ^ 53 →
         ms = JsNum.ofZ (Z.of_N (N.of_uint value) * factor))
  | inl msg =>
      msg = ("Invalid interval format: " ++ interval)%string ∧
      ∀ value unit,
        value ≠ Decimal.Nil → is_Some (units unit) →
        interval ≠ (NilEmpty.string_of_uint value ++ String unit EmptyString)%string
  end.
Proof.
  unfold parseInterval, matchInterval.
  destruct (splitLast interval) as [[v u] |] eqn:Hsplit.
  - pose proof (flow_splitLast_Some _ _ _ Hsplit) as ->.
    assert (∀ value unit,
              (v ++ String u EmptyString)%string =
              (NilEmpty.string_of_uint value ++ String unit EmptyString)%string →
              v = NilEmpty.string_of_uint value ∧ u = unit) as Hsame.
    { intros value unit Heq. rewrite Heq, flow_splitLast_app in Hsplit.
      injection Hsplit as -> ->. split; reflexivity. }
    destruct v as [| d ds].
    { split; [reflexivity |]. intros value unit Hnil _ Heq.
      destruct (Hsame _ _ Heq) as [He _].
      exact (flow_digits_nonempty value Hnil (eq_sym He)). }
    destruct (NilEmpty.uint_of_string (String d ds)) as [value |] eqn:Hdigits.
    + destruct (units u) as [factor |] eqn:Hunit.
      * exists value, u, factor.
        pose proof (NilEmpty.sus _ _ Hdigits) as Hprint.
        split; [intros ->; discriminate Hprint |].
        split; [rewrite Hprint; reflexivity |].
        split; [exact Hunit |]. split; [reflexivity |].
        pose proof (flow_units_pos u factor Hunit) as Hfactor.
        split; [apply flow_duration_nonneg, Hfactor | apply flow_duration_exact, Hfactor].
      * split; [reflexivity |]. intros value' unit Hnil [factor Hfactor] Heq.
        destruct (Hsame _ _ Heq) as [_ <-]. congruence.
    + split; [reflexivity |]. intros value' unit Hnil _ Heq.
      destruct (Hsame _ _ Heq) as [He _].
      rewrite He, NilEmpty.usu in Hdigits. discriminate.
  - split; [reflexivity |]. intros value unit _ _ Heq.
    rewrite Heq, flow_splitLast_app in Hsplit. discriminate.
Qed.

(** Round trip with the decimal printer. *)
Lemma flow_interval_round_trip n unit factor (Hunit : units unit = Some factor) :
  parseInterval (NilEmpty.string_of_uint (N.to_uint n) ++ String unit EmptyString) =
    inr (JsNum.times (JsNum.parseInt n) (JsNum.ofZ factor)).
Proof.
  unfold parseInterval, matchInterval. rewrite flow_splitLast_app.
  assert (N.to_uint n ≠ Decimal.Nil) as Hnil.
  { destruct n as [| p]; [discriminate | apply DecimalPos.Unsigned.to_uint_nonnil]. }
  destruct (NilEmpty.string_of_uint (N.to_uint n)) as [| d ds] eqn:Hprint.
  { exfalso. exact (flow_digits_nonempty _ Hnil Hprint). }
  rewrite <- Hprint, NilEmpty.usu, Hunit, DecimalN.Unsigned.of_to. reflexivity.
Qed.

(** The format of an interval.  [parseInterval] accepts exactly the strings
    made of one or more decimal digits followed by one of [s], [m], [h],
    [d]; for every other string it throws, naming the string.  What it
    returns is not negative, and it is the number times the unit's
    milliseconds whenever that product is at most 2^53; beyond, the
    product is rounded, as the number itself is, and it is [Infinity] from
    309 digits on.  A number printed in decimal and followed by a unit
    parses to that number of units, in milliseconds, within the same
    bound. *)
Theorem interval_format interval :
  match parseInterval interval with
  | inr ms =>
      ∃ value unit factor,
        value ≠ Decimal.Nil ∧
        interval = (NilEmpty.string_of_uint value ++ String unit EmptyString)%string ∧
        units unit = Some factor ∧
        ms = JsNum.times (JsNum.parseInt (N.of_uint value)) (JsNum.ofZ factor) ∧
        JsNum.nonNegative ms ∧
        (Z.of_N (N.of_uint value) * factor <= 2 ^ 53 →
         ms = JsNum.ofZ (Z.of_N (N.of_uint value) * factor))
  | inl msg =>
      msg = ("Invalid interval format: " ++ interval)%string ∧
      ∀ value unit,
        value ≠ Decimal.Nil → is_Some (units unit) →
        interval ≠ (NilEmpty.string_of_uint value ++ String unit EmptyString)%string
  end ∧
  (∀ n unit factor,
     units unit = Some factor → Z.of_N n * factor <= 2 ^ 53 →
     parseInterval (NilEmpty.string_of_uint (N.to_uint n) ++ String unit EmptyString) =
       inr (JsNum.ofZ (Z.of_N n * factor))) ∧
  parseInterval "9007199254740993s" = inr (JsNum.ofZ 9007199254740992000) ∧
  parseInterval (String.concat EmptyString (repeat "9"%string (Z.to_nat 309)) ++ "d") =
    inr JsNum.PosInf.
Proof.
  split; [apply flow_interval_cases |]. split; [| split; vm_compute; reflexivity].
  intros n unit factor Hunit Hsmall.
  rewrite (flow_interval_round_trip n unit factor Hunit).
  f_equal. apply flow_duration_exact; [| exact Hsmall].
  apply (flow_units_pos unit factor Hunit).
Qed.

End IntervalFacts.

Section MonitoringFacts.
Import Workflow.
Variable worlds : nat → Task → nat → Attempt.
Variable scheds : nat → Schedule.
Variable elapsed : nat → Z.
Variable sleepInfinity : option string.

Abbreviation monitorLoop := (monitorLoop worlds scheds elapsed sleepInfinity).
Abbreviation startupMonitoringWorkflow :=
  (startupMonitoringWorkflow worlds scheds elapsed sleepInfinity).

(** The loop with a finite interval. *)
Lemma flow_monitor_step fuel i t endTime intervalMs startupName :
  monitorLoop fuel i t endTime (JsNum.ofZ intervalMs) startupName =
    if JsNum.lt (JsNum.ofZ t) endTime then
      match fuel with
      | O => None
      | S fuel' =>
          match startupAnalysisWorkflow (worlds i) (scheds i) t (monitored startupName) with
          | inl msg => Some (inl msg)
          | inr _ =>
              monitorLoop fuel' (S i) (t + elapsed i + intervalMs) endTime
                (JsNum.ofZ intervalMs) startupName
          end
      end
    else Some (inr i).
Proof.
  destruct fuel as [| fuel]; [reflexivity |].
  cbn [Workflow.monitorLoop JsNum.ofZ]. rewrite Qfloor_Z. reflexivity.
Qed.

Lemma flow_monitor_loop step endTime intervalMs startupName :
  0 < step →
  (∀ i, step <= elapsed i + intervalMs) →
  (∀ i t, ∃ res, startupAnalysisWorkflow (worlds i) (scheds i) t (monitored startupName)
                 = inr res) →
  ∀ fuel i t,
    endTime - t <= Z.of_nat fuel * step →
    ∃ k, monitorLoop fuel i t (JsNum.ofZ endTime) (JsNum.ofZ intervalMs) startupName =
           Some (inr k) ∧
         (i ≤ k)%nat ∧
         (k = i ↔ endTime <= t) ∧
         (Z.of_nat k - Z.of_nat i - 1) * step < Z.max 1 (endTime - t).
Proof.
  intros Hstep Hadvance Hruns.
  induction fuel as [| fuel IH]; intros i t Hfuel.
  - rewrite flow_monitor_step, num_lt_ofZ.
    destruct (Z.ltb_spec t endTime) as [Hlt | Hge]; [lia |].
    exists i. repeat split; try lia.
  - rewrite flow_monitor_step, num_lt_ofZ.
    destruct (Z.ltb_spec t endTime) as [Hlt | Hge].
    + destruct (Hruns i t) as [res ->].
      specialize (Hadvance i).
      destruct (IH (S i) (t + elapsed i + intervalMs) ltac:(lia))
        as (k & -> & Hk & Hiff & Hbound).
      exists k. split; [reflexivity |]. split; [lia |]. split; [lia |].
      destruct (decide (k = S i)) as [-> | Hne]; [lia |].
      assert (endTime - (t + elapsed i + intervalMs) > 0) by lia. nia.
    + exists i. repeat split; try lia.
Qed.

(** The monitor ends.  With well-formed interval and duration, an end
    instant that is at most 2^53, below which whole numbers add without
    rounding, analyses that return, and workflow time that moves forward by
    at least [step] (more than zero) from one analysis to the next: the
    monitor returns after a number of analyses that the duration bounds;
    it runs none exactly when the duration is zero. *)
Theorem monitor_terminates fuel now startupName interval duration
    intervalMs durationMs step
    (Hinterval : parseInterval interval = inr (JsNum.ofZ intervalMs))
    (Hduration : parseInterval duration = inr (JsNum.ofZ durationMs))
    (Hrange : Z.abs (now + durationMs) <= 2 ^ 53)
    (Hstep : 0 < step)
    (Hadvance : ∀ i, step <= elapsed i + intervalMs)
    (Hruns : ∀ i t, ∃ res,
       startupAnalysisWorkflow (worlds i) (scheds i) t (monitored startupName) = inr res)
    (Hfuel : durationMs / step < Z.of_nat fuel) :
  ∃ k, startupMonitoringWorkflow fuel now startupName interval duration = Some (inr k) ∧
       (k = 0%nat ↔ durationMs = 0) ∧
       (Z.of_nat k - 1) * step < Z.max 1 durationMs.
Proof.
  unfold Workflow.startupMonitoringWorkflow. rewrite Hinterval, Hduration.
  assert (0 <= durationMs) as Hpos.
  { pose proof (flow_interval_cases duration) as H. rewrite Hduration in H.
    destruct H as (? & ? & ? & _ & _ & _ & _ & H & _).
    unfold JsNum.nonNegative, JsNum.ofZ, Qle, inject_Z in H. simpl in H. lia. }
  rewrite (num_plus_ofZ now durationMs Hrange).
  destruct (flow_monitor_loop step (now + durationMs) intervalMs startupName
              Hstep Hadvance Hruns fuel 0%nat now) as (k & Hk & _ & Hiff & Hbound).
  { pose proof (Z.mul_succ_div_gt durationMs step Hstep). nia. }
  exists k. split; [exact Hk |]. split; [lia |].
  replace (now + durationMs - now) with durationMs in Hbound by lia. lia.
Qed.

Lemma flow_monitor_reaches j msg now endTime intervalMs startupName :
  (∀ i, (i < j)%nat → ∃ res,
     startupAnalysisWorkflow (worlds i) (scheds i) (startOf elapsed i now intervalMs)
       (monitored startupName) = inr res) →
  startupAnalysisWorkflow (worlds j) (scheds j) (startOf elapsed j now intervalMs)
    (monitored startupName) = inl msg →
  (∀ i, (i ≤ j)%nat →
     JsNum.lt (JsNum.ofZ (startOf elapsed i now intervalMs)) endTime = true) →
  ∀ d i fuel, (i + d = j)%nat → (d < fuel)%nat →
    monitorLoop fuel i (startOf elapsed i now intervalMs) endTime (JsNum.ofZ intervalMs)
      startupName = Some (inl msg).
Proof.
  intros Hbefore Hfail Htime.
  induction d as [| d IH]; intros i fuel Hi Hfuel;
    (destruct fuel as [| fuel]; [lia |]);
    rewrite flow_monitor_step, (Htime i ltac:(lia)).
  - replace i with j by lia. rewrite Hfail. reflexivity.
  - destruct (Hbefore i ltac:(lia)) as [res ->].
    apply (IH (S i) fuel); lia.
Qed.

(** The monitor gives up at the first error.  A malformed interval or
    duration makes it fail before any analysis is run, the interval being
    looked at first.  And when the analyses before the [j]-th return, each
    starting before the end instant (the start plus the duration, as
    doubles add), and the [j]-th fails, the monitor fails with that error:
    it neither skips the failed turn nor tries again. *)
Theorem monitor_fails_at_first_error fuel now startupName interval duration
    intervalMs durationMs j msg
    (Hinterval : parseInterval interval = inr (JsNum.ofZ intervalMs))
    (Hduration : parseInterval duration = inr durationMs)
    (Hbefore : ∀ i, (i < j)%nat → ∃ res,
       startupAnalysisWorkflow (worlds i) (scheds i) (startOf elapsed i now intervalMs)
         (monitored startupName) = inr res)
    (Hfail : startupAnalysisWorkflow (worlds j) (scheds j)
               (startOf elapsed j now intervalMs) (monitored startupName) = inl msg)
    (Htime : ∀ i, (i ≤ j)%nat →
       JsNum.lt (JsNum.ofZ (startOf elapsed i now intervalMs))
                (JsNum.plus (JsNum.ofZ now) durationMs) = true)
    (Hfuel : (j < fuel)%nat) :
  startupMonitoringWorkflow fuel now startupName interval duration = Some (inl msg) ∧
  (∀ bad, parseInterval bad = inl ("Invalid interval format: " ++ bad)%string →
     startupMonitoringWorkflow fuel now startupName bad duration =
       Some (inl ("Invalid interval format: " ++ bad)%string) ∧
     startupMonitoringWorkflow fuel now startupName interval bad =
       Some (inl ("Invalid interval format: " ++ bad)%string)).
Proof.
  unfold Workflow.startupMonitoringWorkflow. split.
  - rewrite Hinterval, Hduration.
    apply (flow_monitor_reaches j msg now (JsNum.plus (JsNum.ofZ now) durationMs)
             intervalMs startupName Hbefore Hfail Htime j 0%nat fuel); lia.
  - intros bad Hbad. rewrite Hbad, Hinterval. split; reflexivity.
Qed.

End MonitoringFacts.


Lemma monitor_terminates_witness :
  ∃ k, Workflow.startupMonitoringWorkflow Workflow.allUp (fun _ => Workflow.inOrder)
         (fun _ => 4000) None 10 1700000000000 "Acme" "30s" "2m" = Some (inr k) ∧
       (k = 0%nat ↔ 120000 = 0) ∧
       (Z.of_nat k - 1) * 34000 < Z.max 1 120000.
Proof.
  apply (monitor_terminates Workflow.allUp (fun _ => Workflow.inOrder) (fun _ => 4000)
           None 10 1700000000000 "Acme" "30s" "2m" 30000 120000 34000).
  - vm_compute. reflexivity.
  - vm_compute. reflexivity.
  - pose proof num_big. lia.
  - lia.
  - intros i. lia.
  - intros i t. eexists. reflexivity.
  - reflexivity.
Defined.

Lemma monitor_fails_at_first_error_witness :
  Workflow.startupMonitoringWorkflow Workflow.saveBreaks (fun _ => Workflow.inOrder)
    (fun _ => 4000) None 10 1700000000000 "Acme" "30s" "2m" = Some (inl "db down") ∧
  (∀ bad,
     Workflow.parseInterval bad = inl ("Invalid interval format: " ++ bad)%string →
     Workflow.startupMonitoringWorkflow Workflow.saveBreaks (fun _ => Workflow.inOrder)
       (fun _ => 4000) None 10 1700000000000 "Acme" bad "2m" =
       Some (inl ("Invalid interval format: " ++ bad)%string) ∧
     Workflow.startupMonitoringWorkflow Workflow.saveBreaks (fun _ => Workflow.inOrder)
       (fun _ => 4000) None 10 1700000000000 "Acme" "30s" bad =
       Some (inl ("Invalid interval format: " ++ bad)%string)).
Proof.
  apply (monitor_fails_at_first_error Workflow.saveBreaks (fun _ => Workflow.inOrder)
           (fun _ => 4000) None 10 1700000000000 "Acme" "30s" "2m" 30000
           (JsNum.ofZ 120000) 1 "db down").
  - vm_compute. reflexivity.
  - vm_compute. reflexivity.
  - intros i Hi. assert (i = 0%nat) as -> by lia. eexists. reflexivity.
  - reflexivity.
  - intros i Hi. destruct i as [| [| i]]; [vm_compute; reflexivity .. | lia].
  - lia.
Defined.

(** ** The aggregate of the per-item results *)

Section AggregateFacts.
Import Sentiment.

Lemma agg_fold_unit results : ∀ acc k,
  (∀ r, r ∈ results →
     (0 <= score r ∧ score r <= 1)%Q ∧ (0 <= confidence r ∧ confidence r <= 1)%Q) →
  k + Z.of_nat (length results) < 2 ^ 53 →
  JsNum.between 0 k (totalScore acc) → JsNum.between 0 k (totalConfidence acc) →
  JsNum.between 0 (k + Z.of_nat (length results))
                (totalScore (fold_left addResult results acc)) ∧
  JsNum.between 0 (k + Z.of_nat (length results))
                (totalConfidence (fold_left addResult results acc)).
Proof.
  induction results as [| r results IH]; intros acc k Hunit Hlen Hs Hc.
  - simpl. rewrite Z.add_0_r. split; assumption.
  - cbn [fold_left length] in *. rewrite Nat2Z.inj_succ in *.
    destruct (Hunit r ltac:(left)) as [[Hs0 Hs1] [Hc0 Hc1]].
    replace (k + Z.succ (Z.of_nat (length results)))
      with (k + 1 + Z.of_nat (length results)) by lia.
    apply IH.
    + intros r' Hr'. apply Hunit. right. exact Hr'.
    + lia.
    + apply num_plus_between; [exact Hs | | lia].
      apply num_double_between; [exact Hs0 | exact Hs1 | pose proof num_big; lia].
    + apply num_plus_between; [exact Hc | | lia].
      apply num_double_between; [exact Hc0 | exact Hc1 | pose proof num_big; lia].
Qed.

Lemma agg_count_total results :
  countOf results positive + countOf results negative +
  countOf results neutral + countOf results mixed = Z.of_nat (length results).
Proof.
  induction results as [| r results IH]; [reflexivity |].
  rewrite !agg_countOf_cons. simpl length.
  destruct (sentiment r); repeat case_decide; try done; lia.
Qed.

(** The aggregate of a non-empty result list.  The four counts of the
    distribution add up to the number of results.  The sums and the averages
    are sums and quotients of doubles, rounded at every step, so that an
    average need not be the exact mean; but the rounding never carries it
    out of the unit interval: when all the scores and confidences lie
    between 0 and 1, so do the average score and the average confidence. *)
Theorem aggregate_counts_and_means results
    (Hne : results ≠ [])
    (Hlen : Z.of_nat (length results) < 2 ^ 53)
    (Hunit : ∀ r, r ∈ results →
       (0 <= score r ∧ score r <= 1)%Q ∧ (0 <= confidence r ∧ confidence r <= 1)%Q) :
  ∃ agg,
    aggregate results = Some agg ∧
    fold_right (fun kv s => snd kv + s) 0 (sentiment_distribution agg) =
      Z.of_nat (length results) ∧
    JsNum.between 0 1 (average_score agg) ∧
    JsNum.between 0 1 (average_confidence agg).
Proof.
  pose proof (agg_count_total results) as Htotal.
  destruct (agg_fold_unit results
              {| sentimentCounts := noCounts; totalScore := JsNum.ofZ 0;
                 totalConfidence := JsNum.ofZ 0 |} 0 Hunit ltac:(lia))
    as [Hscore Hconf]; [split; apply Qle_refl | split; apply Qle_refl |].
  fold (totals results) in Hscore, Hconf. rewrite Z.add_0_l in Hscore, Hconf.
  unfold aggregate. destruct results as [| r0 results0]; [contradiction |].
  set (results := r0 :: results0) in *.
  rewrite agg_counts.
  destruct (agg_dominant_four (countOf results positive) (countOf results negative)
              (countOf results neutral) (countOf results mixed)) as (d & Hd & _).
  rewrite Hd. eexists. split; [reflexivity |].
  cbn [sentiment_distribution average_score average_confidence].
  split; [cbn [fold_right snd]; lia |].
  assert (0 < Z.of_nat (length results)) as Hpos by (unfold results; simpl; lia).
  split; apply num_quot_between; auto.
Qed.

End AggregateFacts.

Lemma aggregate_counts_and_means_witness :
  ∃ agg,
    Sentiment.aggregate Sentiment.threeWay = Some agg ∧
    JsNum.between 0 1 (Sentiment.average_score agg) ∧
    JsNum.between 0 1 (Sentiment.average_confidence agg).
Proof.
  destruct (aggregate_counts_and_means Sentiment.threeWay)
    as (agg & Hagg & _ & Hscore & Hconf).
  - discriminate.
  - simpl. pose proof num_big. lia.
  - intros r Hr. apply list_elem_of_In in Hr. simpl in Hr.
    destruct Hr as [<- | [<- | [<- | []]]]; simpl; repeat split;
      unfold Qle; simpl; lia.
  - exists agg. split; [exact Hagg |]. split; [exact Hscore | exact Hconf].
Defined.

(** ** The summary of a run *)

Section SummaryFacts.
Import Workflow Summary.
Variable world : Task → nat → Attempt.

Lemma str_startsWith_app p s : JsString.startsWith (p ++ s) p = true.
Proof.
  induction p as [| a p IH]; simpl; [destruct s; reflexivity |].
  rewrite Ascii.eqb_refl. exact IH.
Qed.

Lemma sum_filter_none {A} (P : A → Prop) `{!∀ x, Decision (P x)} (l : list A) :
  Forall (fun x => ¬ P x) l → filter P l = [].
Proof.
  induction 1 as [| x l Hx _ IH]; [reflexivity |].
  rewrite filter_cons. destruct (decide (P x)); [contradiction | exact IH].
Qed.

Lemma sum_error_not_collected msg : collected (Text (errorString msg)) = false.
Proof.
  unfold collected, errorString.
  change ("Error: " ++ msg)%string with ("Error:" ++ String " " msg)%string.
  rewrite str_startsWith_app. reflexivity.
Qed.

Lemma workflow_run_sentiment sched now inp res :
  startupAnalysisWorkflow world sched now inp = inr res →
  sentimentAnalysis (results res) =
    Some (outcomeText (callActivity (world AnalyzeSentiment))).
Proof.
  unfold startupAnalysisWorkflow.
  destruct (callActivity (world SaveToDatabase)); [| discriminate].
  destruct (callActivity (world GenerateSummary)); [| discriminate].
  intros [= <-]. reflexivity.
Qed.

(** Every entry of the data sources is a connector's slot, the founders
    object or the competitive slot. *)
Lemma sum_entries sched now inp res k v :
  startupAnalysisWorkflow world sched now inp = inr res →
  dataSources (results res) !! k = Some v →
  (∃ c, v = Text (outcomeText (callActivity (world (Fetch c))))) ∨
  (∃ m, v = ByFounder m) ∨
  v = Text (outcomeText (callActivity (world CompetitiveAnalysis))).
Proof.
  intros Hrun. unfold startupAnalysisWorkflow in Hrun.
  destruct (callActivity (world SaveToDatabase)); [| discriminate].
  destruct (callActivity (world GenerateSummary)); [| discriminate].
  injection Hrun as <-. cbn [results dataSources].
  set (P := fun v : SlotValue =>
              (∃ c, v = Text (outcomeText (callActivity (world (Fetch c))))) ∨
              (∃ m, v = ByFounder m) ∨
              v = Text (outcomeText (callActivity (world CompetitiveAnalysis)))).
  enough (map_Forall (fun _ v => P v)
            (competitivePhase world inp
               (founderPhase world inp (founderOrder sched)
                  (fanOut world (webOrder sched) (fanOut world (socialOrder sched) ∅)))))
    as H by (intros Hk; exact (H k v Hk)).
  assert (∀ order ds, map_Forall (fun _ v => P v) ds →
                      map_Forall (fun _ v => P v) (fanOut world order ds)) as Hfan.
  { induction order as [| c order IH]; intros ds Hds; simpl; [exact Hds |].
    apply IH. apply map_Forall_insert_2; [left; eauto | exact Hds]. }
  assert (∀ fs order ds, map_Forall (fun _ v => P v) ds →
            map_Forall (fun _ v => P v) (fold_left (settleFounder world fs) order ds))
    as Hfounders.
  { intros fs. induction order as [| i order IH]; intros ds Hds; simpl; [exact Hds |].
    apply IH. unfold settleFounder. destruct (fs !! i); [| exact Hds].
    apply map_Forall_insert_2; [right; left; eauto | exact Hds]. }
  assert (map_Forall (fun _ v => P v)
            (fanOut world (webOrder sched) (fanOut world (socialOrder sched) ∅))) as H0
    by (apply Hfan, Hfan, map_Forall_empty).
  assert (map_Forall (fun _ v => P v)
            (founderPhase world inp (founderOrder sched)
               (fanOut world (webOrder sched) (fanOut world (socialOrder sched) ∅)))) as H1.
  { unfold founderPhase. destruct (founders inp) as [[| f fs] |]; try exact H0.
    apply Hfounders, H0. }
  unfold competitivePhase. destruct (competitors inp) as [[| ? ?] |]; try exact H1.
  apply map_Forall_insert_2; [right; right; reflexivity | exact H1].
Qed.

(** The summary does not see failures.  For the result of any run, the
    line on social media presence counts three platforms, whatever the
    connectors did; a connector that failed for good still makes its line
    say that news articles were found, or that the startup is discussed in
    tech forums, since its slot holds the error string; and when every
    connector and the competitive search fail for good, the count of
    sources collected is 0.  A failed sentiment analysis, in contrast, is
    reported as pending or failed. *)
Theorem summary_blind_to_failures sched now inp res
    (Hfair : fair sched inp)
    (Hrun : startupAnalysisWorkflow world sched now inp = inr res) :
  activePlatforms (dataSources (results res)) = 3%nat ∧
  (∀ msg, callActivity (world (Fetch news)) = Raises msg →
     newsCoverage (dataSources (results res)) = "Found recent news articles"%string) ∧
  (∀ msg, callActivity (world (Fetch techCommunity)) = Raises msg →
     techCommunityPresence (dataSources (results res)) =
       "Discussed in tech forums"%string) ∧
  ((∀ c, ∃ msg, callActivity (world (Fetch c)) = Raises msg) →
   (∃ msg, callActivity (world CompetitiveAnalysis) = Raises msg) →
   successfulSources (dataSources (results res)) = 0%nat) ∧
  (∀ msg, callActivity (world AnalyzeSentiment) = Raises msg →
     sentimentSection (sentimentAnalysis (results res)) =
       ("Sentiment analysis pending or failed." ++ String (ascii_of_nat 10) EmptyString)%string).
Proof.
  pose proof (fun c => flow_slots world sched now inp res c Hfair Hrun) as Hslots.
  split; [| split; [| split; [| split]]].
  - unfold activePlatforms.
    pose proof (Hslots twitter) as Htw. pose proof (Hslots bluesky) as Hbs.
    pose proof (Hslots youtube) as Hyt. cbn [slot] in Htw, Hbs, Hyt.
    rewrite (Permutation_length
               (l' := [("twitter"%string,
                        Text (outcomeText (callActivity (world (Fetch twitter)))));
                       ("bluesky"%string,
                        Text (outcomeText (callActivity (world (Fetch bluesky)))));
                       ("youtube"%string,
                        Text (outcomeText (callActivity (world (Fetch youtube)))))]));
      [reflexivity |].
    apply NoDup_Permutation.
    + apply NoDup_filter, NoDup_map_to_list.
    + apply (NoDup_fmap_1 fst). simpl. apply (bool_decide_unpack _). vm_compute. exact I.
    + intros [k v]. rewrite list_elem_of_filter, elem_of_map_to_list. cbn [fst].
      rewrite !elem_of_cons, elem_of_nil. split.
      * intros [[-> | [-> | [-> | []]]] Hk]; [left | right; left | right; right; left];
          congruence.
      * intros [H | [H | [H | H]]]; [| | | apply elem_of_nil in H; contradiction];
          injection H as -> ->; (split; [auto | assumption]).
  - intros msg Hnews. unfold newsCoverage. pose proof (Hslots news) as H.
    cbn [slot] in H. rewrite H, Hnews. reflexivity.
  - intros msg Htech. unfold techCommunityPresence. pose proof (Hslots techCommunity) as H.
    cbn [slot] in H. rewrite H, Htech. reflexivity.
  - intros Hdown [msg Hcomp]. unfold successfulSources.
    rewrite sum_filter_none; [reflexivity |].
    apply Forall_forall. intros [k v] Hin. apply elem_of_map_to_list in Hin.
    cbn [snd].
    destruct (sum_entries sched now inp res k v Hrun Hin) as [[c ->] | [[m ->] | ->]].
    + destruct (Hdown c) as [msg' ->]. cbn [outcomeText].
      rewrite sum_error_not_collected. discriminate.
    + discriminate.
    + rewrite Hcomp. cbn [outcomeText]. rewrite sum_error_not_collected. discriminate.
  - intros msg Hsentiment.
    rewrite (workflow_run_sentiment sched now inp res Hrun), Hsentiment. cbn [outcomeText]. unfold sentimentSection.
    pose proof (sum_error_not_collected msg) as Herr. unfold collected in Herr.
    apply negb_false_iff in Herr. rewrite Herr, andb_false_r. reflexivity.
Qed.

End SummaryFacts.

Lemma summary_blind_to_failures_witness :
  ∃ res,
    Workflow.startupAnalysisWorkflow Summary.connectorsDown Workflow.reversed
      1700000000000 Workflow.teamInput = inr res ∧
    Summary.activePlatforms (Workflow.dataSources (Workflow.results res)) = 3%nat ∧
    Summary.newsCoverage (Workflow.dataSources (Workflow.results res)) =
      "Found recent news articles"%string ∧
    Summary.successfulSources (Workflow.dataSources (Workflow.results res)) = 0%nat.
Proof.
  destruct (Workflow.startupAnalysisWorkflow Summary.connectorsDown Workflow.reversed
              1700000000000 Workflow.teamInput) as [msg | res] eqn:Hrun;
    [discriminate Hrun |].
  destruct (summary_blind_to_failures Summary.connectorsDown Workflow.reversed
              1700000000000 Workflow.teamInput res)
    as (Hplatforms & Hnews & _ & Hnone & _).
  - repeat split; try reflexivity. simpl. apply (Permutation_swap 0%nat 1%nat []).
  - exact Hrun.
  - exists res. split; [reflexivity |]. split; [exact Hplatforms |].
    split; [apply (Hnews "ECONNREFUSED"); reflexivity |].
    apply Hnone; [intros c; eexists; reflexivity | eexists; reflexivity].
Defined.

(** ** The keyword fallback *)

Section KeywordFacts.
Import Sentiment.

Lemma kw_score_cases p n :
  0 <= p → 0 <= n →
  let t := if p + n =? 0 then 1 else p + n in
  let sc := (inject_Z (p - n + t) / inject_Z (2 * t))%Q in
  Qle_bool sc (6 # 10) = negb (3 * n <? 2 * p) ∧
  Qle_bool (4 # 10) sc = negb (3 * p <? 2 * n) ∧
  (0 <= sc)%Q ∧ (sc <= 1)%Q ∧
  (sc * inject_Z (2 * t) == inject_Z (p - n + t))%Q.
Proof.
  intros Hp Hn t sc.
  assert (t = 1 ∧ p = 0 ∧ n = 0 ∨ 0 < t ∧ t = p + n) as Ht
    by (unfold t; destruct (Z.eqb_spec (p + n) 0); lia).
  unfold sc. destruct (2 * t) as [| q | q] eqn:E; try lia.
  unfold Qdiv, Qinv, Qmult, Qle_bool, Qle, Qeq, inject_Z; simpl.
  rewrite ?Z.mul_1_r, ?Pos.mul_1_l, ?Pos.mul_1_r. clearbody t.
  split; [| split; [| split; [| split]]].
  - destruct (Z.leb_spec ((p - n + t) * 10) (6 * Z.pos q)),
      (Z.ltb_spec (3 * n) (2 * p)); simpl; try reflexivity; lia.
  - destruct (Z.leb_spec (4 * Z.pos q) ((p - n + t) * 10)),
      (Z.ltb_spec (3 * p) (2 * n)); simpl; try reflexivity; lia.
  - lia.
  - lia.
  - reflexivity.
Qed.

Lemma kw_count_nonneg vocabulary words : 0 <= countIn vocabulary words.
Proof. unfold countIn. lia. Qed.

(** The verdict of the keyword fallback.  With [p] positive and [n]
    negative keywords among the lower-cased words of the text: the score is
    [p / (p + n)], or one half when there is no keyword, and so lies between
    0 and 1; the confidence is 0.7; the category is positive when
    [2 p > 3 n], negative when [3 p < 2 n], mixed in between when both kinds
    occur, and neutral exactly when the text holds no keyword at all. *)
Theorem keyword_fallback_verdict text :
  let words := splitSpaces (JsString.toLowerCase text) EmptyString false in
  let p := countIn positiveWords words in
  let n := countIn negativeWords words in
  let r := keywordFallback text in
  confidence r = 7 # 10 ∧
  (0 <= score r ∧ score r <= 1)%Q ∧
  (score r * inject_Z (if p + n =? 0 then 2 else p + n) ==
     inject_Z (if p + n =? 0 then 1 else p))%Q ∧
  sentiment r =
    (if 3 * n <? 2 * p then positive
     else if 3 * p <? 2 * n then negative
     else if (0 <? p) && (0 <? n) then mixed
     else neutral) ∧
  (sentiment r = neutral ↔ p = 0 ∧ n = 0).
Proof.
  intros words p n r.
  pose proof (kw_count_nonneg positiveWords words) as Hp. fold p in Hp.
  pose proof (kw_count_nonneg negativeWords words) as Hn. fold n in Hn.
  destruct (kw_score_cases p n Hp Hn) as (H6 & H4 & Hlo & Hhi & Hmul).
  assert (sentiment r =
            (if 3 * n <? 2 * p then positive
             else if 3 * p <? 2 * n then negative
             else if (0 <? p) && (0 <? n) then mixed
             else neutral)) as Hsentiment.
  { unfold r, keywordFallback. fold words. fold p. fold n. cbn [sentiment].
    rewrite H6, H4, !negb_involutive. reflexivity. }
  split; [reflexivity |]. split; [split; [exact Hlo | exact Hhi] |]. split.
  - unfold r, keywordFallback. fold words. fold p. fold n. cbn [score].
    destruct (Z.eqb_spec (p + n) 0) as [Hz | Hnz].
    + rewrite Hmul. assert (p = 0) as -> by lia. assert (n = 0) as -> by lia.
      reflexivity.
    + replace (p - n + (p + n)) with (2 * p) by lia.
      assert (¬ inject_Z (p + n) == 0)%Q as Hden
        by (unfold Qeq, inject_Z; simpl; lia).
      rewrite !inject_Z_mult. change (inject_Z 2) with 2%Q. field. exact Hden.
  - split; [exact Hsentiment |]. rewrite Hsentiment.
    destruct (Z.ltb_spec (3 * n) (2 * p)); [split; [discriminate | lia] |].
    destruct (Z.ltb_spec (3 * p) (2 * n)); [split; [discriminate | lia] |].
    destruct (Z.ltb_spec 0 p), (Z.ltb_spec 0 n); simpl;
      (split; [try discriminate; lia | try reflexivity; lia]).
Qed.

End KeywordFacts.

(** ** The dashboard *)

Section DashboardFacts.
Import Dashboard.



End DashboardFacts.

(** ** Further sample evaluations *)

Example interval_samples :
  map Workflow.parseInterval
      ["30m"; "7d"; "007s"; "m"; "1.5h"; "5S"; "9007199254740993m"]%string =
    [inr (JsNum.ofZ 1800000); inr (JsNum.ofZ 604800000); inr (JsNum.ofZ 7000);
     inl "Invalid interval format: m"%string;
     inl "Invalid interval format: 1.5h"%string;
     inl "Invalid interval format: 5S"%string;
     inr (JsNum.ofZ 540431955284459520000)].
Proof. vm_compute. reflexivity. Qed.

Example monitor_samples :
  Workflow.startupMonitoringWorkflow Workflow.allUp (fun _ => Workflow.inOrder)
    (fun _ => 4000) None 10 1700000000000 "Acme" "30s" "2m" = Some (inr 4%nat) ∧
  Workflow.startupMonitoringWorkflow Workflow.allUp (fun _ => Workflow.inOrder)
    (fun _ => 4000) None 10 1700000000000 "Acme" "30s" "0d" = Some (inr 0%nat) ∧
  Workflow.startupMonitoringWorkflow Workflow.saveBreaks (fun _ => Workflow.inOrder)
    (fun _ => 4000) None 10 1700000000000 "Acme" "30s" "2m" =
    Some (inl "db down"%string).
Proof. repeat split; vm_compute; reflexivity. Qed.

Example aggregate_rounding_samples :
  let same := {| Sentiment.sentiment := Sentiment.neutral;
                 Sentiment.score := 7 # 10; Sentiment.confidence := 1 # 2 |} in
  JsNum.double (7 # 10) = JsNum.Fin (3152519739159347 # 4503599627370496) ∧
  option_map Sentiment.average_score (Sentiment.aggregate [same; same; same]) =
    Some (JsNum.Fin (6305039478318693 # 9007199254740992)) ∧
  option_map Sentiment.average_confidence (Sentiment.aggregate [same; same; same]) =
    Some (JsNum.Fin (1 # 2)) ∧
  JsNum.plus (JsNum.double (1 # 10)) (JsNum.double (2 # 10)) =
    JsNum.Fin (1351079888211149 # 4503599627370496) ∧
  JsNum.double (2 ^ 1024 - 2 ^ 970) = JsNum.PosInf ∧
  JsNum.double (1 # 2 ^ 1075) = JsNum.Fin 0.
Proof. repeat split; vm_compute; reflexivity. Qed.

Example engine_rejection_samples :
  snd (SentimentBatch.analyzeBatchWithClaude SentimentBatch.sampleDigest
         SentimentBatch.sampleParse SentimentBatch.bareStatus SentimentBatch.cleanEnv
         ["good"; "bad"]%string true) =
    inl (Error_ "Cannot read properties of undefined (reading 'includes')") ∧
  snd (SentimentBatch.analyzeBatchWithClaude SentimentBatch.sampleDigest
         SentimentBatch.sampleParse SentimentBatch.bareStatus SentimentBatch.cleanEnv
         ["good"; "bad"]%string false) =
    inr (SentimentBatch.errorResult "Batch analysis failed"
           "Analysis unavailable due to API error" ["good"; "bad"]%string) ∧
  snd (SentimentBatch.analyzeBatchWithClaude SentimentBatch.sampleDigest
         SentimentBatch.sampleParse SentimentBatch.alwaysThrottled SentimentBatch.cleanEnv
         ["good"; "bad"]%string true) =
    inr (SentimentBatch.errorResult "Batch analysis failed"
           "Analysis unavailable due to API error" ["good"; "bad"]%string).
Proof. repeat split; reflexivity. Qed.

Example keyword_samples :
  Sentiment.splitSpaces " a  b " EmptyString false = [EmptyString; "a"; "b"; EmptyString]%string ∧
  Sentiment.sentiment (Sentiment.keywordFallback "Great product, TERRIBLE support") =
    Sentiment.mixed ∧
  Sentiment.sentiment (Sentiment.keywordFallback "I love it") = Sentiment.positive ∧
  Sentiment.sentiment (Sentiment.keywordFallback "great great great bad bad") =
    Sentiment.mixed ∧
  Sentiment.sentiment (Sentiment.keywordFallback "nothing special") = Sentiment.neutral.
Proof. repeat split; reflexivity. Qed.

Example insight_samples :
  Dashboard.generateInsights [] [] = Dashboard.morePlatforms ∧
  Dashboard.generateInsights [] ["negative"; "positive"]%string =
    (Dashboard.positivePerception ++ String (ascii_of_nat 10) EmptyString ++
     Dashboard.morePlatforms)%string.
Proof. split; reflexivity. Qed.

Example queue_drain_two :
  let st := RateLimiter.drain 40 RateLimiter.twoQueued in
  RateLimiter.settledIds st = ["b"; "a"]%string ∧
  RateLimiter.console st = [(2000, 1); (4000, 2); (8000, 3)] ∧
  RateLimiter.settledIds (RateLimiter.drain 40 (RateLimiter.clearQueue RateLimiter.twoQueued))
    = [].
Proof. repeat split; reflexivity. Qed.
